(** * Cymbal Superstore analytics: segmentation, churn and loading scripts

    A shallow embedding of [src/python/01_kmeans_segmentation.py],
    [src/python/02_churn_model.py] and
    [src/python/load_olist_to_postgres.py].

    - A pandas [DataFrame] is an ordered association list of named columns;
      a cell is missing ([NaN]), a number or a string.  A number cell holds
      the rational value of a binary64 number.  The product of line 281
      and the quotient of line 133 are the IEEE 754 ones, computed with
      primitive floats; the bin edges of [pd.qcut] are NumPy's binary64
      interpolation, a parameter of which only three facts are used.
      Medians and group means are taken exactly: what is proved of them
      is which value fills which cell.
    - A function that updates one frame in place is a computation in the
      state-and-exception monad [St Frame]; Python exceptions are values of
      [exn], and the state reached when an exception is raised is kept.
    - Frames live in a store addressed by object identity ([world]), so that
      [df.copy()] and in-place assignment can be told apart.
    - scikit-learn's estimators, the database server and NumPy's [log1p]
      are parameters ([Sklearn], [Database], [Numerics]); the input checks
      of the estimators that the scripts rely on are written out. *)

From Stdlib Require Import QArith Qround Floats Lqa Sorting SetoidList SetoidPermutation.
From stdpp Require Import gmap strings list fin_maps.

Open Scope string_scope.

(* 0.3 is written in decimal and read as the nearest binary64 number. *)
Set Warnings "-inexact-float".

(** ** Exceptions and the state monad *)

Inductive exn : Type :=
  | KeyError (key : string)
  | ValueError (msg : string)
  | TypeError (msg : string)
  | IndexError (msg : string)
  | DatabaseError (query : string)
  | OperationalError (table : string).

Inductive result (A : Type) : Type :=
  | Ok (a : A)
  | Raise (e : exn).
Arguments Ok {A} a.
Arguments Raise {A} e.

Definition St (S A : Type) : Type := S -> result A * S.

Definition ret {S A} (a : A) : St S A := fun s => (Ok a, s).

Definition bind {S A B} (m : St S A) (k : A -> St S B) : St S B :=
  fun s =>
    match m s with
    | (Ok a, s') => k a s'
    | (Raise e, s') => (Raise e, s')
    end.

Definition lift {S A} (r : result A) : St S A := fun s => (r, s).

Declare Scope py_scope.
Delimit Scope py_scope with py.
Notation "x <- c1 ;; c2" := (bind c1 (fun x => c2))
  (at level 100, c1 at next level, right associativity) : py_scope.
Notation "c1 ;; c2" := (bind c1 (fun _ => c2))
  (at level 100, right associativity) : py_scope.
Open Scope py_scope.

(** [for x in xs: body(x)] *)
Fixpoint for_each {S A} (xs : list A) (body : A -> St S unit) : St S unit :=
  match xs with
  | [] => ret tt
  | x :: xs' => body x ;; for_each xs' body
  end.

(** Pure (state-free) sequencing of results. *)
Definition rbind {A B} (r : result A) (k : A -> result B) : result B :=
  match r with
  | Ok a => k a
  | Raise e => Raise e
  end.

Notation "'let?' x := c1 'in' c2" := (rbind c1 (fun x => c2))
  (at level 100, x name, c1 at next level, right associativity) : py_scope.

Fixpoint rmap {A B} (f : A -> result B) (xs : list A) : result (list B) :=
  match xs with
  | [] => Ok []
  | x :: xs' =>
      rbind (f x) (fun y => rbind (rmap f xs') (fun ys => Ok (y :: ys)))
  end.

(** ** Cells, series and frames *)

Inductive value : Type :=
  | NaN
  | Num (q : Q)
  | Str (s : string).

Abbreviation Series := (list value).
Abbreviation Frame := (list (string * Series)).

Definition isna (v : value) : bool :=
  match v with
  | NaN => true
  | _ => false
  end.

Definition is_str (v : value) : bool :=
  match v with
  | Str _ => true
  | _ => false
  end.

Definition is_num (v : value) : bool :=
  match v with
  | Num _ => true
  | _ => false
  end.

(** Two cells hold the same value, as join keys and as labels: equal
    numbers, equal strings, or both missing. *)
Definition key_eqb (a b : value) : bool :=
  match a, b with
  | NaN, NaN => true
  | Num x, Num y => Qeq_bool x y
  | Str x, Str y => String.eqb x y
  | _, _ => false
  end.

(** [s.isna().any()] *)
Definition isna_any (s : Series) : bool := existsb isna s.

(** [s.fillna(fill)] *)
Definition fillna (s : Series) (fill : value) : Series :=
  map (fun v => if isna v then fill else v) s.

Fixpoint lookup_col (col : string) (df : Frame) : option Series :=
  match df with
  | [] => None
  | (c, s) :: df' => if String.eqb c col then Some s else lookup_col col df'
  end.

(** [df[col] = s]: an existing column is replaced where it stands, a new
    one is added after the last column. *)
Fixpoint assign_col (col : string) (s : Series) (df : Frame) : Frame :=
  match df with
  | [] => [(col, s)]
  | (c, s') :: df' =>
      if String.eqb c col then (c, s) :: df' else (c, s') :: assign_col col s df'
  end.

Definition columns (df : Frame) : list string := map fst df.

(** [len(df)] *)
Definition nrows (df : Frame) : nat :=
  match df with
  | [] => 0
  | (_, s) :: _ => length s
  end.

(** [df[col]] *)
Definition getitem (col : string) : St Frame Series :=
  fun df =>
    match lookup_col col df with
    | Some s => (Ok s, df)
    | None => (Raise (KeyError col), df)
    end.

(** [df[col] = s] for a series [s] on the frame's own index. *)
Definition setitem (col : string) (s : Series) : St Frame unit :=
  fun df => (Ok tt, assign_col col s df).

(** [df[col] = a] for an ndarray [a]: its length must be the frame's. *)
Definition setitem_array (col : string) (a : Series) : St Frame unit :=
  fun df =>
    if Nat.eqb (length a) (nrows df)
    then (Ok tt, assign_col col a df)
    else (Raise (ValueError "Length of values does not match length of index"), df).

(** ** Binary64 arithmetic on cells *)

(** A number cell holds the rational value of a binary64 number.  Where
    a script multiplies or divides two columns, the operands are read as
    binary64 numbers, the operation is the IEEE 754 one, and the result
    is stored as the rational it is. *)

(** The binary64 number nearest to [q], ties to even: [q] is cut to an
    integer of 65 bits or more times a power of two, with one more bit
    that records whether anything was cut off, and that is rounded. *)
Definition to_float (q : Q) : float :=
  let n := Z.abs (Qnum q) in
  let d := Zpos (Qden q) in
  let s := Z.max 0 (64 + Z.log2 d - Z.log2 n) in
  let m := (n * 2 ^ s / d)%Z in
  let sticky := if Z.eqb ((n * 2 ^ s) mod d) 0 then 0%Z else 1%Z in
  let r := (2 * m + sticky)%Z in
  SF2Prim (binary_normalize prec emax (if Z.ltb (Qnum q) 0 then (- r)%Z else r) (- s - 1) false).

(** A binary64 result as a cell.  A nan is a missing cell.  An infinite
    result has no cell of its own in this model and is read as a missing
    one; statements about a product or a quotient leave that case out. *)
Definition of_float (f : float) : value :=
  match Prim2SF f with
  | S754_zero _ => Num 0
  | S754_finite sign m e =>
      let n := if sign then Zneg m else Zpos m in
      Num (Qred (if Z.leb 0 e then inject_Z (n * 2 ^ e) else Qmake n (Z.to_pos (2 ^ (- e)))))
  | _ => NaN
  end.

(** ** Numeric kernels taken as parameters *)

Class Numerics : Type := {
  (** how [pd.to_numeric] reads a string; [None] when it does not parse *)
  parse_float : string -> option Q;
  (** [np.log1p] on one number *)
  log1p : Q -> value;
  (** [quantile64 v k m]: the quantile [k/m] of the sorted numbers [v] as
      [Series.quantile] computes it for [pd.qcut], by NumPy's linear
      interpolation in binary64 at the position [np.linspace] gives *)
  quantile64 : list Q -> nat -> nat -> Q;
  (** at 0 and at 1 the interpolation lands on the smallest and on the
      largest number, and between equal numbers it returns that number *)
  quantile64_first : forall v m, (quantile64 v 0 m == nth 0 v 0)%Q;
  quantile64_last : forall v m,
    1 <= m -> (quantile64 v m m == nth (length v - 1) v 0)%Q;
  quantile64_constant : forall v k m x,
    v <> [] -> (forall y, In y v -> (y == x)%Q) -> k <= m -> 1 <= m ->
    (quantile64 v k m == x)%Q
}.

Section Pandas.
Context `{Numerics}.

(** [pd.to_numeric(s, errors="coerce")] *)
Definition to_numeric (s : Series) : Series :=
  map (fun v =>
         match v with
         | Str t => match parse_float t with
                    | Some q => Num q
                    | None => NaN
                    end
         | _ => v
         end) s.

(** [np.log1p(s)] *)
Definition np_log1p (s : Series) : result Series :=
  rmap (fun v =>
          match v with
          | NaN => Ok NaN
          | Num q => Ok (log1p q)
          | Str _ => Raise (TypeError "loop of ufunc does not support argument 0 of type str")
          end) s.

End Pandas.

(** The numbers of a series, missing cells dropped; a string makes the
    reduction fail. *)
Fixpoint numbers (s : Series) : result (list Q) :=
  match s with
  | [] => Ok []
  | NaN :: s' => numbers s'
  | Num q :: s' => rbind (numbers s') (fun l => Ok (q :: l))
  | Str _ :: _ => Raise (TypeError "could not convert string to float")
  end.

Fixpoint insert_sorted (x : Q) (l : list Q) : list Q :=
  match l with
  | [] => [x]
  | y :: l' => if Qle_bool x y then x :: l else y :: insert_sorted x l'
  end.

Definition sort_values (l : list Q) : list Q := foldr insert_sorted [] l.

(** The middle of a sorted list: the middle element, or the mean of the
    two middle elements. *)
Definition middle (v : list Q) : value :=
  let n := length v in
  if Nat.eqb n 0 then NaN
  else if Nat.odd n then Num (nth (n / 2) v 0%Q)
  else Num (Qred ((nth (n / 2 - 1) v 0%Q + nth (n / 2) v 0%Q) / 2)).

(** [s.median()], missing cells skipped; [NaN] when nothing is left. *)
Definition median (s : Series) : result value :=
  rbind (numbers s) (fun l => Ok (middle (sort_values l))).

(** [if df[c].isna().any(): df[c] = df[c].fillna(fill(df[c]))] *)
Definition fill_missing (c : string) (fill : Series -> result value) : St Frame unit :=
  s <- getitem c ;;
  if isna_any s
  then (s' <- getitem c ;; m <- lift (fill s') ;; setitem c (fillna s' m))
  else ret tt.

(** ** Rows and row-wise [apply] *)

Abbreviation Row := (list (string * value)).

Definition row_at (df : Frame) (i : nat) : Row :=
  map (fun cs => (fst cs, nth i (snd cs) NaN)) df.

Definition rows (df : Frame) : list Row :=
  map (row_at df) (seq 0 (nrows df)).

Fixpoint row_find (col : string) (row : Row) : option value :=
  match row with
  | [] => None
  | (c, v) :: row' => if String.eqb c col then Some v else row_find col row'
  end.

(** [row[col]] *)
Definition row_get (row : Row) (col : string) : result value :=
  match row_find col row with
  | Some v => Ok v
  | None => Raise (KeyError col)
  end.

(** [df.apply(f, axis=1)] *)
Definition apply_rows (f : Row -> result value) (df : Frame) : result Series :=
  rmap f (rows df).

(** [v <= q], [v >= q] and [v == q] for a cell and a number. *)
Definition le_num (v : value) (q : Q) : result bool :=
  match v with
  | NaN => Ok false
  | Num x => Ok (Qle_bool x q)
  | Str _ => Raise (TypeError "'<=' not supported between instances of 'str' and 'int'")
  end.

Definition ge_num (v : value) (q : Q) : result bool :=
  match v with
  | NaN => Ok false
  | Num x => Ok (Qle_bool q x)
  | Str _ => Raise (TypeError "'>=' not supported between instances of 'str' and 'int'")
  end.

Definition eq_num (v : value) (q : Q) : bool :=
  match v with
  | Num x => Qeq_bool x q
  | _ => false
  end.

(** [a and b]: [b] is evaluated only when [a] is true. *)
Definition and_then (a b : result bool) : result bool :=
  let? x := a in if x then b else Ok false.

(** ** Quantile binning: [pd.qcut] *)

(** The quantile [k/m] of a sorted list by linear interpolation between
    the two nearest order statistics, in exact arithmetic. *)
Definition quantile (v : list Q) (k m : nat) : Q :=
  let p := k * (length v - 1) in
  let lo := p / m in
  let hi := Nat.min (lo + 1) (length v - 1) in
  let a := nth lo v 0%Q in
  let b := nth hi v 0%Q in
  Qred (a + (inject_Z (Z.of_nat (p mod m)) / inject_Z (Z.of_nat m)) * (b - a)).

Definition bin_edges (v : list Q) (m : nat) : list Q :=
  map (fun k => quantile v k m) (seq 0 (S m)).

Lemma quantile_zero (v : list Q) (m : nat) : (quantile v 0 m == nth 0 v 0)%Q.
Proof.
  unfold quantile. cbv zeta. rewrite Qred_correct.
  replace (0 * (length v - 1)) with 0 by lia.
  rewrite Nat.Div0.mod_0_l, Nat.Div0.div_0_l.
  change (inject_Z (Z.of_nat 0)) with 0%Q. unfold Qdiv. ring.
Qed.

Lemma quantile_last (v : list Q) (m : nat) :
  1 <= m -> (quantile v m m == nth (length v - 1) v 0)%Q.
Proof.
  intros Hm. unfold quantile. cbv zeta. rewrite Qred_correct.
  rewrite (Nat.mul_comm m), Nat.Div0.mod_mul, Nat.div_mul by lia.
  change (inject_Z (Z.of_nat 0)) with 0%Q. unfold Qdiv. ring.
Qed.

Lemma quantile_constant (v : list Q) (k m : nat) (x : Q) :
  v <> [] -> (forall y, In y v -> (y == x)%Q) -> k <= m -> 1 <= m ->
  (quantile v k m == x)%Q.
Proof.
  intros Hv Hall Hk Hm. unfold quantile. cbv zeta. rewrite Qred_correct.
  assert (Hn : 0 < length v) by (destruct v; [done | simpl; lia]).
  assert (Hlo : k * (length v - 1) / m <= length v - 1).
  { apply Nat.Div0.div_le_upper_bound. by apply Nat.mul_le_mono_r. }
  set (lo := k * (length v - 1) / m) in *.
  rewrite (Hall (nth lo v 0%Q)) by (apply nth_In; lia).
  rewrite (Hall (nth (Nat.min (lo + 1) (length v - 1)) v 0%Q)) by (apply nth_In; lia).
  ring.
Qed.

Fixpoint all_distinct (l : list Q) : bool :=
  match l with
  | [] => true
  | x :: l' => forallb (fun y => negb (Qeq_bool x y)) l' && all_distinct l'
  end.

Definition Qlt_bool (x y : Q) : bool := negb (Qle_bool y x).

(** [bins.searchsorted(x, side="left")]: the number of edges below [x]. *)
Definition searchsorted_left (bins : list Q) (x : Q) : nat :=
  length (List.filter (fun e => Qlt_bool e x) bins).

(** The 1-based bin of [x]: bins are right-closed and the first one also
    holds its left edge; 0 stands for "in no bin". *)
Definition bin_of (bins : list Q) (x : Q) : nat :=
  let i := if Qeq_bool x (hd 0%Q bins) then 1 else searchsorted_left bins x in
  if Nat.eqb i (length bins) then 0 else i.

(** The cells of a cut: the label of the bin of each number; a cell that
    is not a number, or is in no bin, is missing. *)
Definition cut_cells (bins : list Q) (label : nat -> value) (s : Series) : Series :=
  map (fun v =>
         match v with
         | Num x =>
             match bin_of bins x with
             | O => NaN
             | S i => label i
             end
         | _ => NaN
         end) s.

Fixpoint unique_labels (ls : list value) : bool :=
  match ls with
  | [] => true
  | v :: ls' => negb (existsb (key_eqb v) ls') && unique_labels ls'
  end.

Section Qcut.
Context `{Numerics}.

(** The [m + 1] bin edges of [pd.qcut]: the quantiles [0, 1/m, ..., 1]. *)
Definition bin_edges64 (v : list Q) (m : nat) : list Q :=
  map (fun k => quantile64 v k m) (seq 0 (S m)).

(** [pd.qcut(s, q, labels=labels)] with [labels] a list of labels, or
    [labels=False] ([None]): the 0-based bin number.  Edges that are not
    all different are refused, unless there are just two of them. *)
Definition qcut (s : Series) (q : nat) (labels : option (list value)) : result Series :=
  let? xs := numbers s in
  let bins := bin_edges64 (sort_values xs) q in
  if (Nat.eqb (length xs) 0 || negb (all_distinct bins)) && negb (Nat.eqb (length bins) 2)
  then Raise (ValueError "Bin edges must be unique")
  else
    match labels with
    | None => Ok (cut_cells bins (fun i => Num (inject_Z (Z.of_nat i))) s)
    | Some ls =>
        if negb (unique_labels ls)
        then Raise (ValueError "labels must be unique if ordered=True")
        else if negb (Nat.eqb (length ls) (length bins - 1))
        then Raise (ValueError "Bin labels must be one fewer than the number of bin edges")
        else Ok (cut_cells bins (fun i => nth i ls NaN) s)
    end.

End Qcut.

(** Rounding towards zero, as a float is converted to an integer. *)
Definition Qtrunc (x : Q) : Z :=
  if Qle_bool 0 x then Qfloor x else Qceiling x.

(** [s.astype(int)] *)
Definition astype_int (s : Series) : result Series :=
  rmap (fun v =>
          match v with
          | NaN => Raise (ValueError "Cannot convert float NaN to integer")
          | Num x => Ok (Num (inject_Z (Qtrunc x)))
          | Str _ => Raise (ValueError "invalid literal for int() with base 10")
          end) s.

(** ** Group-by, ranks and joins used by the profiler *)

(** [df[cols]]: the named columns, in the order asked for. *)
Definition select_columns (cols : list string) (df : Frame) : result Frame :=
  rmap (fun c =>
          match lookup_col c df with
          | Some s => Ok (c, s)
          | None => Raise (KeyError c)
          end) cols.

Definition column (df : Frame) (c : string) : result Series :=
  match lookup_col c df with
  | Some s => Ok s
  | None => Raise (KeyError c)
  end.

(** Adjacent duplicates of a sorted list removed. *)
Fixpoint dedup_sorted (l : list Q) : list Q :=
  match l with
  | [] => []
  | x :: l' =>
      match l' with
      | [] => [x]
      | y :: _ => if Qeq_bool x y then dedup_sorted l' else x :: dedup_sorted l'
      end
  end.

(** The group keys of [groupby]: the distinct labels in increasing order
    (the labels are cluster numbers). *)
Definition group_keys (labels : Series) : result (list Q) :=
  let? xs := numbers labels in Ok (dedup_sorted (sort_values xs)).

(** The positions of the rows whose label is [key]. *)
Definition group_rows (key : Q) (labels : Series) : list nat :=
  List.filter (fun i => eq_num (nth i labels NaN) key) (seq 0 (length labels)).

Definition take (idx : list nat) (s : Series) : Series :=
  map (fun i => nth i s NaN) idx.

(** The aggregations ["count"] and ["mean"]. *)
Definition agg_count (s : Series) : result value :=
  Ok (Num (inject_Z (Z.of_nat (length (List.filter (fun v => negb (isna v)) s))))).

Definition Qsum (l : list Q) : Q := foldr Qplus 0%Q l.

Definition agg_mean (s : Series) : result value :=
  let? xs := numbers s in
  match xs with
  | [] => Ok NaN
  | _ => Ok (Num (Qred (Qsum xs / inject_Z (Z.of_nat (length xs)))))
  end.

(** [s / s.sum()] on a column of counts: the sum of the integers is
    exact, each quotient is the binary64 one. *)
Definition share_of_total (s : Series) : result Series :=
  let? xs := numbers s in
  let total := to_float (Qred (Qsum xs)) in
  Ok (map (fun v =>
             match v with
             | Num x => of_float (to_float x / total)
             | _ => NaN
             end) s).

(** [s.rank(method="dense", ascending=...)] *)
Definition rank_dense (ascending : bool) (s : Series) : result Series :=
  let? xs := numbers s in
  let ds := dedup_sorted (sort_values xs) in
  Ok (map (fun v =>
             match v with
             | Num x =>
                 Num (inject_Z (Z.of_nat (length
                   (List.filter (fun d => if ascending then Qle_bool d x else Qle_bool x d) ds))))
             | _ => NaN
             end) s).

(** The positions of the right rows whose key is [k], in their order. *)
Definition key_matches (k : value) (rkeys : Series) : list nat :=
  List.filter (fun j => key_eqb (nth j rkeys NaN) k) (seq 0 (length rkeys)).

(** The rows of a left join: every left row in its place, once for each
    right row with the same key, or once with no right row at all. *)
Definition join_rows (lkeys rkeys : Series) : list (nat * option nat) :=
  concat (map (fun i =>
                 match key_matches (nth i lkeys NaN) rkeys with
                 | [] => [(i, None)]
                 | js => map (fun j => (i, Some j)) js
                 end) (seq 0 (length lkeys))).

(** A key column of text: strings, perhaps with missing cells, and no
    number. *)
Definition text_keys (s : Series) : bool := existsb is_str s && negb (existsb is_num s).

(** [left.merge(right, on=key, how="left")]: a column of text is not
    joined with a column without strings; a column that both frames have
    besides the key gets the suffixes [_x] and [_y]. *)
Definition merge_left (left right : Frame) (key : string) : result Frame :=
  let? lkeys := column left key in
  let? rkeys := column right key in
  if (text_keys lkeys && negb (existsb is_str rkeys))
     || (text_keys rkeys && negb (existsb is_str lkeys))
  then Raise (ValueError "You are trying to merge on object and float64 columns")
  else
  let pairs := join_rows lkeys rkeys in
  let clash c := negb (String.eqb c key) && existsb (String.eqb c) (columns left)
                                         && existsb (String.eqb c) (columns right) in
  let lcols :=
    map (fun cs =>
           (if clash (fst cs) then fst cs +:+ "_x" else fst cs,
            map (fun p => nth (fst p) (snd cs) NaN) pairs)) left in
  let rcols :=
    map (fun cs =>
           (if clash (fst cs) then fst cs +:+ "_y" else fst cs,
            map (fun p => match snd p with
                          | Some j => nth j (snd cs) NaN
                          | None => NaN
                          end) pairs))
        (List.filter (fun cs => negb (String.eqb (fst cs) key)) right) in
  Ok (lcols ++ rcols)%list.

(** ** The object store, the database and the run's trace *)

Abbreviation loc := positive.

(** What a run has done so far, oldest first: estimators fitted, the
    population scored, tables written. *)
Inductive event : Type :=
  | Fitted (estimator : string)
  | Scored (estimator : string)
  | Written (table : string).

Record world : Type := World {
  heap : gmap positive Frame;
  db : gmap string Frame;
  trace : list event
}.

Abbreviation M := (St world).

(** A new DataFrame object. *)
Definition alloc (f : Frame) : M loc :=
  fun w =>
    let l := fresh (dom (heap w)) in
    (Ok l, World (<[l := f]> (heap w)) (db w) (trace w)).

Definition deref (df : loc) : M Frame :=
  fun w =>
    match heap w !! df with
    | Some f => (Ok f, w)
    | None => (Raise (ValueError "no such object"), w)
    end.

(** Run a frame computation on the object [df], in place. *)
Definition on {A} (df : loc) (m : St Frame A) : M A :=
  fun w =>
    match heap w !! df with
    | Some f =>
        let (r, f') := m f in
        (r, World (<[df := f']> (heap w)) (db w) (trace w))
    | None => (Raise (ValueError "no such object"), w)
    end.

(** [df.copy()] *)
Definition df_copy (df : loc) : M loc :=
  f <- deref df ;; alloc f.

(** Call a function that reads [df] and builds a new frame. *)
Definition new_from (df : loc) (g : Frame -> result Frame) : M loc :=
  f <- deref df ;; f' <- lift (g f) ;; alloc f'.

Definition tell (e : event) : M unit :=
  fun w => (Ok tt, World (heap w) (db w) (trace w ++ [e])).

(** The database server: what a query returns, and whether it lets a
    table be replaced. *)
Class Database : Type := {
  run_query : string -> gmap string Frame -> result Frame;
  sink_accepts : gmap string Frame -> string -> Frame -> bool
}.

(** scikit-learn, as far as the scripts call it.  Tables go in as frames;
    cluster numbers come back as naturals, probabilities as a series. *)
Class Sklearn : Type := {
  Classifier : Type;
  (** [StandardScaler().fit_transform(X)] *)
  scaler_fit_transform : Frame -> result Frame;
  (** [KMeans(n_clusters, random_state, n_init="auto").fit_predict(X)] *)
  kmeans_fit_predict : nat -> Z -> Frame -> result (list nat);
  (** [silhouette_score(X, labels)] *)
  silhouette_score : Frame -> list nat -> result Q;
  (** [train_test_split(X, y, test_size, random_state, stratify=y)], as
      the row positions of the two parts *)
  train_test_split : Frame -> Series -> Q -> Z -> result (list nat * list nat);
  (** the optimisation behind [clf.fit(X_train, y_train)] once the input
      has been accepted *)
  pipeline_fit : Frame -> Series -> result Classifier;
  (** [clf.predict_proba(X)[:, 1]] *)
  predict_proba : Classifier -> Frame -> result Series;
  (** [roc_auc_score(y_true, y_score)] *)
  roc_auc_score : Series -> Series -> result Q
}.

Section Database_access.
Context `{Database}.

(** [pd.read_sql(query, engine)] *)
Definition read_sql (query : string) : M loc :=
  fun w =>
    match run_query query (db w) with
    | Ok f => alloc f w
    | Raise e => (Raise e, w)
    end.

(** [frame.to_sql(name, schema, if_exists="replace", index=False)] *)
Definition to_sql (table : string) (f : Frame) : M unit :=
  fun w =>
    if sink_accepts (db w) table f
    then (Ok tt, World (heap w) (<[table := f]> (db w)) (trace w ++ [Written table]))
    else (Raise (OperationalError table), w).

End Database_access.

(** * 01_kmeans_segmentation.py *)

Module Segmentation.

(** ** Feature preparation *)

Definition FEATURES : list string :=
  [ "recency_days"; "frequency"; "monetary"; "avg_order_value";
    "avg_items_per_order"; "avg_category_diversity"; "tenure_days";
    "avg_days_between_orders" ].

Definition clustering_features : list string :=
  [ "recency_days"; "frequency"; "monetary_log"; "avg_order_value_log";
    "avg_items_per_order"; "avg_category_diversity"; "tenure_days";
    "avg_days_between_orders" ].

Section Segmentation_prepare.
Context `{Numerics}.

(** [clean_features(df)]: the frame is updated in place; the value
    returned next to it is the list of clustering columns. *)
Definition clean_features : St Frame (list string) :=
  for_each FEATURES (fun col =>
    s <- getitem col ;; setitem col (to_numeric s)) ;;
  s <- getitem "avg_days_between_orders" ;;
  setitem "avg_days_between_orders" (fillna s (Num 9999)) ;;
  for_each FEATURES (fun col => fill_missing col median) ;;
  m <- getitem "monetary" ;;
  ml <- lift (np_log1p m) ;;
  setitem "monetary_log" ml ;;
  a <- getitem "avg_order_value" ;;
  al <- lift (np_log1p a) ;;
  setitem "avg_order_value_log" al ;;
  ret clustering_features.

End Segmentation_prepare.

(** ** Segment naming *)

Definition segment_name (row : Row) : result value :=
  let? c1 := and_then (let? v := row_get row "value_rank" in le_num v 1)
            (and_then (let? v := row_get row "freq_rank" in le_num v 2)
                      (let? v := row_get row "recency_rank" in le_num v 2)) in
  if c1 then Ok (Str "Champions") else
  let? c2 := and_then (let? v := row_get row "value_rank" in le_num v 2)
                      (let? v := row_get row "recency_rank" in ge_num v 4) in
  if c2 then Ok (Str "At-Risk High Value") else
  let? c3 := and_then (let? v := row_get row "freq_rank" in le_num v 2)
                      (let? v := row_get row "value_rank" in ge_num v 4) in
  if c3 then Ok (Str "Loyal Low Spend") else
  let? c4 := and_then (let? v := row_get row "recency_rank" in le_num v 2)
                      (let? v := row_get row "freq_rank" in ge_num v 4) in
  if c4 then Ok (Str "New Customers") else
  Ok (Str "Occasional Shoppers").

(** [name_segments(profile)]: the profile is updated in place. *)
Definition name_segments : St Frame unit :=
  fun profile =>
    (names <- lift (apply_rows segment_name profile) ;;
     setitem "segment_name" names) profile.

(** ** Segment profile *)

Definition profile_aggregations : list (string * (string * (Series -> result value))) :=
  [ ("customers", ("customer_unique_id", agg_count));
    ("recency_days", ("recency_days", agg_mean));
    ("frequency", ("frequency", agg_mean));
    ("monetary", ("monetary", agg_mean));
    ("avg_order_value", ("avg_order_value", agg_mean));
    ("avg_items_per_order", ("avg_items_per_order", agg_mean));
    ("avg_category_diversity", ("avg_category_diversity", agg_mean));
    ("tenure_days", ("tenure_days", agg_mean));
    ("avg_days_between_orders", ("avg_days_between_orders", agg_mean)) ].

(** [df.groupby(label_col).agg(...).reset_index()] *)
Definition groupby_agg (label_col : string)
    (aggs : list (string * (string * (Series -> result value)))) (df : Frame) : result Frame :=
  let? labels := column df label_col in
  let? keys := group_keys labels in
  let? cols :=
    rmap (fun a =>
            let? src := column df (fst (snd a)) in
            let? out := rmap (fun k => snd (snd a) (take (group_rows k labels) src)) keys in
            Ok (fst a, out)) aggs in
  Ok ((label_col, map Num keys) :: cols).

(** [profile_segments(df, label_col)]: a new frame, [df] is only read. *)
Definition profile_segments (label_col : string) (df : Frame) : result Frame :=
  let? profile := groupby_agg label_col profile_aggregations df in
  let body : St Frame unit :=
    c <- getitem "customers" ;;
    sh <- lift (share_of_total c) ;;
    setitem "share" sh ;;
    r <- getitem "recency_days" ;;
    rr <- lift (rank_dense true r) ;;
    setitem "recency_rank" rr ;;
    m <- getitem "monetary" ;;
    vr <- lift (rank_dense false m) ;;
    setitem "value_rank" vr ;;
    f <- getitem "frequency" ;;
    fr <- lift (rank_dense false f) ;;
    setitem "freq_rank" fr in
  match body profile with
  | (Ok _, profile') => Ok profile'
  | (Raise e, _) => Raise e
  end.

(** ** Clustering and the script's [main] *)

Definition N_CLUSTERS : nat := 5.
Definition RANDOM_STATE : Z := 42.

(** The columns of the [SELECT] list of [load_rfm], in its order. *)
Definition rfm_columns : list string :=
  [ "customer_unique_id"; "recency_days"; "frequency"; "monetary";
    "avg_order_value"; "avg_items_per_order"; "avg_category_diversity";
    "tenure_days"; "avg_days_between_orders" ].

Definition rfm_query : string :=
  "SELECT customer_unique_id, recency_days, frequency, monetary, avg_order_value, avg_items_per_order, avg_category_diversity, tenure_days, avg_days_between_orders FROM analytics.customer_rfm".

Definition output_columns : list string :=
  [ "customer_unique_id"; "segment"; "segment_name"; "recency_days";
    "frequency"; "monetary"; "avg_order_value"; "avg_items_per_order";
    "avg_category_diversity"; "tenure_days"; "avg_days_between_orders" ].

(** Cluster numbers as a column. *)
Definition labels_series (labels : list nat) : Series :=
  map (fun k => Num (inject_Z (Z.of_nat k))) labels.

Section Segmentation_run.
Context `{Numerics} `{Database} `{Sklearn}.

Definition load_rfm : M loc := read_sql rfm_query.

(** The loop of [choose_k] over the candidate cluster counts. *)
Fixpoint choose_k_loop (X_scaled : Frame) (ks : list nat) : M (list (nat * Q)) :=
  match ks with
  | [] => ret []
  | k :: ks' =>
      labels <- lift (kmeans_fit_predict k RANDOM_STATE X_scaled) ;;
      tell (Fitted "KMeans") ;;
      score <- lift (silhouette_score X_scaled labels) ;;
      scores <- choose_k_loop X_scaled ks' ;;
      ret ((k, score) :: scores)
  end.

Definition choose_k (X_scaled : Frame) (k_min k_max : nat) : M (list (nat * Q)) :=
  choose_k_loop X_scaled (seq k_min (k_max + 1 - k_min)).

(** [fit_kmeans]: only the labels of the fitted model are used. *)
Definition fit_kmeans (X_scaled : Frame) (n_clusters : nat) : M (list nat) :=
  labels <- lift (kmeans_fit_predict n_clusters RANDOM_STATE X_scaled) ;;
  tell (Fitted "KMeans") ;;
  ret labels.

Definition write_segments (df_segments : Frame) : M unit :=
  to_sql "analytics.customer_segments" df_segments.

(** [main()]; what is only printed is left out. *)
Definition main : M unit :=
  df <- load_rfm ;;
  features <- on df clean_features ;;
  X <- (f <- deref df ;; lift (select_columns features f)) ;;
  X_scaled <- lift (scaler_fit_transform X) ;;
  tell (Fitted "StandardScaler") ;;
  k_scores <- choose_k X_scaled 2 10 ;;
  labels <- fit_kmeans X_scaled N_CLUSTERS ;;
  on df (setitem_array "segment" (labels_series labels)) ;;
  prof <- new_from df (profile_segments "segment") ;;
  on prof name_segments ;;
  seg_map <- (p <- deref prof ;; lift (select_columns ["segment"; "segment_name"] p)) ;;
  df_out <- (f <- deref df ;; lift (merge_left f seg_map "segment")) ;;
  df_out <- lift (select_columns output_columns df_out) ;;
  write_segments df_out ;;
  p <- deref prof ;;
  to_sql "analytics.segment_profile" p.

End Segmentation_run.

End Segmentation.

(** * 02_churn_model.py *)

Module Churn.

(** ** The cleaning block of [load_training_frame] *)

Definition CHURN_THRESHOLD_DAYS : Q := 180.

Definition lifetime_cols : list string :=
  [ "frequency"; "monetary"; "avg_order_value"; "avg_items_per_order";
    "avg_category_diversity"; "tenure_days"; "avg_days_between_orders" ].

Definition time_cols : list string :=
  [ "spend_30d"; "spend_90d"; "orders_30d"; "orders_90d" ].

(** [(s >= threshold).astype(int)]: a comparison with a missing cell is
    false; a string cannot be compared with a number. *)
Definition ge_threshold (threshold : Q) (s : Series) : result Series :=
  rmap (fun v =>
          match v with
          | NaN => Ok (Num 0)
          | Num q => Ok (if Qle_bool threshold q then Num 1 else Num 0)
          | Str _ => Raise (TypeError "'>=' not supported between instances of 'str' and 'int'")
          end) s.

(** [s.fillna("Unknown")] on the segment names. *)
Definition fillna_unknown (s : Series) : Series := fillna s (Str "Unknown").

Section Churn_prepare.
Context `{Numerics}.

(** Lines 85-107 of [load_training_frame], on the frame read from the
    database. *)
Definition prepare_training_frame : St Frame unit :=
  for_each (lifetime_cols ++ time_cols) (fun c =>
    s <- getitem c ;; setitem c (to_numeric s)) ;;
  for_each lifetime_cols (fun c => fill_missing c median) ;;
  for_each time_cols (fun c => fill_missing c (fun _ => Ok (Num 0))) ;;
  s <- getitem "avg_days_between_orders" ;;
  setitem "avg_days_between_orders" (fillna s (Num 9999)) ;;
  r <- getitem "recency_days" ;;
  y <- lift (ge_threshold CHURN_THRESHOLD_DAYS r) ;;
  setitem "churned" y ;;
  sn <- getitem "segment_name" ;;
  setitem "segment_name" (fillna_unknown sn).

End Churn_prepare.

(** ** Priority bands and value at risk *)

Definition priority (row : Row) : result value :=
  let? c1 := and_then (let? v := row_get row "risk_band" in Ok (eq_num v 1))
                      (let? v := row_get row "value_band" in Ok (eq_num v 1)) in
  if c1 then Ok (Str "HIGH") else
  let? c2 := and_then (let? v := row_get row "risk_band" in Ok (eq_num v 1))
                      (let? v := row_get row "value_band" in Ok (eq_num v 2)) in
  if c2 then Ok (Str "MEDIUM") else
  let? c3 := and_then (let? v := row_get row "risk_band" in Ok (eq_num v 2))
                      (let? v := row_get row "value_band" in Ok (eq_num v 1)) in
  if c3 then Ok (Str "MEDIUM") else
  Ok (Str "LOW").

Definition tertile_labels : list value := [Num 3; Num 2; Num 1].

Section Churn_bands.
Context `{Numerics}.

(** The body of [assign_priority_band], run on the copy it makes. *)
Definition add_priority_bands : St Frame unit :=
  r <- getitem "churn_risk" ;;
  rc <- lift (qcut r 3 (Some tertile_labels)) ;;
  rb <- lift (astype_int rc) ;;
  setitem "risk_band" rb ;;
  m <- getitem "monetary" ;;
  mc <- lift (qcut m 3 (Some tertile_labels)) ;;
  vb <- lift (astype_int mc) ;;
  setitem "value_band" vb ;;
  (fun df => (p <- lift (apply_rows priority df) ;; setitem "priority_band" p) df).

End Churn_bands.

(** [a * b] on cells and on two series of one frame: the binary64
    product. *)
Definition mul_value (a b : value) : result value :=
  match a, b with
  | Num x, Num y => Ok (of_float (to_float x * to_float y))
  | Str _, _ | _, Str _ => Raise (TypeError "can't multiply sequence by non-int of type 'float'")
  | _, _ => Ok NaN
  end.

Definition series_mul (a b : Series) : result Series :=
  rmap (fun i => mul_value (nth i a NaN) (nth i b NaN))
       (seq 0 (Nat.max (length a) (length b))).

(** ** Training, scoring and the script's [main] *)

Definition RANDOM_STATE : Z := 42.

Definition training_query : string :=
  "SELECT r.customer_unique_id, r.frequency, r.monetary, r.avg_order_value, r.avg_items_per_order, r.avg_category_diversity, r.tenure_days, r.avg_days_between_orders, r.recency_days, s.segment_name, t.spend_30d, t.spend_90d, t.spend_180d, t.orders_30d, t.orders_90d, t.orders_180d, t.recent_order_ratio, t.recent_spend_ratio FROM analytics.customer_rfm r LEFT JOIN analytics.customer_segments s ON r.customer_unique_id = s.customer_unique_id LEFT JOIN analytics.customer_time_features t ON r.customer_unique_id = t.customer_unique_id".

(** The columns of the [SELECT] list of [load_training_frame], in its
    order. *)
Definition training_columns : list string :=
  [ "customer_unique_id"; "frequency"; "monetary"; "avg_order_value";
    "avg_items_per_order"; "avg_category_diversity"; "tenure_days";
    "avg_days_between_orders"; "recency_days"; "segment_name";
    "spend_30d"; "spend_90d"; "spend_180d"; "orders_30d"; "orders_90d";
    "orders_180d"; "recent_order_ratio"; "recent_spend_ratio" ].

Definition feature_cols_num : list string :=
  [ "frequency"; "monetary"; "avg_order_value"; "avg_items_per_order";
    "avg_category_diversity"; "tenure_days"; "avg_days_between_orders";
    "spend_30d"; "spend_90d"; "orders_30d"; "orders_90d" ].

Definition feature_cols_cat : list string := [ "segment_name" ].

Definition out_cols : list string :=
  [ "customer_unique_id"; "segment_name"; "churned"; "churn_risk";
    "value_at_risk"; "recency_days"; "frequency"; "monetary";
    "avg_order_value"; "avg_items_per_order"; "avg_category_diversity";
    "tenure_days"; "avg_days_between_orders"; "orders_30d"; "orders_90d";
    "spend_30d"; "spend_90d" ].

(** The rows at the given positions. *)
Definition take_cells (idx : list nat) (s : Series) : result Series :=
  rmap (fun i =>
          match s !! i with
          | Some v => Ok v
          | None => Raise (IndexError "positional indexers are out-of-bounds")
          end) idx.

Definition take_rows (idx : list nat) (X : Frame) : result Frame :=
  rmap (fun cs => let? s := take_cells idx (snd cs) in Ok (fst cs, s)) X.

Definition value_eqb (a b : value) : bool :=
  match a, b with
  | NaN, NaN => true
  | Num x, Num y => Qeq_bool x y
  | Str x, Str y => String.eqb x y
  | _, _ => false
  end.

(** The classes of a label vector: its distinct values. *)
Fixpoint classes (y : Series) : list value :=
  match y with
  | [] => []
  | v :: y' => if existsb (value_eqb v) (classes y') then classes y' else v :: classes y'
  end.

Section Churn_run.
Context `{Numerics} `{Database} `{Sklearn}.

(** [load_training_frame(db_engine)] *)
Definition load_training_frame : M loc :=
  df <- read_sql training_query ;;
  on df prepare_training_frame ;;
  ret df.

(** [clf.fit(X_train, y_train)]: logistic regression refuses a label
    vector with fewer than two classes. *)
Definition clf_fit (X_train : Frame) (y_train : Series) : result Classifier :=
  if Nat.ltb (length (classes y_train)) 2
  then Raise (ValueError "This solver needs samples of at least 2 classes in the data")
  else pipeline_fit X_train y_train.

(** [train_and_score(df)] *)
Definition train_and_score (df : loc) : M (loc * Q) :=
  f <- deref df ;;
  X <- lift (select_columns (feature_cols_num ++ feature_cols_cat) f) ;;
  y <- lift (column f "churned") ;;
  parts <- lift (train_test_split X y 0.2%Q RANDOM_STATE) ;;
  X_train <- lift (take_rows (fst parts) X) ;;
  X_test <- lift (take_rows (snd parts) X) ;;
  y_train <- lift (take_cells (fst parts) y) ;;
  y_test <- lift (take_cells (snd parts) y) ;;
  clf <- lift (clf_fit X_train y_train) ;;
  tell (Fitted "LogisticRegression") ;;
  proba <- lift (predict_proba clf X_test) ;;
  auc <- lift (roc_auc_score y_test proba) ;;
  df_out <- df_copy df ;;
  risk <- lift (predict_proba clf X) ;;
  tell (Scored "LogisticRegression") ;;
  on df_out (setitem_array "churn_risk" risk) ;;
  ret (df_out, auc).

(** [write_back(db_engine, scored)] *)
Definition write_back (scored : loc) : M unit :=
  f <- deref scored ;;
  let optional :=
    List.filter (fun c => existsb (String.eqb c) (columns f)
                          && negb (existsb (String.eqb c) out_cols))
                [ "risk_decile"; "priority_band" ] in
  out <- lift (select_columns (out_cols ++ optional) f) ;;
  to_sql "analytics.customer_churn_scores" out.

(** [assign_priority_band(df)]: works on a copy and returns it. *)
Definition assign_priority_band (df : loc) : M loc :=
  df' <- df_copy df ;;
  on df' add_priority_bands ;;
  ret df'.

(** [scored["value_at_risk"] = scored["monetary"] * scored["churn_risk"]] *)
Definition set_value_at_risk : St Frame unit :=
  m <- getitem "monetary" ;;
  r <- getitem "churn_risk" ;;
  v <- lift (series_mul m r) ;;
  setitem "value_at_risk" v.

(** [main()]; what is only printed is left out. *)
Definition main : M unit :=
  df <- load_training_frame ;;
  scored_auc <- train_and_score df ;;
  scored <- df_copy (fst scored_auc) ;;
  on scored (r <- getitem "churn_risk" ;;
             d <- lift (qcut r 10 None) ;;
             setitem "risk_decile" d) ;;
  scored <- assign_priority_band scored ;;
  on scored set_value_at_risk ;;
  write_back scored.

End Churn_run.

End Churn.

(** * The decision tables as the specification words them *)

(** Segment naming: five rules on the rank triple, the first that matches
    wins. *)
Definition naming_table (value_rank freq_rank recency_rank : Q) : string :=
  if Qle_bool value_rank 1 && Qle_bool freq_rank 2 && Qle_bool recency_rank 2
  then "Champions"
  else if Qle_bool value_rank 2 && Qle_bool 4 recency_rank
  then "At-Risk High Value"
  else if Qle_bool freq_rank 2 && Qle_bool 4 value_rank
  then "Loyal Low Spend"
  else if Qle_bool recency_rank 2 && Qle_bool 4 freq_rank
  then "New Customers"
  else "Occasional Shoppers".

(** Priority: (1,1) is HIGH, (1,2) and (2,1) are MEDIUM, all else LOW. *)
Definition priority_rule (risk_band value_band : value) : string :=
  if eq_num risk_band 1 && eq_num value_band 1 then "HIGH"
  else if (eq_num risk_band 1 && eq_num value_band 2)
          || (eq_num risk_band 2 && eq_num value_band 1) then "MEDIUM"
  else "LOW".

(** * Small instances, for running the model *)

(** Numerics that parse no string, take [log1p] to be the identity and
    interpolate the bin edges exactly. *)
Definition toy_numerics : Numerics :=
  {| parse_float := fun _ => None;
     log1p := fun q => Num q;
     quantile64 := quantile;
     quantile64_first := quantile_zero;
     quantile64_last := quantile_last;
     quantile64_constant := quantile_constant |}.

(** The [SELECT] list of the scripts' two queries. *)
Definition select_list (query : string) : list string :=
  if String.eqb query Segmentation.rfm_query then Segmentation.rfm_columns
  else if String.eqb query Churn.training_query then Churn.training_columns
  else [].

Fixpoint same_names (a b : list string) : bool :=
  match a, b with
  | [], [] => true
  | x :: a', y :: b' => String.eqb x y && same_names a' b'
  | _, _ => false
  end.

(** A database that keeps the result of a query under the query's text.
    It answers with the stored table when that table has exactly the
    columns of the [SELECT] list; a query it cannot answer fails, as
    [pd.read_sql] does when a selected column or a table does not exist.
    It accepts every write. *)
Definition toy_database : Database :=
  {| run_query := fun q tables =>
       match tables !! q with
       | Some f =>
           if same_names (columns f) (select_list q) then Ok f
           else Raise (DatabaseError q)
       | None => Raise (DatabaseError q)
       end;
     sink_accepts := fun _ _ _ => true |}.

(** The same database, except that [analytics.segment_profile] cannot be
    replaced. *)
Definition locked_profile_database : Database :=
  {| run_query := @run_query toy_database;
     sink_accepts := fun _ table _ => negb (String.eqb table "analytics.segment_profile") |}.

(** A missing cell, or a string, somewhere in the table. *)
Definition has_missing (X : Frame) : bool := existsb (fun cs => isna_any (snd cs)) X.

Definition has_string (X : Frame) : bool := existsb (fun cs => existsb is_str (snd cs)) X.

(** The columns of [X] that the churn pipeline scales. *)
Definition scaled_part (X : Frame) : Frame :=
  List.filter (fun cs => existsb (String.eqb (fst cs)) Churn.feature_cols_num) X.

(** The number of rows of [y] in the class [c]. *)
Definition class_size (c : value) (y : Series) : nat :=
  length (List.filter (Churn.value_eqb c) y).

(** Estimators that do no arithmetic but refuse what scikit-learn's
    refuse.  The scaler is the identity on a table of numbers with at
    least one row.  k-means wants no missing cell and at least as many
    rows as clusters, and deals the rows round-robin.  The silhouette
    wants between 2 and [n - 1] different labels.  The stratified split
    of [n] rows wants every class to have two members and each part to
    have room for every class; it holds out the rows 0, 5, 10, ..., which
    are [ceil(n / 5)] rows.  The classifier wants no missing number and
    scores row [i] of [n] with [(i+1)/(n+1)]; the AUC wants both classes
    among the held-out labels. *)
Definition toy_sklearn : Sklearn :=
  {| Classifier := unit;
     scaler_fit_transform := fun X =>
       if Nat.eqb (nrows X) 0
       then Raise (ValueError "Found array with 0 sample(s) while a minimum of 1 is required")
       else if has_string X
       then Raise (ValueError "could not convert string to float")
       else Ok X;
     kmeans_fit_predict := fun k _ X =>
       if has_missing X || has_string X
       then Raise (ValueError "Input X contains NaN")
       else if Nat.eqb k 0 || Nat.ltb (nrows X) k
       then Raise (ValueError "n_samples should be >= n_clusters")
       else Ok (map (fun i => i mod k) (seq 0 (nrows X)));
     silhouette_score := fun X labels =>
       let d := length (nodup Nat.eq_dec labels) in
       if negb (Nat.eqb (length labels) (nrows X))
       then Raise (ValueError "Found input variables with inconsistent numbers of samples")
       else if Nat.leb 2 d && Nat.leb (d + 1) (nrows X)
       then Ok 0%Q
       else Raise (ValueError "Number of labels is invalid");
     train_test_split := fun X y _ _ =>
       let n := nrows X in
       let test := List.filter (fun i => Nat.eqb (i mod 5) 0) (seq 0 n) in
       let train := List.filter (fun i => negb (Nat.eqb (i mod 5) 0)) (seq 0 n) in
       let cs := Churn.classes y in
       if negb (Nat.eqb (length y) n)
       then Raise (ValueError "Found input variables with inconsistent numbers of samples")
       else if Nat.eqb (length train) 0
       then Raise (ValueError "the resulting train set will be empty")
       else if existsb (fun c => Nat.ltb (class_size c y) 2) cs
       then Raise (ValueError "The least populated class in y has only 1 member")
       else if Nat.ltb (length train) (length cs) || Nat.ltb (length test) (length cs)
       then Raise (ValueError "should be greater or equal to the number of classes")
       else Ok (train, test);
     pipeline_fit := fun X _ =>
       if has_missing (scaled_part X) || has_string (scaled_part X)
       then Raise (ValueError "Input X contains NaN")
       else Ok tt;
     predict_proba := fun _ X =>
       if has_missing (scaled_part X) || has_string (scaled_part X)
       then Raise (ValueError "Input X contains NaN")
       else
         Ok (map (fun i => Num (Qred (inject_Z (Z.of_nat (i + 1)) / inject_Z (Z.of_nat (nrows X + 1)))))
                 (seq 0 (nrows X)));
     roc_auc_score := fun y_true _ =>
       if Nat.eqb (length (Churn.classes y_true)) 2 then Ok (1 # 2)
       else Raise (ValueError "Only one class present in y_true") |}.

(** Twelve customers as the feature store describes them, five of whom
    have bought once. *)
Definition rfm_table : Frame :=
  [ ("customer_unique_id",
     [Str "a"; Str "b"; Str "c"; Str "d"; Str "e"; Str "f";
      Str "g"; Str "h"; Str "i"; Str "j"; Str "k"; Str "l"]);
    ("recency_days",
     [Num 50; Num 180; Num 200; Num 179; Num 10; Num 400;
      Num 30; Num 90; Num 250; Num 5; Num 120; Num 365]);
    ("frequency",
     [Num 1; Num 2; Num 3; Num 1; Num 5; Num 1; Num 2; Num 4; Num 1; Num 6; Num 2; Num 1]);
    ("monetary",
     [Num 100; Num 20; Num 30; Num 45; Num 500; Num 60;
      Num 80; Num 150; Num 25; Num 700; Num 90; Num 15]);
    ("avg_order_value",
     [Num 100; Num 10; Num 10; Num 45; Num 100; Num 60;
      Num 40; Num 35; Num 25; Num 110; Num 45; Num 15]);
    ("avg_items_per_order",
     [Num 1; Num 1; Num 2; Num 1; Num 3; Num 1; Num 2; Num 2; Num 1; Num 3; Num 1; Num 1]);
    ("avg_category_diversity",
     [Num 1; Num 1; Num 1; Num 1; Num 2; Num 1; Num 1; Num 2; Num 1; Num 3; Num 1; Num 1]);
    ("tenure_days",
     [Num 0; Num 40; Num 90; Num 0; Num 300; Num 0;
      Num 60; Num 200; Num 0; Num 400; Num 50; Num 0]);
    ("avg_days_between_orders",
     [NaN; Num 10; Num 30; NaN; Num 60; NaN; Num 45; Num 50; NaN; Num 70; Num 25; NaN]) ].

(** The same customers as the training query returns them. *)
Definition training_table : Frame :=
  [ ("customer_unique_id",
     [Str "a"; Str "b"; Str "c"; Str "d"; Str "e"; Str "f";
      Str "g"; Str "h"; Str "i"; Str "j"; Str "k"; Str "l"]);
    ("frequency",
     [Num 1; Num 2; Num 3; Num 1; Num 5; Num 1; Num 2; Num 4; Num 1; Num 6; Num 2; Num 1]);
    ("monetary",
     [Num 100; Num 20; Num 30; Num 45; Num 500; Num 60;
      Num 80; Num 150; Num 25; Num 700; Num 90; Num 15]);
    ("avg_order_value",
     [Num 100; Num 10; Num 10; Num 45; Num 100; Num 60;
      Num 40; Num 35; Num 25; Num 110; Num 45; Num 15]);
    ("avg_items_per_order",
     [Num 1; Num 1; Num 2; Num 1; Num 3; Num 1; Num 2; Num 2; Num 1; Num 3; Num 1; Num 1]);
    ("avg_category_diversity",
     [Num 1; Num 1; Num 1; Num 1; Num 2; Num 1; Num 1; Num 2; Num 1; Num 3; Num 1; Num 1]);
    ("tenure_days",
     [Num 0; Num 40; Num 90; Num 0; Num 300; Num 0;
      Num 60; Num 200; Num 0; Num 400; Num 50; Num 0]);
    ("avg_days_between_orders",
     [NaN; Num 10; Num 30; NaN; Num 60; NaN; Num 45; Num 50; NaN; Num 70; Num 25; NaN]);
    ("recency_days",
     [Num 50; Num 180; Num 200; Num 179; Num 10; Num 400;
      Num 30; Num 90; Num 250; Num 5; Num 120; Num 365]);
    ("segment_name",
     [Str "Champions"; NaN; Str "New Customers"; NaN; Str "Champions"; NaN;
      Str "Occasional Shoppers"; Str "Champions"; NaN; Str "Champions";
      Str "Occasional Shoppers"; NaN]);
    ("spend_30d",
     [Num 10; NaN; Num 0; Num 45; Num 100; NaN; Num 20; Num 50; NaN; Num 200; Num 30; NaN]);
    ("spend_90d",
     [Num 100; NaN; Num 0; Num 45; Num 200; NaN; Num 40; Num 100; NaN; Num 400; Num 60; NaN]);
    ("spend_180d",
     [Num 100; Num 20; Num 0; Num 45; Num 300; NaN;
      Num 80; Num 150; NaN; Num 600; Num 90; NaN]);
    ("orders_30d",
     [Num 1; NaN; Num 0; Num 1; Num 1; NaN; Num 1; Num 1; NaN; Num 2; Num 1; NaN]);
    ("orders_90d",
     [Num 1; NaN; Num 0; Num 1; Num 2; NaN; Num 1; Num 2; NaN; Num 4; Num 1; NaN]);
    ("orders_180d",
     [Num 1; Num 2; Num 0; Num 1; Num 3; NaN; Num 2; Num 3; NaN; Num 5; Num 2; NaN]);
    ("recent_order_ratio",
     [Num 1; NaN; Num 0; Num 1; Num 1; NaN; Num 1; Num 1; NaN; Num 1; Num 1; NaN]);
    ("recent_spend_ratio",
     [Num 1; NaN; Num 0; Num 1; Num 1; NaN; Num 1; Num 1; NaN; Num 1; Num 1; NaN]) ].

Definition start (tables : gmap string Frame) : world := World ∅ tables [].

Definition feature_store : gmap string Frame :=
  <[Segmentation.rfm_query := rfm_table]>
    (<[Churn.training_query := training_table]> ∅).

(** Three customers, the first of whom bought once: no gap between
    orders is known for that customer. *)
Definition one_time_buyer_table : Frame :=
  [ ("customer_unique_id", [Str "a"; Str "b"; Str "c"]);
    ("recency_days", [Num 50; Num 180; Num 200]);
    ("frequency", [Num 1; Num 2; Num 3]);
    ("monetary", [Num 100; Num 20; Num 30]);
    ("avg_order_value", [Num 100; Num 10; Num 10]);
    ("avg_items_per_order", [Num 1; Num 1; Num 2]);
    ("avg_category_diversity", [Num 1; Num 1; Num 1]);
    ("tenure_days", [Num 0; Num 10; Num 60]);
    ("avg_days_between_orders", [NaN; Num 10; Num 30]);
    ("segment_name", [Str "New Customers"; NaN; Str "Champions"]);
    ("spend_30d", [Num 100; NaN; Num 0]);
    ("spend_90d", [Num 100; NaN; Num 0]);
    ("spend_180d", [Num 100; Num 20; Num 0]);
    ("orders_30d", [Num 1; NaN; Num 0]);
    ("orders_90d", [Num 1; NaN; Num 0]);
    ("orders_180d", [Num 1; Num 2; Num 0]) ].

Definition at_risk_row : Row :=
  [ ("segment", Num 0); ("customers", Num 12); ("value_rank", Num 1);
    ("freq_rank", Num 5); ("recency_rank", Num 5) ].

(** A profile of two segments, the second with the rank triple
    (1, 5, 5). *)
Definition at_risk_profile : Frame :=
  [ ("segment", [Num 0; Num 1]); ("customers", [Num 7; Num 12]);
    ("recency_rank", [Num 1; Num 5]); ("value_rank", [Num 2; Num 1]);
    ("freq_rank", [Num 1; Num 5]) ].

(** A scored population of four, held by one object of the store. *)
Definition scored_table : Frame :=
  [ ("customer_unique_id", [Str "a"; Str "b"; Str "c"; Str "d"]);
    ("monetary", [Num 100; Num 20; Num 30; Num 5]);
    ("churn_risk", [Num 0.3; Num 0.9; Num 0.5; Num 0.1]) ].

Definition scored_world : world := World {[ 1%positive := scored_table ]} ∅ [].

(** The same population, already carrying a column named [risk_band]. *)
Definition rebanded_table : Frame :=
  (scored_table ++ [ ("risk_band", [Num 7; Num 7; Num 7; Num 7]) ])%list.

Definition rebanded_world : world := World {[ 1%positive := rebanded_table ]} ∅ [].

Definition band_columns : list string := [ "risk_band"; "value_band"; "priority_band" ].

(** The columns of the 180-day window. *)
Definition window_180d : list string := [ "spend_180d"; "orders_180d" ].

(** The cleaned training table of the three customers. *)
Definition cleaned_training_table : Frame :=
  snd (@Churn.prepare_training_frame toy_numerics one_time_buyer_table).

(** The cleaned training table of the twelve customers, and the same
    table with other figures in the 180-day window. *)
Definition prepared_table : Frame :=
  snd (@Churn.prepare_training_frame toy_numerics training_table).

Definition prepared_table_other_window : Frame :=
  assign_col "spend_180d"
    [Num 7; Num 0; Num 999; Num 1; Num 2; Num 3; Num 4; Num 5; Num 6; Num 7; Num 8; Num 9]
    (assign_col "orders_180d"
       [Num 3; Num 0; Num 12; Num 1; Num 1; Num 1; Num 1; Num 1; Num 1; Num 1; Num 1; Num 1]
       prepared_table).







(** Nine customers, five of whom have spent the same amount. *)
Definition tied_spend_table : Frame :=
  [ ("customer_unique_id",
     [Str "a"; Str "b"; Str "c"; Str "d"; Str "e"; Str "f"; Str "g"; Str "h"; Str "i"]);
    ("monetary", [Num 0; Num 1; Num 1; Num 1; Num 1; Num 1; Num 2; Num 3; Num 4]);
    ("churn_risk",
     [Num 0.1; Num 0.2; Num 0.3; Num 0.4; Num 0.5; Num 0.6; Num 0.7; Num 0.8; Num 0.9]) ].

Definition tied_spend_world : world := World {[ 1%positive := tied_spend_table ]} ∅ [].

(** * Vocabulary for the columns of a frame *)

(** [touches cs m]: whatever [m] returns, it leaves every column outside
    [cs] as it found it. *)
Definition touches {A} (cs : list string) (m : St Frame A) : Prop :=
  forall df r df', m df = (r, df') ->
  forall c, ~ In c cs -> lookup_col c df' = lookup_col c df.

Definition no_string (v : value) : Prop :=
  match v with
  | Str _ => False
  | _ => True
  end.

(** Every listed column is present and holds no string. *)
Definition numeric_columns (cols : list string) (df : Frame) : Prop :=
  forall c, In c cols -> exists s, lookup_col c df = Some s /\ Forall no_string s.

(** * Vocabulary for what a run does to the database *)

Definition is_write (ev : event) : bool :=
  match ev with
  | Written _ => true
  | _ => false
  end.

Definition no_write (t : list event) : bool :=
  forallb (fun ev => negb (is_write ev)) t.

(** [quiet m]: whatever [m] returns, it leaves the database as it was and
    adds no write to the trace. *)
Definition quiet {A} (m : M A) : Prop :=
  forall w,
    db (snd (m w)) = db w /\
    exists t, trace (snd (m w)) = (trace w ++ t)%list /\ no_write t = true.

(** The database after the tables of [done] have been replaced, in order. *)
Definition replace_tables (done : list (string * Frame)) (d : gmap string Frame) :
    gmap string Frame :=
  foldl (fun d tf => <[fst tf := snd tf]> d) d done.

(** [writes_last tables m]: a run of [m] first adds events that are not
    writes, then writes a leading part [done] of [tables], one event per
    table and in that order, and changes the database by exactly those
    replacements; it returns normally exactly when no table of [tables] is
    left unwritten. *)
Definition writes_last (tables : list string) (m : M unit) : Prop :=
  forall w,
    exists (t : list event) (done : list (string * Frame)) (rest : list string),
      no_write t = true /\
      trace (snd (m w)) = (trace w ++ t ++ map (fun tf => Written (fst tf)) done)%list /\
      db (snd (m w)) = replace_tables done (db w) /\
      tables = (map fst done ++ rest)%list /\
      (fst (m w) = Ok tt <-> rest = []).

(** [emits t m]: a run of [m] that returns normally has added exactly the
    events [t] to the trace. *)
Definition emits {A} (t : list event) (m : M A) : Prop :=
  forall w,
    match fst (m w) with
    | Ok _ => trace (snd (m w)) = (trace w ++ t)%list
    | Raise _ => True
    end.


(** Every column of the frame has as many cells as the frame has rows. *)
Definition rectangular (f : Frame) : Prop :=
  forall c s, lookup_col c f = Some s -> length s = nrows f.

(** No two rows have the same join key. *)
Definition distinct_keys (keys : Series) : Prop :=
  forall j j' a b, keys !! j = Some a -> keys !! j' = Some b -> key_eqb a b = true -> j = j'.

(** * Vocabulary for the tertile groups *)

(** Among [n] sorted values, the position of the order statistic at or
    just below the quantile [k/3]. *)
Definition below (n k : nat) : nat := k * (n - 1) / 3.

(** The number of rows that carry band [b]. *)
Definition band_size (b : Q) (bands : Series) : nat :=
  length (List.filter (fun v => eq_num v b) bands).

(** The band of the [i]-th smallest of [n] pairwise different values:
    3 for the lowest third, 1 for the highest. *)
Definition tertile_band (n i : nat) : value :=
  if Nat.leb i (below n 1) then Num 3
  else if Nat.leb i (below n 2) then Num 2
  else Num 1.

(** What [pd.qcut(..., q=3, labels=[3, 2, 1])] does with one cell, given
    the bin edges. *)
Definition tertile_cell (bins : list Q) (v : value) : value :=
  match v with
  | Num x =>
      match bin_of bins x with
      | O => NaN
      | S i => nth i Churn.tertile_labels NaN
      end
  | _ => NaN
  end.

(** The binary64 edges cut the sorted numbers [v] as the exact ones do:
    they are pairwise different, and no number of [v] lies on one side of
    an exact edge and on the other side of its binary64 value. *)
Definition cuts_exactly `{Numerics} (v : list Q) (m : nat) : Prop :=
  all_distinct (bin_edges64 v m) = true /\
  forall k x, k <= m -> In x v ->
    Qlt_bool (quantile64 v k m) x = Qlt_bool (quantile v k m) x.

(** [banded_by_rank xs bands]: the row that holds the [r]-th smallest
    of the numbers [xs] (counting from 0) carries the band [tertile_band]
    gives to [r]; hence every band is 1, 2 or 3 and a larger number never
    has a larger band number. *)
Definition banded_by_rank (xs : list Q) (bands : Series) : Prop :=
  (forall i x, xs !! i = Some x ->
     exists r, r < length xs /\ nth r (sort_values xs) 0%Q = x /\
               bands !! i = Some (tertile_band (length xs) r)) /\
  (forall i j x y, xs !! i = Some x -> xs !! j = Some y -> (x <= y)%Q ->
     exists b c : Z,
       bands !! i = Some (Num (inject_Z b)) /\ bands !! j = Some (Num (inject_Z c)) /\
       (1 <= c <= b)%Z /\ (b <= 3)%Z).

(** [balanced_tertiles n bands]: the three bands share out [n] rows, and
    no two group sizes differ by more than one, nor by more than the
    remainder of [n] by 3. *)
Definition balanced_tertiles (n : nat) (bands : Series) : Prop :=
  band_size 1 bands + band_size 2 bands + band_size 3 bands = n /\
  forall a b : Q, In a [1%Q; 2%Q; 3%Q] -> In b [1%Q; 2%Q; 3%Q] ->
    band_size a bands <= band_size b bands + n mod 3 /\
    band_size a bands <= band_size b bands + 1.

(** Four customers with one order count missing. *)
Definition gappy_table : Frame :=
  [ ("customer_unique_id", [Str "a"; Str "b"; Str "c"; Str "d"]);
    ("recency_days", [Num 50; Num 180; Num 200; Num 12]);
    ("frequency", [Num 10; Num 20; Num 30; NaN]);
    ("monetary", [Num 100; Num 20; Num 30; Num 7]);
    ("avg_order_value", [Num 100; Num 10; Num 10; Num 7]);
    ("avg_items_per_order", [NaN; NaN; NaN; NaN]);
    ("avg_category_diversity", [Num 1; Num 1; Num 1; Num 1]);
    ("tenure_days", [Num 0; Num 10; Num 60; Num 0]);
    ("avg_days_between_orders", [NaN; Num 10; Num 30; NaN]) ].

(** A column as [clean_features] leaves it. *)
Definition settled (t : Series) : Prop :=
  Forall no_string t /\ (isna_any t = false \/ median t = Ok NaN).


(** The three customers scored and priced, with their risk deciles, held
    by one object of the store. *)
Definition priced_table : Frame :=
  assign_col "value_at_risk" [Num 10; Num 10; Num 3]
    (assign_col "risk_decile" [Num 0; Num 9; Num 4]
       (assign_col "churn_risk" [Num 0.1; Num 0.5; Num 0.1] cleaned_training_table)).

Definition priced_world : world := World {[ 1%positive := priced_table ]} ∅ [].

(** The cleaned training table of the twelve customers, held by one
    object of the store. *)
Definition cleaned_world : world := World {[ 1%positive := prepared_table ]} ∅ [].

(** The dense rank of [x] among the distinct values [ds]: how many of
    them are at most [x] (ascending), or at least [x] (descending). *)
Definition dense_rank (ascending : bool) (ds : list Q) (x : Q) : nat :=
  length (List.filter (fun d => if ascending then Qle_bool d x else Qle_bool x d) ds).

(** The clustering columns of the twelve customers after cleaning. *)
Definition clustering_matrix : Frame :=
  match select_columns Segmentation.clustering_features
          (snd (@Segmentation.clean_features toy_numerics rfm_table)) with
  | Ok X => X
  | Raise _ => []
  end.

(** The number of rows labelled [k]. *)
Definition group_size (k : Q) (labels : Series) : nat :=
  length (List.filter (fun v => eq_num v k) labels).

(** The twelve customers dealt into three segments, and their profile. *)
Definition customer_ids : Series :=
  [Str "a"; Str "b"; Str "c"; Str "d"; Str "e"; Str "f";
   Str "g"; Str "h"; Str "i"; Str "j"; Str "k"; Str "l"].

Definition segment_labels : Series :=
  [Num 0; Num 1; Num 0; Num 1; Num 2; Num 0; Num 1; Num 2; Num 0; Num 1; Num 2; Num 0].

Definition segmented_table : Frame := assign_col "segment" segment_labels rfm_table.

Definition segment_profile_table : Frame :=
  match Segmentation.profile_segments "segment" segmented_table with
  | Ok profile => profile
  | Raise _ => []
  end.

(** The names of the three segments, and the customers joined with them. *)
Definition segment_names_table : Frame :=
  [ ("segment", [Num 0; Num 1; Num 2]);
    ("segment_name", [Str "Champions"; Str "New Customers"; Str "Occasional Shoppers"]) ].

Definition named_customers_table : Frame :=
  match merge_left segmented_table segment_names_table "segment" with
  | Ok joined => joined
  | Raise _ => []
  end.

(** * load_olist_to_postgres.py *)

Module Loader.

(** The file system as the script reads it: what [pd.read_csv] returns
    for a path, or the exception it raises. *)
Class Files : Type := {
  read_csv : string -> result Frame
}.

(** The tables and their files, in the order the dictionary lists them. *)
Definition datasets : list (string * string) :=
  [ ("olist_customers", "olist_customers_dataset.csv");
    ("olist_orders", "olist_orders_dataset.csv");
    ("olist_order_items", "olist_order_items_dataset.csv");
    ("olist_order_payments", "olist_order_payments_dataset.csv");
    ("olist_products", "olist_products_dataset.csv");
    ("olist_order_reviews", "olist_order_reviews_dataset.csv") ].

Definition csv_path (file : string) : string := "data/raw/" +:+ file.

(** The table [name] of the schema [raw]. *)
Definition raw_table (table : string) : string := "raw." +:+ table.

Section Loader_run.
Context `{Files} `{Database}.

(** The body of the loop: read the file, replace the table.  The frame
    is used once, so it is passed on as a value. *)
Definition load_one (table_file : string * string) : M unit :=
  df <- lift (read_csv (csv_path (snd table_file))) ;;
  to_sql (raw_table (fst table_file)) df.

(** The script; what is only printed is left out. *)
Definition load_all (ds : list (string * string)) : M unit := for_each ds load_one.

Definition main : M unit := load_all datasets.

End Loader_run.

End Loader.

(** Files that all read as a one-cell table holding their own path. *)
Definition toy_files : Loader.Files :=
  {| Loader.read_csv := fun path => Ok [("source", [Str path])] |}.

(** * Properties *)

(** ** Columns of a frame *)

Lemma lookup_assign_same (c : string) (s : Series) (df : Frame) :
  lookup_col c (assign_col c s df) = Some s.
Proof.
  induction df as [|[c' s'] df IH]; simpl.
  - by rewrite String.eqb_refl.
  - destruct (String.eqb c' c) eqn:E; simpl; rewrite E; [done | apply IH].
Qed.

Lemma lookup_assign_other (c c' : string) (s : Series) (df : Frame) :
  c <> c' -> lookup_col c' (assign_col c s df) = lookup_col c' df.
Proof.
  intros Hne. induction df as [|[d t] df IH]; simpl.
  - destruct (String.eqb c c') eqn:E; [|done].
    apply String.eqb_eq in E. contradiction.
  - destruct (String.eqb d c) eqn:E; simpl.
    + apply String.eqb_eq in E. subst d.
      destruct (String.eqb c c') eqn:E'; [|done].
      apply String.eqb_eq in E'. contradiction.
    + destruct (String.eqb d c'); [done | apply IH].
Qed.

Lemma columns_assign (c : string) (s : Series) (df : Frame) :
  columns (assign_col c s df) =
    if existsb (String.eqb c) (columns df) then columns df
    else (columns df ++ [c])%list.
Proof.
  induction df as [|[d t] df IH]; simpl; [done|].
  rewrite (String.eqb_sym c d).
  destruct (String.eqb d c) eqn:E; simpl; [done|].
  rewrite IH. by destruct (existsb (String.eqb c) (columns df)).
Qed.

(** ** Mapping a fallible function over a list *)

Lemma rmap_ok {A B} (f : A -> result B) (xs : list A) (ys : list B) :
  rmap f xs = Ok ys ->
  length ys = length xs /\
  forall i x, xs !! i = Some x -> exists y, f x = Ok y /\ ys !! i = Some y.
Proof.
  revert ys. induction xs as [|x xs IH]; intros ys Hys; simpl in Hys.
  - inversion Hys. split; [done|]. intros [|i] x Hx; discriminate.
  - destruct (f x) as [y|e] eqn:Ex; simpl in Hys; [|discriminate].
    destruct (rmap f xs) as [ys'|e]; simpl in Hys; [|discriminate].
    inversion Hys; subst ys. destruct (IH ys' eq_refl) as [Hlen Hcells].
    split; [simpl; by rewrite Hlen|].
    intros [|i] x' Hx'; simpl in Hx'.
    + inversion Hx'; subst x'. by exists y.
    + by apply Hcells.
Qed.

Lemma rmap_total {A B} (f : A -> result B) (xs : list A) :
  (forall x, In x xs -> exists y, f x = Ok y) -> exists ys, rmap f xs = Ok ys.
Proof.
  induction xs as [|x xs IH]; intros Hf; simpl; [by eexists|].
  destruct (Hf x) as [y Hy]; [by left|]. rewrite Hy. simpl.
  destruct IH as [ys Hys]; [intros z Hz; apply Hf; by right|].
  rewrite Hys. simpl. by eexists.
Qed.

(** ** Running a frame computation step by step *)

Lemma bind_ok {S A B} (m : St S A) (k : A -> St S B) (s s' : S) (b : B) :
  bind m k s = (Ok b, s') ->
  exists a s1, m s = (Ok a, s1) /\ k a s1 = (Ok b, s').
Proof.
  unfold bind. destruct (m s) as [[a|e] s1]; intros Hk; [eauto | discriminate].
Qed.

Lemma bind_run' {S A B} (m : St S A) (k : A -> St S B) (s s1 : S) (a : A) :
  m s = (Ok a, s1) -> bind m k s = k a s1.
Proof. unfold bind. by intros ->. Qed.


Lemma touches_getitem (c : string) (cs : list string) : touches cs (getitem c).
Proof.
  intros df r df' Hrun c' _. unfold getitem in Hrun.
  destruct (lookup_col c df); by inversion Hrun.
Qed.

Lemma touches_lift {A} (r : result A) (cs : list string) : touches cs (lift r).
Proof. intros df r' df' Hrun c' _. by inversion Hrun. Qed.

Lemma touches_ret {A} (a : A) (cs : list string) : touches cs (ret a).
Proof. intros df r' df' Hrun c' _. by inversion Hrun. Qed.

Lemma touches_setitem (c : string) (s : Series) (cs : list string) :
  In c cs -> touches cs (setitem c s).
Proof.
  intros Hin df r df' Hrun c' Hc'. inversion Hrun; subst.
  apply lookup_assign_other. intros ->. contradiction.
Qed.

Lemma touches_bind {A B} (cs : list string) (m : St Frame A) (k : A -> St Frame B) :
  touches cs m -> (forall a, touches cs (k a)) -> touches cs (bind m k).
Proof.
  intros Hm Hk df r df' Hrun c Hc. unfold bind in Hrun.
  destruct (m df) as [[a|e] df1] eqn:Em.
  - rewrite (Hk a _ _ _ Hrun c Hc). eapply Hm; eauto.
  - inversion Hrun; subst. eapply Hm; eauto.
Qed.

Lemma touches_for_each {A} (cs : list string) (xs : list A) (body : A -> St Frame unit) :
  (forall x, In x xs -> touches cs (body x)) -> touches cs (for_each xs body).
Proof.
  induction xs as [|x xs IH]; intros Hbody; simpl.
  - apply touches_ret.
  - apply touches_bind; [apply Hbody; by left|].
    intros _. apply IH. intros y Hy. apply Hbody. by right.
Qed.

Lemma touches_fill_missing (c : string) (fill : Series -> result value) (cs : list string) :
  In c cs -> touches cs (fill_missing c fill).
Proof.
  intros Hin. unfold fill_missing.
  apply touches_bind; [apply touches_getitem|]. intros s.
  destruct (isna_any s); [|apply touches_ret].
  apply touches_bind; [apply touches_getitem|]. intros s'.
  apply touches_bind; [apply touches_lift|]. intros m.
  by apply touches_setitem.
Qed.

(** A loop that rewrites each listed column with [g]. *)
Lemma for_each_rewrite_kept (g : Series -> Series) (cols : list string)
    (df df' : Frame) (r : result unit) (c : string) :
  for_each cols (fun col => s <- getitem col ;; setitem col (g s)) df = (r, df') ->
  ~ In c cols -> lookup_col c df' = lookup_col c df.
Proof.
  intros Hrun Hc.
  eapply (touches_for_each cols cols); [|exact Hrun|exact Hc].
  intros x Hx. apply touches_bind; [apply touches_getitem|].
  intros s. by apply touches_setitem.
Qed.

Lemma for_each_rewrite_done (g : Series -> Series) (cols : list string) :
  List.NoDup cols ->
  forall (df df' : Frame) (c : string) (s : Series),
  for_each cols (fun col => s <- getitem col ;; setitem col (g s)) df = (Ok tt, df') ->
  In c cols -> lookup_col c df = Some s -> lookup_col c df' = Some (g s).
Proof.
  induction 1 as [|x xs Hx Hnd IH]; intros df df' c s Hrun Hc Hs; [destruct Hc|].
  simpl in Hrun. apply bind_ok in Hrun as ([] & df1 & Hbody & Hrest).
  apply bind_ok in Hbody as (s0 & df0 & Hget & Hset).
  unfold getitem in Hget. destruct (lookup_col x df) as [sx|] eqn:Ex; [|discriminate].
  inversion Hget; subst s0 df0. inversion Hset; subst df1.
  destruct (String.eqb_spec x c) as [->|Hne].
  - rewrite (for_each_rewrite_kept _ _ _ _ _ _ Hrest Hx).
    rewrite lookup_assign_same. congruence.
  - destruct Hc as [->|Hc]; [done|].
    apply (IH _ _ _ _ Hrest Hc). by rewrite lookup_assign_other.
Qed.

(** A column without missing cells goes through the imputation loop
    unchanged, whatever the loop does to the other columns. *)
Lemma fill_loop_keeps_full (fill : Series -> result value) (cols : list string) :
  forall (df df' : Frame) (r : result unit) (c : string) (t : Series),
  for_each cols (fun col => fill_missing col fill) df = (r, df') ->
  lookup_col c df = Some t -> isna_any t = false ->
  lookup_col c df' = Some t.
Proof.
  induction cols as [|x xs IH]; intros df df' r c t Hrun Ht Hfull; simpl in Hrun.
  - inversion Hrun; by subst.
  - unfold bind in Hrun at 1.
    destruct (fill_missing x fill df) as [[[]|e] df1] eqn:Ebody.
    + apply (IH _ _ _ _ _ Hrun); [|done].
      destruct (String.eqb_spec x c) as [->|Hne].
      * unfold fill_missing, bind, getitem in Ebody. rewrite Ht, Hfull in Ebody.
        inversion Ebody; by subst.
      * rewrite <- Ht. eapply (touches_fill_missing x fill [x]); [by left|exact Ebody|].
        intros [->|[]]. done.
    + inversion Hrun; subst.
      destruct (String.eqb_spec x c) as [->|Hne].
      * unfold fill_missing, bind, getitem in Ebody. rewrite Ht, Hfull in Ebody.
        inversion Ebody.
      * rewrite <- Ht. eapply (touches_fill_missing x fill [x]); [by left|exact Ebody|].
        intros [->|[]]. done.
Qed.

Lemma isna_any_fillna (s : Series) (fill : value) :
  isna fill = false -> isna_any (fillna s fill) = false.
Proof.
  intros Hfill. induction s as [|v s IH]; [done|]. simpl.
  destruct (isna v) eqn:Ev; [rewrite Hfill | rewrite Ev]; exact IH.
Qed.

Lemma lookup_map {A B} (f : A -> B) (l : list A) (i : nat) :
  map f l !! i = f <$> (l !! i).
Proof.
  revert i. induction l as [|x l IH]; intros [|i]; simpl; done.
Qed.

Lemma fillna_lookup (s : Series) (fill : value) (i : nat) (v : value) :
  s !! i = Some v -> fillna s fill !! i = Some (if isna v then fill else v).
Proof. intros Hv. unfold fillna. by rewrite lookup_map, Hv. Qed.

Section Segmentation_facts.
Context `{Numerics}.

(** [clean_features] leaves in [avg_days_between_orders] the coerced
    input column with every missing cell replaced by 9999. *)
Lemma clean_features_gap_column (df df' : Frame) (r : list string) (s : Series) :
  Segmentation.clean_features df = (Ok r, df') ->
  lookup_col "avg_days_between_orders" df = Some s ->
  lookup_col "avg_days_between_orders" df' = Some (fillna (to_numeric s) (Num 9999)).
Proof.
  intros Hrun Hs. unfold Segmentation.clean_features in Hrun.
  apply bind_ok in Hrun as ([] & df1 & Hcoerce & Hrun).
  apply bind_ok in Hrun as (s1 & df1' & Hget & Hrun).
  apply bind_ok in Hrun as ([] & df2 & Hset & Hrun).
  apply bind_ok in Hrun as ([] & df3 & Hfill & Hrun).
  apply bind_ok in Hrun as (m & df4 & Hm & Hrun).
  apply bind_ok in Hrun as (ml & df5 & Hml & Hrun).
  apply bind_ok in Hrun as ([] & df6 & Hsetm & Hrun).
  apply bind_ok in Hrun as (a & df7 & Ha & Hrun).
  apply bind_ok in Hrun as (al & df8 & Hal & Hrun).
  apply bind_ok in Hrun as ([] & df9 & Hseta & Hrun).
  inversion Hrun; subst r df'; clear Hrun.
  assert (Hnd : List.NoDup Segmentation.FEATURES).
  { unfold Segmentation.FEATURES.
    repeat (constructor; [simpl; intuition discriminate|]). constructor. }
  assert (H1 : lookup_col "avg_days_between_orders" df1 = Some (to_numeric s)).
  { eapply (for_each_rewrite_done to_numeric); eauto.
    unfold Segmentation.FEATURES. simpl. tauto. }
  unfold getitem in Hget. rewrite H1 in Hget. inversion Hget; subst s1 df1'.
  inversion Hset; subst df2.
  assert (H3 : lookup_col "avg_days_between_orders" df3
               = Some (fillna (to_numeric s) (Num 9999))).
  { eapply fill_loop_keeps_full; [exact Hfill| |by apply isna_any_fillna].
    apply lookup_assign_same. }
  rewrite (touches_setitem "avg_order_value_log" al ["avg_order_value_log"]
             ltac:(by left) _ _ _ Hseta); [|intros [E|[]]; discriminate].
  rewrite (touches_lift _ [] _ _ _ Hal); [|tauto].
  rewrite (touches_getitem _ [] _ _ _ Ha); [|tauto].
  rewrite (touches_setitem "monetary_log" ml ["monetary_log"]
             ltac:(by left) _ _ _ Hsetm); [|intros [E|[]]; discriminate].
  rewrite (touches_lift _ [] _ _ _ Hml); [|tauto].
  rewrite (touches_getitem _ [] _ _ _ Hm); [|tauto].
  exact H3.
Qed.

End Segmentation_facts.

Lemma fillna_full (s : Series) (fill : value) :
  isna_any s = false -> fillna s fill = s.
Proof.
  induction s as [|v s IH]; [done|]. simpl. intros Hfull.
  apply orb_false_iff in Hfull as [Hv Hs]. rewrite Hv. f_equal. by apply IH.
Qed.

(** The imputation loop on a column that has missing cells. *)
Lemma fill_loop_fills (fill : Series -> result value) (cols : list string) :
  List.NoDup cols ->
  forall (df df' : Frame) (c : string) (t : Series) (m : value),
  for_each cols (fun col => fill_missing col fill) df = (Ok tt, df') ->
  In c cols -> lookup_col c df = Some t ->
  isna_any t = true -> fill t = Ok m -> isna m = false ->
  lookup_col c df' = Some (fillna t m).
Proof.
  induction 1 as [|x xs Hx Hnd IH]; intros df df' c t m Hrun Hc Ht Hmiss Hfill Hm;
    [destruct Hc|].
  simpl in Hrun. apply bind_ok in Hrun as ([] & df1 & Hbody & Hrest).
  destruct (String.eqb_spec x c) as [->|Hne].
  - eapply fill_loop_keeps_full; [exact Hrest| |by apply isna_any_fillna].
    unfold fill_missing, bind, getitem, lift in Hbody.
    rewrite Ht, Hmiss, Ht, Hfill in Hbody. inversion Hbody; subst df1.
    apply lookup_assign_same.
  - destruct Hc as [->|Hc]; [done|].
    apply (IH _ _ _ _ _ Hrest Hc); try done.
    rewrite <- Ht. eapply (touches_fill_missing x fill [x]); [by left|exact Hbody|].
    intros [->|[]]. done.
Qed.

Section Churn_facts.
Context `{Numerics}.

Lemma churn_cols_nodup : List.NoDup (Churn.lifetime_cols ++ Churn.time_cols).
Proof.
  unfold Churn.lifetime_cols, Churn.time_cols. simpl.
  repeat (constructor; [simpl; intuition discriminate|]). constructor.
Qed.

Lemma lifetime_cols_nodup : List.NoDup Churn.lifetime_cols.
Proof.
  unfold Churn.lifetime_cols.
  repeat (constructor; [simpl; intuition discriminate|]). constructor.
Qed.

(** What the cleaning block of [load_training_frame] leaves in
    [avg_days_between_orders] when the column has both present and
    missing cells: the missing ones hold the median. *)
Lemma prepare_training_frame_gap_column (df df' : Frame) (s : Series) (m : Q) :
  Churn.prepare_training_frame df = (Ok tt, df') ->
  lookup_col "avg_days_between_orders" df = Some s ->
  isna_any (to_numeric s) = true ->
  median (to_numeric s) = Ok (Num m) ->
  lookup_col "avg_days_between_orders" df' = Some (fillna (to_numeric s) (Num m)).
Proof.
  intros Hrun Hs Hmiss Hmed. unfold Churn.prepare_training_frame in Hrun.
  apply bind_ok in Hrun as ([] & df1 & Hcoerce & Hrun).
  apply bind_ok in Hrun as ([] & df2 & Hlife & Hrun).
  apply bind_ok in Hrun as ([] & df3 & Htime & Hrun).
  apply bind_ok in Hrun as (s3 & df3' & Hget & Hrun).
  apply bind_ok in Hrun as ([] & df4 & Hset & Hrun).
  apply bind_ok in Hrun as (r & df4' & Hr & Hrun).
  apply bind_ok in Hrun as (y & df4'' & Hy & Hrun).
  apply bind_ok in Hrun as ([] & df5 & Hsety & Hrun).
  apply bind_ok in Hrun as (sn & df5' & Hsn & Hrun).
  assert (H1 : lookup_col "avg_days_between_orders" df1 = Some (to_numeric s)).
  { eapply (for_each_rewrite_done to_numeric); eauto using churn_cols_nodup.
    simpl. tauto. }
  assert (H2 : lookup_col "avg_days_between_orders" df2
               = Some (fillna (to_numeric s) (Num m))).
  { eapply fill_loop_fills; eauto using lifetime_cols_nodup. simpl. tauto. }
  assert (H3 : lookup_col "avg_days_between_orders" df3
               = Some (fillna (to_numeric s) (Num m))).
  { eapply fill_loop_keeps_full; [exact Htime|exact H2|by apply isna_any_fillna]. }
  unfold getitem in Hget. rewrite H3 in Hget. inversion Hget; subst s3 df3'.
  inversion Hset; subst df4.
  rewrite (touches_setitem "segment_name" _ ["segment_name"]
             ltac:(by left) _ _ _ Hrun); [|intros [E|[]]; discriminate].
  rewrite (touches_getitem _ [] _ _ _ Hsn); [|tauto].
  rewrite (touches_setitem "churned" _ ["churned"]
             ltac:(by left) _ _ _ Hsety); [|intros [E|[]]; discriminate].
  rewrite (touches_lift _ [] _ _ _ Hy); [|tauto].
  rewrite (touches_getitem _ [] _ _ _ Hr); [|tauto].
  rewrite lookup_assign_same. f_equal.
  apply fillna_full. by apply isna_any_fillna.
Qed.

(** The label column is computed from the input's [recency_days]. *)
Lemma prepare_training_frame_label (df df' : Frame) (r : Series) :
  Churn.prepare_training_frame df = (Ok tt, df') ->
  lookup_col "recency_days" df = Some r ->
  exists y, Churn.ge_threshold Churn.CHURN_THRESHOLD_DAYS r = Ok y /\
            lookup_col "churned" df' = Some y.
Proof.
  intros Hrun Hrec. unfold Churn.prepare_training_frame in Hrun.
  apply bind_ok in Hrun as ([] & df1 & Hcoerce & Hrun).
  apply bind_ok in Hrun as ([] & df2 & Hlife & Hrun).
  apply bind_ok in Hrun as ([] & df3 & Htime & Hrun).
  apply bind_ok in Hrun as (s3 & df3' & Hget & Hrun).
  apply bind_ok in Hrun as ([] & df4 & Hset & Hrun).
  apply bind_ok in Hrun as (r' & df4' & Hr & Hrun).
  apply bind_ok in Hrun as (y & df4'' & Hy & Hrun).
  apply bind_ok in Hrun as ([] & df5 & Hsety & Hrun).
  apply bind_ok in Hrun as (sn & df5' & Hsn & Hrun).
  assert (H4 : lookup_col "recency_days" df4 = Some r).
  { rewrite (touches_setitem "avg_days_between_orders" _ ["avg_days_between_orders"]
               ltac:(by left) _ _ _ Hset); [|intros [E|[]]; discriminate].
    rewrite (touches_getitem _ [] _ _ _ Hget); [|tauto].
    rewrite (touches_for_each Churn.time_cols Churn.time_cols _
               (fun x Hx => touches_fill_missing x _ _ Hx) _ _ _ Htime);
      [|simpl; intuition discriminate].
    rewrite (touches_for_each Churn.lifetime_cols Churn.lifetime_cols _
               (fun x Hx => touches_fill_missing x _ _ Hx) _ _ _ Hlife);
      [|simpl; intuition discriminate].
    rewrite (for_each_rewrite_kept _ _ _ _ _ _ Hcoerce);
      [done|simpl; intuition discriminate]. }
  unfold getitem in Hr. rewrite H4 in Hr. inversion Hr; subst r' df4'.
  inversion Hy; subst. exists y. split; [by destruct (Churn.ge_threshold _ r)|].
  rewrite (touches_setitem "segment_name" _ ["segment_name"]
             ltac:(by left) _ _ _ Hrun); [|intros [E|[]]; discriminate].
  rewrite (touches_getitem _ [] _ _ _ Hsn); [|tauto].
  inversion Hsety. apply lookup_assign_same.
Qed.

End Churn_facts.

(** ** Running a program in the store step by step *)

Lemma lift_bind {S A B} (r : result A) (k : A -> St S B) (s : S) :
  bind (lift r) k s = match r with
                      | Ok a => k a s
                      | Raise e => (Raise e, s)
                      end.
Proof. unfold bind, lift. by destruct r. Qed.


Lemma tell_bind {B} (ev : event) (k : unit -> M B) (w : world) :
  bind (tell ev) k w = k tt (World (heap w) (db w) (trace w ++ [ev])).
Proof. done. Qed.

Lemma deref_bind {B} (l : loc) (k : Frame -> M B) (w : world) (f : Frame) :
  heap w !! l = Some f -> bind (deref l) k w = k f w.
Proof. intros Hf. unfold bind, deref. by rewrite Hf. Qed.

Lemma df_copy_bind {B} (l : loc) (k : loc -> M B) (f : Frame) (w : world) :
  heap w !! l = Some f ->
  bind (df_copy l) k w =
    k (fresh (dom (heap w)))
      (World (<[fresh (dom (heap w)) := f]> (heap w)) (db w) (trace w)).
Proof. intros Hf. unfold df_copy, bind, deref, alloc. by rewrite Hf. Qed.

Lemma on_bind {A B} (l : loc) (m : St Frame A) (k : A -> M B) (w : world) (f : Frame) :
  heap w !! l = Some f ->
  bind (on l m) k w =
    match fst (m f) with
    | Ok a => k a (World (<[l := snd (m f)]> (heap w)) (db w) (trace w))
    | Raise e => (Raise e, World (<[l := snd (m f)]> (heap w)) (db w) (trace w))
    end.
Proof.
  intros Hf. unfold bind, on. rewrite Hf. by destruct (m f) as [[a|e] f'].
Qed.

(** ** [clean_features] returns whenever the feature columns are there *)

Lemma numbers_total (s : Series) : Forall no_string s -> exists xs, numbers s = Ok xs.
Proof.
  induction 1 as [|v s Hv _ [xs IH]]; simpl; [by eexists|].
  destruct v as [|q|t]; [by eexists| |done]. rewrite IH. by eexists.
Qed.

Lemma median_total (s : Series) :
  Forall no_string s -> exists m, median s = Ok m /\ no_string m.
Proof.
  intros Hs. destruct (numbers_total s Hs) as [xs Hxs]. unfold median. rewrite Hxs.
  eexists. split; [done|]. unfold middle.
  destruct (Nat.eqb _ 0); [done|]. by destruct (Nat.odd _).
Qed.

Lemma fillna_no_string (s : Series) (fill : value) :
  Forall no_string s -> no_string fill -> Forall no_string (fillna s fill).
Proof.
  intros Hs Hfill. unfold fillna. apply Forall_forall. intros v Hv.
  apply list_elem_of_In, in_map_iff in Hv as (u & <- & Hu).
  destruct (isna u); [done|]. rewrite Forall_forall in Hs.
  by apply Hs, list_elem_of_In.
Qed.

Lemma numeric_columns_assign (cols : list string) (df : Frame) (c : string) (s : Series) :
  numeric_columns cols df -> Forall no_string s ->
  numeric_columns cols (assign_col c s df).
Proof.
  intros Hdf Hs d Hd. destruct (String.eqb_spec c d) as [->|Hne].
  - exists s. by rewrite lookup_assign_same.
  - rewrite lookup_assign_other by done. by apply Hdf.
Qed.

Lemma numeric_columns_assign_new (cols : list string) (df : Frame) (c : string) (s : Series) :
  numeric_columns cols df -> ~ In c cols -> numeric_columns cols (assign_col c s df).
Proof.
  intros Hdf Hc d Hd. rewrite lookup_assign_other; [by apply Hdf|].
  intros ->. contradiction.
Qed.

Section Clean_features_returns.
Context `{Numerics}.

Lemma to_numeric_no_string (s : Series) : Forall no_string (to_numeric s).
Proof.
  unfold to_numeric. apply Forall_forall. intros v Hv.
  apply list_elem_of_In, in_map_iff in Hv as (u & <- & _).
  destruct u as [|q|t]; [done|done|]. by destruct (parse_float t).
Qed.

(** The coercion loop, started on a frame whose columns of [done] are
    already numeric, makes those of [cols] numeric as well. *)
Lemma coerce_loop_total (cols done : list string) (df : Frame) :
  (forall c, In c cols -> lookup_col c df <> None) ->
  numeric_columns done df ->
  exists df',
    for_each cols (fun col => s <- getitem col ;; setitem col (to_numeric s)) df
      = (Ok tt, df') /\
    numeric_columns (done ++ cols) df'.
Proof.
  revert done df. induction cols as [|x cols IH]; intros done df Hhas Hdone.
  - exists df. split; [done|]. by rewrite app_nil_r.
  - destruct (lookup_col x df) as [s|] eqn:Ex; [|by destruct (Hhas x (or_introl eq_refl))].
    destruct (IH (done ++ [x])%list (assign_col x (to_numeric s) df)) as (df' & Hrun & Hnum).
    + intros c Hc. destruct (String.eqb_spec x c) as [->|Hne].
      * by rewrite lookup_assign_same.
      * rewrite lookup_assign_other by done. apply Hhas. by right.
    + intros c Hc. apply in_app_iff in Hc as [Hc|[<-|[]]].
      * exact (numeric_columns_assign done df x _ Hdone (to_numeric_no_string s) c Hc).
      * exists (to_numeric s). split; [apply lookup_assign_same|apply to_numeric_no_string].
    + exists df'. split; [|by rewrite <- app_assoc in Hnum].
      simpl. unfold bind at 1. unfold bind at 1. unfold getitem at 1. by rewrite Ex.
Qed.

Lemma fill_loop_total (cols all : list string) (df : Frame) :
  (forall c, In c cols -> In c all) ->
  numeric_columns all df ->
  exists df',
    for_each cols (fun col => fill_missing col median) df = (Ok tt, df') /\
    numeric_columns all df'.
Proof.
  revert df. induction cols as [|x cols IH]; intros df Hsub Hnum; [by exists df|].
  destruct (Hnum x (Hsub x (or_introl eq_refl))) as (s & Hs & Hstr).
  assert (Hstep : exists df1, fill_missing x median df = (Ok tt, df1) /\
                              numeric_columns all df1).
  { unfold fill_missing, bind, getitem, lift. rewrite Hs.
    destruct (isna_any s); [|by exists df].
    rewrite Hs. destruct (median_total s Hstr) as (m & -> & Hm).
    eexists. split; [done|].
    apply numeric_columns_assign; [done|by apply fillna_no_string]. }
  destruct Hstep as (df1 & Hrun1 & Hnum1).
  destruct (IH df1) as (df' & Hrun & Hnum'); [intros c Hc; apply Hsub; by right|done|].
  exists df'. split; [|done]. simpl. by rewrite (bind_run' _ _ _ _ _ Hrun1).
Qed.

Lemma np_log1p_total (s : Series) : Forall no_string s -> exists out, np_log1p s = Ok out.
Proof.
  intros Hs. unfold np_log1p. apply rmap_total. intros v Hv.
  rewrite Forall_forall in Hs. specialize (Hs v (proj2 (list_elem_of_In _ _) Hv)).
  destruct v; [by eexists|by eexists|done].
Qed.

(** [clean_features] returns on every table that has the columns of
    [FEATURES]. *)
Lemma clean_features_total (df : Frame) :
  (forall c, In c Segmentation.FEATURES -> lookup_col c df <> None) ->
  exists df', Segmentation.clean_features df = (Ok Segmentation.clustering_features, df').
Proof.
  intros Hhas.
  destruct (coerce_loop_total Segmentation.FEATURES [] df Hhas) as (df1 & Hrun1 & Hnum1);
    [intros c []|].
  simpl app in Hnum1.
  destruct (Hnum1 "avg_days_between_orders") as (s & Hs & Hstr);
    [unfold Segmentation.FEATURES; simpl; tauto|].
  set (df2 := assign_col "avg_days_between_orders" (fillna s (Num 9999)) df1).
  assert (Hnum2 : numeric_columns Segmentation.FEATURES df2).
  { apply numeric_columns_assign; [done|by apply fillna_no_string]. }
  destruct (fill_loop_total Segmentation.FEATURES Segmentation.FEATURES df2)
    as (df3 & Hrun3 & Hnum3); [done|done|].
  destruct (Hnum3 "monetary") as (m & Hm & Hmstr);
    [unfold Segmentation.FEATURES; simpl; tauto|].
  destruct (np_log1p_total m Hmstr) as [ml Hml].
  set (df4 := assign_col "monetary_log" ml df3).
  assert (Hnum4 : numeric_columns Segmentation.FEATURES df4).
  { apply numeric_columns_assign_new; [done|].
    unfold Segmentation.FEATURES. simpl. intuition discriminate. }
  destruct (Hnum4 "avg_order_value") as (a & Ha & Hastr);
    [unfold Segmentation.FEATURES; simpl; tauto|].
  destruct (np_log1p_total a Hastr) as [al Hal].
  exists (assign_col "avg_order_value_log" al df4).
  unfold Segmentation.clean_features.
  rewrite (bind_run' _ _ _ _ _ Hrun1).
  unfold getitem at 1. unfold bind at 1. rewrite Hs.
  unfold setitem at 1. unfold bind at 1. fold df2.
  rewrite (bind_run' _ _ _ _ _ Hrun3).
  unfold getitem at 1. unfold bind at 1. rewrite Hm.
  rewrite lift_bind, Hml.
  unfold setitem at 1. unfold bind at 1. fold df4.
  unfold getitem at 1. unfold bind at 1. rewrite Ha.
  rewrite lift_bind, Hal. reflexivity.
Qed.

End Clean_features_returns.

(** ** C1: the sentinel for customers without a repeat purchase *)

(** The segmentation half of C1: on every table that has the columns of
    [FEATURES], [clean_features] returns, and in the cleaned table every
    missing gap holds 9999 and the present ones stay, whatever the
    column's median is. *)
Theorem clean_features_sentinel `{Numerics} (df : Frame) (s : Series) :
  (forall c, In c Segmentation.FEATURES -> lookup_col c df <> None) ->
  lookup_col "avg_days_between_orders" df = Some s ->
  exists df' out,
    Segmentation.clean_features df = (Ok Segmentation.clustering_features, df') /\
    lookup_col "avg_days_between_orders" df' = Some out /\
    length out = length s /\
    forall i v, to_numeric s !! i = Some v ->
                out !! i = Some (if isna v then Num 9999 else v).
Proof.
  intros Hhas Hs. destruct (clean_features_total df Hhas) as [df' Hrun].
  exists df'. eexists. split; [exact Hrun|].
  split; [by eapply clean_features_gap_column|].
  split.
  - unfold fillna, to_numeric. by rewrite !length_map.
  - intros i v Hv. by apply fillna_lookup.
Qed.

Lemma clean_features_sentinel_witness :
  exists df' out,
    @Segmentation.clean_features toy_numerics one_time_buyer_table
      = (Ok Segmentation.clustering_features, df') /\
    lookup_col "avg_days_between_orders" df' = Some out /\
    length out = length [NaN; Num 10; Num 30] /\
    forall i v, @to_numeric toy_numerics [NaN; Num 10; Num 30] !! i = Some v ->
                out !! i = Some (if isna v then Num 9999 else v).
Proof.
  apply (@clean_features_sentinel toy_numerics one_time_buyer_table [NaN; Num 10; Num 30]).
  - intros c Hc. unfold Segmentation.FEATURES in Hc. simpl in Hc.
    repeat (destruct Hc as [<-|Hc]; [discriminate|]). destruct Hc.
  - reflexivity.
Defined.

(** C1, on the churn script: the cleaning block of [load_training_frame]
    runs the median loop over [avg_days_between_orders] before it fills
    9999, so a column with present and missing gaps comes out with the
    median in the missing cells.  For the gaps [missing, 10, 30] it stores
    20, where [clean_features] stores 9999 for the same table. *)
Theorem C1_churn_cleaning_stores_median `{Numerics} :
  (forall (df df' : Frame) (s : Series) (m : Q),
     Churn.prepare_training_frame df = (Ok tt, df') ->
     lookup_col "avg_days_between_orders" df = Some s ->
     isna_any (to_numeric s) = true ->
     median (to_numeric s) = Ok (Num m) ->
     lookup_col "avg_days_between_orders" df' = Some (fillna (to_numeric s) (Num m))) /\
  column (snd (@Churn.prepare_training_frame toy_numerics one_time_buyer_table))
         "avg_days_between_orders" = Ok [Num 20; Num 10; Num 30] /\
  column (snd (@Segmentation.clean_features toy_numerics one_time_buyer_table))
         "avg_days_between_orders" = Ok [Num 9999; Num 10; Num 30].
Proof.
  split; [exact prepare_training_frame_gap_column|].
  split; vm_compute; reflexivity.
Qed.

(** ** C5: the churn label *)

Lemma ge_threshold_cells (t : Q) (r y : Series) :
  Churn.ge_threshold t r = Ok y ->
  length y = length r /\
  forall i v, r !! i = Some v ->
    y !! i = Some (match v with
                   | Num q => if Qle_bool t q then Num 1 else Num 0
                   | _ => Num 0
                   end).
Proof.
  intros Hy. apply rmap_ok in Hy as [Hlen Hcells]. split; [done|].
  intros i v Hv. destruct (Hcells _ _ Hv) as (w & Hw & ->). f_equal.
  destruct v; simpl in Hw; [| |discriminate]; by inversion Hw.
Qed.

(** C5: the label of a customer is 1 exactly when [recency_days] is at
    least the threshold of 180 days; it is read off the input column, and
    the four recencies of the scenario give 0, 1, 1, 0. *)
Theorem C5_churn_label_is_recency_threshold `{Numerics} :
  Churn.CHURN_THRESHOLD_DAYS = 180%Q /\
  (forall (df df' : Frame) (r : Series),
     Churn.prepare_training_frame df = (Ok tt, df') ->
     lookup_col "recency_days" df = Some r ->
     exists y, lookup_col "churned" df' = Some y /\ length y = length r /\
       forall i q, r !! i = Some (Num q) ->
         ((Churn.CHURN_THRESHOLD_DAYS <= q)%Q -> y !! i = Some (Num 1)) /\
         (~ (Churn.CHURN_THRESHOLD_DAYS <= q)%Q -> y !! i = Some (Num 0))) /\
  Churn.ge_threshold Churn.CHURN_THRESHOLD_DAYS [Num 50; Num 180; Num 200; Num 179]
    = Ok [Num 0; Num 1; Num 1; Num 0].
Proof.
  split; [reflexivity|]. split; [|reflexivity].
  intros df df' r Hrun Hrec.
  destruct (prepare_training_frame_label _ _ _ Hrun Hrec) as (y & Hy & Hcol).
  exists y. split; [done|].
  destruct (ge_threshold_cells _ _ _ Hy) as [Hlen Hcells].
  split; [done|]. intros i q Hq. rewrite (Hcells _ _ Hq).
  destruct (Qle_bool Churn.CHURN_THRESHOLD_DAYS q) eqn:E.
  - split; [done|]. intros Hn. apply Qle_bool_iff in E. contradiction.
  - split; [|done]. intros Hle. apply Qle_bool_iff in Hle. congruence.
Qed.

Lemma C5_churn_label_witness :
  exists y,
    lookup_col "churned"
      (snd (@Churn.prepare_training_frame toy_numerics one_time_buyer_table)) = Some y /\
    length y = 3 /\
    forall i q, [Num 50; Num 180; Num 200] !! i = Some (Num q) ->
      ((Churn.CHURN_THRESHOLD_DAYS <= q)%Q -> y !! i = Some (Num 1)) /\
      (~ (Churn.CHURN_THRESHOLD_DAYS <= q)%Q -> y !! i = Some (Num 0)).
Proof.
  apply (proj1 (proj2 (@C5_churn_label_is_recency_threshold toy_numerics))
           one_time_buyer_table _ [Num 50; Num 180; Num 200]).
  - vm_compute. reflexivity.
  - reflexivity.
Defined.

(** ** Rows of a frame *)

Lemma row_find_row_at (df : Frame) (i : nat) (c : string) :
  row_find c (row_at df i) = (fun s => nth i s NaN) <$> lookup_col c df.
Proof.
  induction df as [|[d s] df IH]; simpl; [done|].
  destruct (String.eqb d c); [done | apply IH].
Qed.

Lemma rows_lookup (df : Frame) (i : nat) :
  i < nrows df -> rows df !! i = Some (row_at df i).
Proof.
  intros Hi. unfold rows. rewrite lookup_map, lookup_seq_lt; done.
Qed.

Lemma length_rows (df : Frame) : length (rows df) = nrows df.
Proof. unfold rows. by rewrite length_map, length_seq. Qed.

(** ** C2: segment naming *)

Lemma segment_name_table (row : Row) (v f r : Q) :
  row_find "value_rank" row = Some (Num v) ->
  row_find "freq_rank" row = Some (Num f) ->
  row_find "recency_rank" row = Some (Num r) ->
  Segmentation.segment_name row = Ok (Str (naming_table v f r)).
Proof.
  intros Hv Hf Hr. unfold Segmentation.segment_name, row_get, naming_table.
  rewrite Hv, Hf, Hr. simpl.
  destruct (Qle_bool v 1), (Qle_bool f 2), (Qle_bool r 2), (Qle_bool v 2),
    (Qle_bool 4 r), (Qle_bool 4 v), (Qle_bool 4 f); reflexivity.
Qed.

Lemma segment_name_same_triple (r1 r2 : Row) :
  row_find "value_rank" r1 = row_find "value_rank" r2 ->
  row_find "freq_rank" r1 = row_find "freq_rank" r2 ->
  row_find "recency_rank" r1 = row_find "recency_rank" r2 ->
  Segmentation.segment_name r1 = Segmentation.segment_name r2.
Proof.
  intros Hv Hf Hr. unfold Segmentation.segment_name, row_get.
  by rewrite Hv, Hf, Hr.
Qed.

(** C2: the name is a function of the rank triple alone; on numeric
    ranks it is the five-rule table read top down; the triple (1, 5, 5) is
    named "At-Risk High Value"; and [name_segments] stores in row [i] of
    the column [segment_name] the name [segment_name] gives to row [i] of
    the profile, so that a row with numeric ranks is named by the table
    and two rows with the same triple get the same name. *)
Theorem C2_segment_name_is_table_of_rank_triple :
  (forall r1 r2 : Row,
     row_find "value_rank" r1 = row_find "value_rank" r2 ->
     row_find "freq_rank" r1 = row_find "freq_rank" r2 ->
     row_find "recency_rank" r1 = row_find "recency_rank" r2 ->
     Segmentation.segment_name r1 = Segmentation.segment_name r2) /\
  (forall (row : Row) (v f r : Q),
     row_find "value_rank" row = Some (Num v) ->
     row_find "freq_rank" row = Some (Num f) ->
     row_find "recency_rank" row = Some (Num r) ->
     Segmentation.segment_name row = Ok (Str (naming_table v f r))) /\
  (forall row : Row,
     row_find "value_rank" row = Some (Num 1) ->
     row_find "freq_rank" row = Some (Num 5) ->
     row_find "recency_rank" row = Some (Num 5) ->
     Segmentation.segment_name row = Ok (Str "At-Risk High Value")) /\
  (forall (profile profile' : Frame),
     Segmentation.name_segments profile = (Ok tt, profile') ->
     exists names,
       lookup_col "segment_name" profile' = Some names /\
       length names = nrows profile /\
       (forall i, i < nrows profile ->
          exists name,
            Segmentation.segment_name (row_at profile i) = Ok name /\
            names !! i = Some name) /\
       (forall i (v f r : Q), i < nrows profile ->
          row_find "value_rank" (row_at profile i) = Some (Num v) ->
          row_find "freq_rank" (row_at profile i) = Some (Num f) ->
          row_find "recency_rank" (row_at profile i) = Some (Num r) ->
          names !! i = Some (Str (naming_table v f r))) /\
       forall i j, i < nrows profile -> j < nrows profile ->
         (forall c, In c ["value_rank"; "freq_rank"; "recency_rank"] ->
                    row_find c (row_at profile i) = row_find c (row_at profile j)) ->
         names !! i = names !! j).
Proof.
  split; [exact segment_name_same_triple|].
  split; [exact segment_name_table|].
  split; [intros row Hv Hf Hr; apply (segment_name_table row 1 5 5 Hv Hf Hr)|].
  intros profile profile' Hrun. unfold Segmentation.name_segments in Hrun.
  apply bind_ok in Hrun as (names & p1 & Hnames & Hset).
  inversion Hnames as [[Hmap Hp]]; subst p1. inversion Hset; subst profile'.
  exists names. split; [apply lookup_assign_same|].
  apply rmap_ok in Hmap as [Hlen Hcells]. rewrite length_rows in Hlen.
  split; [done|].
  split; [intros i Hi; exact (Hcells _ _ (rows_lookup _ _ Hi))|].
  split.
  - intros i v f r Hi Hv Hf Hr.
    destruct (Hcells _ _ (rows_lookup _ _ Hi)) as (ni & Hni & ->).
    rewrite (segment_name_table _ v f r Hv Hf Hr) in Hni. by inversion Hni.
  - intros i j Hi Hj Hsame.
    destruct (Hcells _ _ (rows_lookup _ _ Hi)) as (ni & Hni & ->).
    destruct (Hcells _ _ (rows_lookup _ _ Hj)) as (nj & Hnj & ->).
    f_equal. assert (Ok ni = Ok nj) as E; [|by inversion E].
    rewrite <- Hni, <- Hnj.
    apply segment_name_same_triple; apply Hsame; simpl; tauto.
Qed.

Lemma C2_segment_name_witness :
  Segmentation.segment_name at_risk_row = Ok (Str "At-Risk High Value") /\
  exists names,
    lookup_col "segment_name" (snd (Segmentation.name_segments at_risk_profile))
      = Some names /\
    names !! 1 = Some (Str "At-Risk High Value").
Proof.
  pose proof C2_segment_name_is_table_of_rank_triple as (_ & _ & Hrow & Hframe).
  split; [apply (Hrow at_risk_row); reflexivity|].
  destruct (Hframe at_risk_profile (snd (Segmentation.name_segments at_risk_profile)) eq_refl)
    as (names & Hnames & _ & _ & Htable & _).
  exists names. split; [exact Hnames|].
  apply (Htable 1 1%Q 5%Q 5%Q); [vm_compute; lia | reflexivity..].
Defined.

(** ** The body and the object-level run of [assign_priority_band] *)

Lemma add_priority_bands_ok `{Numerics} (df df' : Frame) :
  Churn.add_priority_bands df = (Ok tt, df') ->
  exists r rc rb m mc vb p,
    lookup_col "churn_risk" df = Some r /\
    qcut r 3 (Some Churn.tertile_labels) = Ok rc /\ astype_int rc = Ok rb /\
    lookup_col "monetary" df = Some m /\
    qcut m 3 (Some Churn.tertile_labels) = Ok mc /\ astype_int mc = Ok vb /\
    apply_rows Churn.priority
      (assign_col "value_band" vb (assign_col "risk_band" rb df)) = Ok p /\
    df' = assign_col "priority_band" p
            (assign_col "value_band" vb (assign_col "risk_band" rb df)).
Proof.
  intros Hrun. unfold Churn.add_priority_bands in Hrun.
  apply bind_ok in Hrun as (r & df0 & Hr & Hrun).
  apply bind_ok in Hrun as (rc & dfa & Hrc & Hrun).
  apply bind_ok in Hrun as (rb & dfb & Hrb & Hrun).
  apply bind_ok in Hrun as ([] & df1 & Hset1 & Hrun).
  apply bind_ok in Hrun as (m & dfc & Hm & Hrun).
  apply bind_ok in Hrun as (mc & dfd & Hmc & Hrun).
  apply bind_ok in Hrun as (vb & dfe & Hvb & Hrun).
  apply bind_ok in Hrun as ([] & df2 & Hset2 & Hrun).
  apply bind_ok in Hrun as (p & dff & Hp & Hset3).
  unfold getitem in Hr. destruct (lookup_col "churn_risk" df) as [r0|] eqn:Er; [|discriminate].
  inversion Hr; subst r0 df0. inversion Hrc; subst dfa. inversion Hrb; subst dfb.
  inversion Hset1; subst df1.
  unfold getitem in Hm. rewrite lookup_assign_other in Hm by discriminate.
  destruct (lookup_col "monetary" df) as [m0|] eqn:Em; [|discriminate].
  inversion Hm; subst m0 dfc. inversion Hmc; subst dfd. inversion Hvb; subst dfe.
  inversion Hset2; subst df2. inversion Hp; subst dff. inversion Hset3; subst df'.
  exists r, rc, rb, m, mc, vb, p. repeat (split; [done|]). done.
Qed.

Lemma assign_priority_band_run `{Numerics} (w : world) (df : loc) (f : Frame) :
  heap w !! df = Some f ->
  Churn.assign_priority_band df w =
    (match fst (Churn.add_priority_bands f) with
     | Ok _ => Ok (fresh (dom (heap w)))
     | Raise e => Raise e
     end,
     World (<[fresh (dom (heap w)) := snd (Churn.add_priority_bands f)]> (heap w))
           (db w) (trace w)).
Proof.
  intros Hf. unfold Churn.assign_priority_band, df_copy, bind, deref, alloc, on, ret.
  rewrite Hf. simpl. rewrite lookup_insert_eq.
  destruct (Churn.add_priority_bands f) as [[[]|e] f']; simpl;
    by rewrite insert_insert_eq.
Qed.

Lemma fresh_loc_new (w : world) (df : loc) (f : Frame) :
  heap w !! df = Some f -> fresh (dom (heap w)) <> df.
Proof.
  intros Hf Heq. apply (is_fresh (dom (heap w))). rewrite Heq.
  apply elem_of_dom. by eexists.
Qed.

(** ** C6: the priority rule *)

Lemma priority_on_bands (row : Row) (rb vb : value) :
  row_find "risk_band" row = Some rb ->
  row_find "value_band" row = Some vb ->
  Churn.priority row = Ok (Str (priority_rule rb vb)).
Proof.
  intros Hr Hv. unfold Churn.priority, row_get, priority_rule. rewrite Hr, Hv. simpl.
  destruct (eq_num rb 1), (eq_num rb 2), (eq_num vb 1), (eq_num vb 2); reflexivity.
Qed.

Lemma priority_rule_range (rb vb : value) :
  In (priority_rule rb vb) ["HIGH"; "MEDIUM"; "LOW"].
Proof.
  unfold priority_rule.
  destruct (eq_num rb 1), (eq_num rb 2), (eq_num vb 1), (eq_num vb 2); simpl; tauto.
Qed.

Lemma nrows_assign (c : string) (s : Series) (df : Frame) :
  length s = nrows df -> nrows (assign_col c s df) = nrows df.
Proof.
  destruct df as [|[d t] df]; simpl; [done|].
  by destruct (String.eqb d c).
Qed.

(** C6: [priority] is the fixed rule on the pair of bands, it names one
    of HIGH, MEDIUM and LOW, and the table [assign_priority_band] returns
    holds, for every row, the band the rule gives for that row's pair. *)
Theorem C6_priority_band_is_rule_of_band_pair `{Numerics} :
  (forall (row : Row) (rb vb : value),
     row_find "risk_band" row = Some rb ->
     row_find "value_band" row = Some vb ->
     Churn.priority row = Ok (Str (priority_rule rb vb))) /\
  (priority_rule (Num 1) (Num 1) = "HIGH" /\
   priority_rule (Num 1) (Num 2) = "MEDIUM" /\
   priority_rule (Num 2) (Num 1) = "MEDIUM" /\
   forall a b : Q,
     ~ ((a == 1)%Q /\ (b == 1)%Q) -> ~ ((a == 1)%Q /\ (b == 2)%Q) ->
     ~ ((a == 2)%Q /\ (b == 1)%Q) ->
     priority_rule (Num a) (Num b) = "LOW") /\
  (forall rb vb, In (priority_rule rb vb) ["HIGH"; "MEDIUM"; "LOW"]) /\
  (forall (w w' : world) (df df' : loc) (f : Frame),
     heap w !! df = Some f ->
     Churn.assign_priority_band df w = (Ok df', w') ->
     exists f' rb vb p,
       heap w' !! df' = Some f' /\
       lookup_col "risk_band" f' = Some rb /\
       lookup_col "value_band" f' = Some vb /\
       lookup_col "priority_band" f' = Some p /\
       length p = nrows f' /\
       forall i, i < nrows f' ->
         p !! i = Some (Str (priority_rule (nth i rb NaN) (nth i vb NaN)))).
Proof.
  split; [exact priority_on_bands|]. split.
  { repeat (split; [reflexivity|]). intros a b H11 H12 H21. unfold priority_rule. simpl.
    destruct (Qeq_bool a 1) eqn:Ea1, (Qeq_bool b 1) eqn:Eb1,
      (Qeq_bool b 2) eqn:Eb2, (Qeq_bool a 2) eqn:Ea2; simpl; try reflexivity;
      repeat match goal with
             | E : Qeq_bool _ _ = true |- _ => apply Qeq_bool_iff in E
             end; tauto. }
  split; [exact priority_rule_range|].
  intros w w' df df' f Hf Hrun. rewrite (assign_priority_band_run _ _ _ Hf) in Hrun.
  destruct (Churn.add_priority_bands f) as [[[]|e] f'] eqn:Ebody; simpl in Hrun;
    [|discriminate].
  inversion Hrun; subst df' w'; clear Hrun. simpl. rewrite lookup_insert_eq.
  apply add_priority_bands_ok in Ebody
    as (r & rc & rb & m & mc & vb & p & _ & _ & _ & _ & _ & _ & Hp & ->).
  set (f2 := assign_col "value_band" vb (assign_col "risk_band" rb f)) in *.
  apply rmap_ok in Hp as [Hlen Hcells]. rewrite length_rows in Hlen.
  assert (Hrb : lookup_col "risk_band" f2 = Some rb).
  { unfold f2. rewrite lookup_assign_other by discriminate. apply lookup_assign_same. }
  assert (Hvb : lookup_col "value_band" f2 = Some vb) by apply lookup_assign_same.
  exists (assign_col "priority_band" p f2), rb, vb, p.
  split; [done|].
  split; [by rewrite lookup_assign_other by discriminate|].
  split; [by rewrite lookup_assign_other by discriminate|].
  split; [apply lookup_assign_same|].
  rewrite (nrows_assign _ _ _ Hlen). split; [done|].
  intros i Hi. destruct (Hcells _ _ (rows_lookup _ _ Hi)) as (y & Hy & ->).
  rewrite (priority_on_bands (row_at f2 i) (nth i rb NaN) (nth i vb NaN)) in Hy.
  - by inversion Hy.
  - by rewrite row_find_row_at, Hrb.
  - by rewrite row_find_row_at, Hvb.
Qed.

Lemma C6_priority_band_witness :
  exists f' rb vb p,
    heap (snd ((@Churn.assign_priority_band toy_numerics) 1%positive scored_world)) !! 2%positive = Some f' /\
    lookup_col "risk_band" f' = Some rb /\
    lookup_col "value_band" f' = Some vb /\
    lookup_col "priority_band" f' = Some p /\
    length p = nrows f' /\
    forall i, i < nrows f' ->
      p !! i = Some (Str (priority_rule (nth i rb NaN) (nth i vb NaN))).
Proof.
  apply (proj2 (proj2 (proj2 (@C6_priority_band_is_rule_of_band_pair toy_numerics)))
           scored_world _ 1%positive 2%positive scored_table).
  - reflexivity.
  - vm_compute. reflexivity.
Defined.

(** ** C8: value at risk *)





(** ** C10: what [assign_priority_band] changes *)

Lemma add_priority_bands_touches `{Numerics} : touches band_columns Churn.add_priority_bands.
Proof.
  unfold Churn.add_priority_bands, band_columns.
  apply touches_bind; [apply touches_getitem|]. intros r.
  apply touches_bind; [apply touches_lift|]. intros rc.
  apply touches_bind; [apply touches_lift|]. intros rb.
  apply touches_bind; [apply touches_setitem; simpl; tauto|]. intros _.
  apply touches_bind; [apply touches_getitem|]. intros m.
  apply touches_bind; [apply touches_lift|]. intros mc.
  apply touches_bind; [apply touches_lift|]. intros vb.
  apply touches_bind; [apply touches_setitem; simpl; tauto|]. intros _.
  intros df r' df' Hrun. revert df r' df' Hrun.
  change (touches ["risk_band"; "value_band"; "priority_band"]
            (fun df => (p <- lift (apply_rows Churn.priority df) ;;
                        setitem "priority_band" p) df)).
  intros df r' df' Hrun c Hc.
  eapply (touches_bind ["risk_band"; "value_band"; "priority_band"]
            (lift (apply_rows Churn.priority df))); [apply touches_lift| |exact Hrun|exact Hc].
  intros p. apply touches_setitem. simpl. tauto.
Qed.

Lemma add_priority_bands_columns `{Numerics} (df df' : Frame) :
  Churn.add_priority_bands df = (Ok tt, df') ->
  columns df' =
    (columns df ++
     List.filter (fun c => negb (existsb (String.eqb c) (columns df))) band_columns)%list.
Proof.
  intros Hrun.
  apply add_priority_bands_ok in Hrun
    as (r & rc & rb & m & mc & vb & p & _ & _ & _ & _ & _ & _ & _ & ->).
  rewrite !columns_assign. unfold band_columns. cbn [List.filter].
  destruct (existsb (String.eqb "risk_band") (columns df)) eqn:E1;
    destruct (existsb (String.eqb "value_band") (columns df)) eqn:E2;
    destruct (existsb (String.eqb "priority_band") (columns df)) eqn:E3;
    repeat first
      [ rewrite E1 | rewrite E2 | rewrite E3 | rewrite existsb_app
      | rewrite orb_false_r | progress cbv iota | progress cbn [negb]
      | match goal with
        | |- context [existsb (String.eqb ?a) [?b]] =>
            let v := eval vm_compute in (existsb (String.eqb a) [b]) in
            change (existsb (String.eqb a) [b]) with v
        end ];
    rewrite <- ?app_assoc, ?app_nil_r; reflexivity.
Qed.

(** The claim as worded (every column of the input is found unchanged in
    the result) fails on a table that already has a [risk_band] column:
    the result holds the new bands under that name. *)
Lemma C10_existing_band_column_is_replaced :
  ~ (forall (w w' : world) (df df' : loc) (f f' : Frame),
       heap w !! df = Some f ->
       (@Churn.assign_priority_band toy_numerics) df w = (Ok df', w') ->
       heap w' !! df' = Some f' ->
       forall c, In c (columns f) -> lookup_col c f' = lookup_col c f).
Proof.
  intros Hclaim.
  specialize (Hclaim rebanded_world
                (snd ((@Churn.assign_priority_band toy_numerics) 1%positive rebanded_world))
                1%positive 2%positive rebanded_table
                (snd ((@Churn.add_priority_bands toy_numerics) rebanded_table))
                eq_refl).
  assert (Hrun : (@Churn.assign_priority_band toy_numerics) 1%positive rebanded_world
                 = (Ok 2%positive, snd ((@Churn.assign_priority_band toy_numerics) 1%positive rebanded_world)))
    by (vm_compute; reflexivity).
  assert (Hout : heap (snd ((@Churn.assign_priority_band toy_numerics) 1%positive rebanded_world)) !! 2%positive
                 = Some (snd ((@Churn.add_priority_bands toy_numerics) rebanded_table)))
    by (vm_compute; reflexivity).
  assert (Hnew : lookup_col "risk_band" (snd ((@Churn.add_priority_bands toy_numerics) rebanded_table))
                 = Some [Num 3; Num 1; Num 2; Num 3])
    by (vm_compute; reflexivity).
  assert (Hold : lookup_col "risk_band" rebanded_table
                 = Some [Num 7; Num 7; Num 7; Num 7])
    by reflexivity.
  assert (Hin : In "risk_band" (columns rebanded_table))
    by (unfold rebanded_table, scored_table; simpl; tauto).
  specialize (Hclaim Hrun Hout "risk_band" Hin).
  rewrite Hnew, Hold in Hclaim. clear - Hclaim. discriminate Hclaim.
Qed.

(** C10, amended: the input object is never modified (the function works
    on a fresh copy, also when it raises); in the table returned every
    column not named [risk_band], [value_band] or [priority_band] is the
    input's, cell for cell and in place, and those three names are the
    only ones added, after the input's columns. *)
Theorem C10_assign_priority_band_works_on_copy `{Numerics} (w : world) (df : loc) (f : Frame) :
  heap w !! df = Some f ->
  heap (snd (Churn.assign_priority_band df w)) !! df = Some f /\
  db (snd (Churn.assign_priority_band df w)) = db w /\
  (forall l, heap w !! l <> None ->
             heap (snd (Churn.assign_priority_band df w)) !! l = heap w !! l) /\
  forall df', fst (Churn.assign_priority_band df w) = Ok df' ->
    df' <> df /\ heap w !! df' = None /\
    exists f', heap (snd (Churn.assign_priority_band df w)) !! df' = Some f' /\
      (forall c, ~ In c band_columns -> lookup_col c f' = lookup_col c f) /\
      (forall c, In c band_columns -> lookup_col c f' <> None) /\
      columns f' =
        (columns f ++
         List.filter (fun c => negb (existsb (String.eqb c) (columns f))) band_columns)%list.
Proof.
  intros Hf. rewrite (assign_priority_band_run _ _ _ Hf). simpl.
  pose proof (fresh_loc_new _ _ _ Hf) as Hnew.
  assert (Hfree : heap w !! fresh (dom (heap w)) = None).
  { apply not_elem_of_dom. apply is_fresh. }
  split; [by rewrite lookup_insert_ne|]. split; [done|]. split.
  { intros l Hl. rewrite lookup_insert_ne; [done|]. intros <-. contradiction. }
  intros df' Hok.
  destruct (Churn.add_priority_bands f) as [[[]|e] f'] eqn:Ebody; simpl in *;
    [|discriminate].
  inversion Hok; subst df'. split; [done|]. split; [done|].
  exists f'. split; [apply lookup_insert_eq|]. split; [|split].
  - intros c Hc. eapply add_priority_bands_touches; eauto.
  - intros c Hc.
    apply add_priority_bands_ok in Ebody
      as (r & rc & rb & m & mc & vb & p & _ & _ & _ & _ & _ & _ & _ & ->).
    destruct Hc as [<-|[<-|[<-|[]]]].
    + rewrite !lookup_assign_other by discriminate. by rewrite lookup_assign_same.
    + rewrite lookup_assign_other by discriminate. by rewrite lookup_assign_same.
    + by rewrite lookup_assign_same.
  - by apply add_priority_bands_columns.
Qed.

Lemma C10_assign_priority_band_witness :
  heap (snd ((@Churn.assign_priority_band toy_numerics) 1%positive scored_world)) !! 1%positive
    = Some scored_table /\
  db (snd ((@Churn.assign_priority_band toy_numerics) 1%positive scored_world)) = db scored_world /\
  (forall l, heap scored_world !! l <> None ->
             heap (snd ((@Churn.assign_priority_band toy_numerics) 1%positive scored_world)) !! l
             = heap scored_world !! l) /\
  forall df', fst ((@Churn.assign_priority_band toy_numerics) 1%positive scored_world) = Ok df' ->
    df' <> 1%positive /\ heap scored_world !! df' = None /\
    exists f', heap (snd ((@Churn.assign_priority_band toy_numerics) 1%positive scored_world)) !! df' = Some f' /\
      (forall c, ~ In c band_columns -> lookup_col c f' = lookup_col c scored_table) /\
      (forall c, In c band_columns -> lookup_col c f' <> None) /\
      columns f' =
        (columns scored_table ++
         List.filter (fun c => negb (existsb (String.eqb c) (columns scored_table)))
                     band_columns)%list.
Proof.
  apply (C10_assign_priority_band_works_on_copy scored_world 1%positive scored_table).
  reflexivity.
Defined.

(** ** C9: the 180-day window does not reach the model *)

Lemma select_columns_ext (cols : list string) (f1 f2 : Frame) :
  (forall c, In c cols -> lookup_col c f1 = lookup_col c f2) ->
  select_columns cols f1 = select_columns cols f2.
Proof.
  unfold select_columns. induction cols as [|c cols IH]; intros Hsame; simpl; [done|].
  rewrite (Hsame c) by (by left). rewrite IH; [done|].
  intros d Hd. apply Hsame. by right.
Qed.

(** C9: two tables with the same rows that differ only in the cells of
    [spend_180d] and [orders_180d] are scored alike: [train_and_score]
    raises the same exception on both, or returns the same AUC and the
    same [churn_risk] column. *)
Theorem C9_window_180d_has_no_influence `{Sklearn}
    (w1 w2 : world) (df1 df2 : loc) (f1 f2 : Frame) :
  heap w1 !! df1 = Some f1 ->
  heap w2 !! df2 = Some f2 ->
  nrows f1 = nrows f2 ->
  (forall c, ~ In c window_180d -> lookup_col c f1 = lookup_col c f2) ->
  match fst (Churn.train_and_score df1 w1), fst (Churn.train_and_score df2 w2) with
  | Ok (out1, auc1), Ok (out2, auc2) =>
      auc1 = auc2 /\
      exists g1 g2 risk,
        heap (snd (Churn.train_and_score df1 w1)) !! out1 = Some g1 /\
        heap (snd (Churn.train_and_score df2 w2)) !! out2 = Some g2 /\
        lookup_col "churn_risk" g1 = Some risk /\
        lookup_col "churn_risk" g2 = Some risk
  | Raise e1, Raise e2 => e1 = e2
  | _, _ => False
  end.
Proof.
  intros Hf1 Hf2 Hrows Hsame.
  assert (HX : select_columns (Churn.feature_cols_num ++ Churn.feature_cols_cat) f1
               = select_columns (Churn.feature_cols_num ++ Churn.feature_cols_cat) f2).
  { apply select_columns_ext. intros c Hc. apply Hsame. intros Hw.
    unfold window_180d in Hw. simpl in Hc, Hw.
    intuition (subst; discriminate). }
  assert (Hy : column f1 "churned" = column f2 "churned").
  { unfold column. rewrite (Hsame "churned"); [done|].
    unfold window_180d. simpl. intuition discriminate. }
  unfold Churn.train_and_score.
  rewrite (deref_bind _ _ _ _ Hf1), (deref_bind _ _ _ _ Hf2), !lift_bind, HX.
  destruct (select_columns _ f2) as [X|e]; [|done].
  rewrite !lift_bind, Hy. destruct (column f2 "churned") as [y|e]; [|done].
  rewrite !lift_bind. destruct (train_test_split X y _ _) as [parts|e]; [|done].
  rewrite !lift_bind. destruct (Churn.take_rows (fst parts) X) as [X_train|e]; [|done].
  rewrite !lift_bind. destruct (Churn.take_rows (snd parts) X) as [X_test|e]; [|done].
  rewrite !lift_bind. destruct (Churn.take_cells (fst parts) y) as [y_train|e]; [|done].
  rewrite !lift_bind. destruct (Churn.take_cells (snd parts) y) as [y_test|e]; [|done].
  rewrite !lift_bind. destruct (Churn.clf_fit X_train y_train) as [clf|e]; [|done].
  rewrite !tell_bind, !lift_bind. destruct (predict_proba clf X_test) as [proba|e]; [|done].
  rewrite !lift_bind. destruct (roc_auc_score y_test proba) as [auc|e]; [|done].
  rewrite (df_copy_bind _ _ f1), (df_copy_bind _ _ f2) by done.
  rewrite !lift_bind. destruct (predict_proba clf X) as [risk|e]; [|done].
  rewrite !tell_bind.
  rewrite (on_bind _ _ _ _ f1), (on_bind _ _ _ _ f2) by (cbn [heap]; apply lookup_insert_eq).
  unfold setitem_array. rewrite Hrows.
  destruct (Nat.eqb (length risk) (nrows f2)); [|done].
  cbn [ret fst snd heap]. split; [done|].
  exists (assign_col "churn_risk" risk f1), (assign_col "churn_risk" risk f2), risk.
  rewrite !lookup_insert_eq, !lookup_assign_same. done.
Qed.

Lemma C9_window_180d_witness :
  match fst (@Churn.train_and_score toy_sklearn 1%positive
               (World {[ 1%positive := prepared_table ]} ∅ [])),
        fst (@Churn.train_and_score toy_sklearn 1%positive
               (World {[ 1%positive := prepared_table_other_window ]} ∅ []))
  with
  | Ok (out1, auc1), Ok (out2, auc2) =>
      auc1 = auc2 /\
      exists g1 g2 risk,
        heap (snd (@Churn.train_and_score toy_sklearn 1%positive
                     (World {[ 1%positive := prepared_table ]} ∅ []))) !! out1
          = Some g1 /\
        heap (snd (@Churn.train_and_score toy_sklearn 1%positive
                     (World {[ 1%positive := prepared_table_other_window ]} ∅ []))) !! out2
          = Some g2 /\
        lookup_col "churn_risk" g1 = Some risk /\
        lookup_col "churn_risk" g2 = Some risk
  | Raise e1, Raise e2 => e1 = e2
  | _, _ => False
  end.
Proof.
  apply (@C9_window_180d_has_no_influence toy_sklearn
           (World {[ 1%positive := prepared_table ]} ∅ [])
           (World {[ 1%positive := prepared_table_other_window ]} ∅ [])
           1%positive 1%positive
           prepared_table prepared_table_other_window).
  - reflexivity.
  - reflexivity.
  - reflexivity.
  - intros c Hc. unfold prepared_table_other_window.
    rewrite !lookup_assign_other; [done| |]; intros <-; apply Hc; simpl; tauto.
Defined.

(** ** Runs that stop on their input *)

(** The coercion loop stops at the first listed column that the table
    does not have. *)
Lemma for_each_rewrite_missing (g : Series -> Series) (cols : list string) :
  forall (df : Frame) (c : string),
  In c cols -> lookup_col c df = None ->
  exists c' df',
    In c' cols /\ lookup_col c' df = None /\
    for_each cols (fun col => s <- getitem col ;; setitem col (g s)) df
      = (Raise (KeyError c'), df').
Proof.
  induction cols as [|x xs IH]; intros df c Hc Hmiss; [destruct Hc|].
  simpl. destruct (lookup_col x df) as [s|] eqn:Ex.
  - assert (Hcx : c <> x) by congruence.
    destruct Hc as [->|Hc]; [done|].
    destruct (IH (assign_col x (g s) df) c Hc) as (c' & df' & Hc' & Hmiss' & Hrun).
    { rewrite lookup_assign_other; [done|congruence]. }
    exists c', df'.
    assert (Hne : x <> c').
    { intros ->. by rewrite lookup_assign_same in Hmiss'. }
    rewrite lookup_assign_other in Hmiss' by done.
    split; [by right|]. split; [done|].
    unfold bind at 1. unfold bind at 1. unfold getitem at 1. rewrite Ex.
    exact Hrun.
  - exists x, df. split; [by left|]. split; [done|].
    unfold bind at 1. unfold bind at 1. unfold getitem at 1. by rewrite Ex.
Qed.





Section Failing_runs.
Context `{Numerics} `{Database} `{Sklearn}.



End Failing_runs.



(** ** C4: what is computed before the first write, and what is written *)

Lemma no_write_app (t1 t2 : list event) :
  no_write t1 = true -> no_write t2 = true -> no_write (t1 ++ t2) = true.
Proof. unfold no_write. rewrite forallb_app. by intros -> ->. Qed.

Lemma quiet_ret {A} (a : A) : quiet (ret a).
Proof. intros w. split; [done|]. exists []. by rewrite app_nil_r. Qed.

Lemma quiet_lift {A} (r : result A) : quiet (lift r).
Proof. intros w. split; [done|]. exists []. by rewrite app_nil_r. Qed.

Lemma quiet_tell (ev : event) : is_write ev = false -> quiet (tell ev).
Proof.
  intros Hev w. split; [done|]. exists [ev]. split; [done|].
  unfold no_write. simpl. by rewrite Hev.
Qed.

Lemma quiet_deref (l : loc) : quiet (deref l).
Proof.
  intros w. unfold deref. destruct (heap w !! l); (split; [done|]);
    exists []; by rewrite app_nil_r.
Qed.

Lemma quiet_alloc (f : Frame) : quiet (alloc f).
Proof. intros w. split; [done|]. exists []. simpl. by rewrite app_nil_r. Qed.

Lemma quiet_on {A} (l : loc) (m : St Frame A) : quiet (on l m).
Proof.
  intros w. unfold on. destruct (heap w !! l) as [f|]; [destruct (m f)|];
    (split; [done|]); exists []; simpl; by rewrite app_nil_r.
Qed.

Lemma quiet_bind {A B} (m : M A) (k : A -> M B) :
  quiet m -> (forall a, quiet (k a)) -> quiet (bind m k).
Proof.
  intros Hm Hk w. unfold bind. destruct (Hm w) as (Hdb & t & Ht & Hnw).
  destruct (m w) as [[a|e] w1]; simpl in *.
  - destruct (Hk a w1) as (Hdb' & t' & Ht' & Hnw').
    split; [congruence|]. exists (t ++ t')%list.
    split; [by rewrite Ht', Ht, app_assoc | by apply no_write_app].
  - split; [done|]. by exists t.
Qed.

Lemma quiet_df_copy (l : loc) : quiet (df_copy l).
Proof. apply quiet_bind; [apply quiet_deref | apply quiet_alloc]. Qed.

Lemma quiet_new_from (l : loc) (g : Frame -> result Frame) : quiet (new_from l g).
Proof.
  apply quiet_bind; [apply quiet_deref|]. intros f.
  apply quiet_bind; [apply quiet_lift | apply quiet_alloc].
Qed.

Lemma quiet_read_sql `{Database} (q : string) : quiet (read_sql q).
Proof.
  intros w. unfold read_sql. destruct (run_query q (db w)); (split; [done|]);
    exists []; simpl; by rewrite app_nil_r.
Qed.

Lemma quiet_assign_priority_band `{Numerics} (l : loc) : quiet (Churn.assign_priority_band l).
Proof.
  apply quiet_bind; [apply quiet_df_copy|]. intros l'.
  apply quiet_bind; [apply quiet_on | intros _; apply quiet_ret].
Qed.

Lemma writes_last_bind_quiet {A} (tables : list string) (m : M A) (k : A -> M unit) :
  tables <> [] ->
  quiet m -> (forall a, writes_last tables (k a)) -> writes_last tables (bind m k).
Proof.
  intros Htables Hm Hk w. unfold bind. destruct (Hm w) as (Hdb & t & Ht & Hnw).
  destruct (m w) as [[a|e] w1]; simpl in *.
  - destruct (Hk a w1) as (t' & done & rest & Hnw' & Ht' & Hdb' & Htab & Hok).
    exists (t ++ t')%list, done, rest.
    split; [by apply no_write_app|].
    split; [by rewrite Ht', Ht, <- !app_assoc|].
    split; [by rewrite Hdb', Hdb|]. done.
  - exists t, [], tables. split; [done|]. simpl. rewrite app_nil_r.
    split; [done|]. split; [done|]. split; [done|].
    split; [discriminate | done].
Qed.

Ltac quiet_step :=
  first
    [ apply quiet_ret | apply quiet_lift | apply quiet_deref | apply quiet_alloc
    | apply quiet_on | apply quiet_df_copy | apply quiet_new_from
    | apply quiet_read_sql | apply quiet_assign_priority_band
    | apply quiet_tell; reflexivity
    | apply quiet_bind; [|intros ?] ].

Ltac quiet_steps := repeat quiet_step.

Ltac impossible_iff :=
  first [ split; intros Hx; discriminate Hx | intros Hx; discriminate Hx ].

Section Runs.
Context `{Numerics} `{Database} `{Sklearn}.

Lemma quiet_choose_k_loop (X : Frame) (ks : list nat) :
  quiet (Segmentation.choose_k_loop X ks).
Proof. induction ks as [|k ks IH]; simpl; [apply quiet_ret|]. quiet_steps. exact IH. Qed.

Lemma quiet_fit_kmeans (X : Frame) (n : nat) : quiet (Segmentation.fit_kmeans X n).
Proof. unfold Segmentation.fit_kmeans. quiet_steps. Qed.

Lemma quiet_load_training_frame : quiet Churn.load_training_frame.
Proof. unfold Churn.load_training_frame. quiet_steps. Qed.

Lemma quiet_train_and_score (df : loc) : quiet (Churn.train_and_score df).
Proof. unfold Churn.train_and_score. quiet_steps. Qed.

Lemma writes_last_to_sql (table : string) (f : Frame) :
  writes_last [table] (to_sql table f).
Proof.
  intros w. unfold to_sql. destruct (sink_accepts (db w) table f).
  - exists [], [(table, f)], []. simpl. repeat (split; [done|]). done.
  - exists [], [], [table]. simpl. rewrite app_nil_r. repeat (split; [done|]).
    impossible_iff.
Qed.

(** The two writes that end the segmentation script. *)
Lemma writes_last_segmentation_tail (df_out : Frame) (prof : loc) :
  writes_last ["analytics.customer_segments"; "analytics.segment_profile"]
    (Segmentation.write_segments df_out ;;
     p <- deref prof ;;
     to_sql "analytics.segment_profile" p).
Proof.
  intros w. unfold Segmentation.write_segments, bind, deref, to_sql.
  destruct (sink_accepts (db w) "analytics.customer_segments" df_out).
  - cbn [heap db trace]. destruct (heap w !! prof) as [p|].
    + destruct (sink_accepts _ "analytics.segment_profile" p).
      * exists [], [("analytics.customer_segments", df_out); ("analytics.segment_profile", p)], [].
        simpl. rewrite <- app_assoc. repeat (split; [done|]). done.
      * exists [], [("analytics.customer_segments", df_out)], ["analytics.segment_profile"].
        simpl. repeat (split; [done|]). impossible_iff.
    + exists [], [("analytics.customer_segments", df_out)], ["analytics.segment_profile"].
      simpl. repeat (split; [done|]). impossible_iff.
  - exists [], [], ["analytics.customer_segments"; "analytics.segment_profile"].
    simpl. rewrite app_nil_r. repeat (split; [done|]). impossible_iff.
Qed.

Lemma writes_last_segmentation_main :
  writes_last ["analytics.customer_segments"; "analytics.segment_profile"]
    Segmentation.main.
Proof.
  unfold Segmentation.main, Segmentation.load_rfm, Segmentation.choose_k.
  repeat (apply writes_last_bind_quiet;
          [discriminate
          | solve [ apply quiet_choose_k_loop | apply quiet_fit_kmeans | quiet_steps ]
          | intros ? ]).
  apply writes_last_segmentation_tail.
Qed.

Lemma writes_last_churn_main :
  writes_last ["analytics.customer_churn_scores"] Churn.main.
Proof.
  unfold Churn.main, Churn.write_back.
  repeat (apply writes_last_bind_quiet;
          [discriminate
          | solve [ apply quiet_load_training_frame | apply quiet_train_and_score
                  | quiet_steps ]
          | intros ? ]).
  apply writes_last_to_sql.
Qed.

End Runs.

Lemma emits_ret {A} (a : A) : emits [] (ret a).
Proof. intros w. simpl. by rewrite app_nil_r. Qed.

Lemma emits_lift {A} (r : result A) : emits [] (lift r).
Proof. intros w. destruct r; simpl; [by rewrite app_nil_r|done]. Qed.

Lemma emits_tell (ev : event) : emits [ev] (tell ev).
Proof. by intros w. Qed.

Lemma emits_deref (l : loc) : emits [] (deref l).
Proof.
  intros w. unfold deref. destruct (heap w !! l); simpl; [by rewrite app_nil_r|done].
Qed.

Lemma emits_alloc (f : Frame) : emits [] (alloc f).
Proof. intros w. simpl. by rewrite app_nil_r. Qed.

Lemma emits_on {A} (l : loc) (m : St Frame A) : emits [] (on l m).
Proof.
  intros w. unfold on. destruct (heap w !! l) as [f|]; [|done].
  destruct (m f) as [[a|e] f']; simpl; [by rewrite app_nil_r|done].
Qed.

Lemma emits_bind {A B} (t1 t2 : list event) (m : M A) (k : A -> M B) :
  emits t1 m -> (forall a, emits t2 (k a)) -> emits (t1 ++ t2) (bind m k).
Proof.
  intros Hm Hk w. unfold bind. specialize (Hm w).
  destruct (m w) as [[a|e] w1]; simpl in *; [|done].
  specialize (Hk a w1). destruct (k a w1) as [[b|e] w2]; simpl in *; [|done].
  by rewrite Hk, Hm, app_assoc.
Qed.

Lemma emits_as {A} (t t' : list event) (m : M A) : emits t' m -> t' = t -> emits t m.
Proof. by intros Hm <-. Qed.

Lemma emits_to_sql `{Database} (table : string) (f : Frame) :
  emits [Written table] (to_sql table f).
Proof. intros w. unfold to_sql. by destruct (sink_accepts (db w) table f). Qed.

Lemma emits_read_sql `{Database} (q : string) : emits [] (read_sql q).
Proof.
  intros w. unfold read_sql. destruct (run_query q (db w)); simpl; [by rewrite app_nil_r|done].
Qed.

Ltac emits_step :=
  first
    [ apply emits_ret | apply emits_lift | apply emits_deref | apply emits_alloc
    | apply emits_on | apply emits_tell | apply emits_to_sql | apply emits_read_sql
    | eapply emits_bind; [|intros ?] ].

Ltac emits_steps := repeat emits_step.

Section Traces.
Context `{Numerics} `{Database} `{Sklearn}.

Lemma emits_choose_k_loop (X : Frame) (ks : list nat) :
  emits (repeat (Fitted "KMeans") (length ks)) (Segmentation.choose_k_loop X ks).
Proof.
  induction ks as [|k ks IH]; simpl; [apply emits_ret|].
  eapply emits_as.
  - eapply emits_bind; [apply emits_lift|]. intros labels.
    eapply emits_bind; [apply emits_tell|]. intros _.
    eapply emits_bind; [apply emits_lift|]. intros score.
    eapply emits_bind; [exact IH|]. intros scores. apply emits_ret.
  - simpl. by rewrite app_nil_r.
Qed.

(** A segmentation run that returns has fitted the scaler, the nine
    candidate clusterings and the final one, and then written its two
    tables. *)
Lemma emits_segmentation_main :
  emits ([Fitted "StandardScaler"] ++ repeat (Fitted "KMeans") 10 ++
         [Written "analytics.customer_segments"; Written "analytics.segment_profile"])
    Segmentation.main.
Proof.
  eapply emits_as.
  - unfold Segmentation.main, Segmentation.load_rfm, Segmentation.choose_k,
      Segmentation.fit_kmeans, Segmentation.write_segments, new_from.
    repeat first [ apply emits_choose_k_loop | emits_step ].
  - reflexivity.
Qed.

(** A churn run that returns has fitted the classifier, scored the
    population and then written its table. *)
Lemma emits_churn_main :
  emits [Fitted "LogisticRegression"; Scored "LogisticRegression";
         Written "analytics.customer_churn_scores"]
    Churn.main.
Proof.
  eapply emits_as.
  - unfold Churn.main, Churn.load_training_frame, Churn.train_and_score,
      Churn.assign_priority_band, Churn.write_back, df_copy.
    emits_steps.
  - reflexivity.
Qed.

End Traces.

(** As worded, the claim has every run either return normally or leave
    the database untouched.  With a server that refuses to replace
    [analytics.segment_profile], the segmentation run raises after
    [analytics.customer_segments] has been replaced. *)
Lemma C4_segmentation_stops_between_its_writes :
  ~ (forall (N : Numerics) (D : Database) (S : Sklearn) (w : world),
       fst (@Segmentation.main N D S w) = Ok tt \/
       db (snd (@Segmentation.main N D S w)) = db w).
Proof.
  intros Hclaim.
  specialize (Hclaim toy_numerics locked_profile_database toy_sklearn (start feature_store)).
  assert (Hr : fst (@Segmentation.main toy_numerics locked_profile_database toy_sklearn
                      (start feature_store))
               = Raise (OperationalError "analytics.segment_profile"))
    by (vm_compute; reflexivity).
  assert (Hd : db (snd (@Segmentation.main toy_numerics locked_profile_database toy_sklearn
                          (start feature_store))) !! "analytics.customer_segments" <> None)
    by (vm_compute; discriminate).
  assert (Hd0 : db (start feature_store) !! "analytics.customer_segments" = None)
    by (vm_compute; reflexivity).
  destruct Hclaim as [Hok|Hsame].
  - rewrite Hr in Hok. clear - Hok. discriminate Hok.
  - rewrite Hsame in Hd. clear - Hd Hd0. contradiction.
Qed.

(** C4, amended: in every run of either script the events that are not
    writes (the fits and the scoring among them) all come before the first
    write.  The churn run either raises with the database untouched, or
    returns having fitted, scored and then replaced its one table.  The
    segmentation run either raises with the database untouched, or raises
    with only [analytics.customer_segments] replaced, or returns having
    done all its fits and then replaced both tables, in that order. *)
Theorem C4_computation_precedes_writes `{Numerics} `{Database} `{Sklearn} :
  (forall w : world,
     exists t, no_write t = true /\
       ((exists e, fst (Segmentation.main w) = Raise e /\
                   db (snd (Segmentation.main w)) = db w /\
                   trace (snd (Segmentation.main w)) = (trace w ++ t)%list) \/
        (exists e segments,
           fst (Segmentation.main w) = Raise e /\
           db (snd (Segmentation.main w))
             = <["analytics.customer_segments" := segments]> (db w) /\
           trace (snd (Segmentation.main w))
             = (trace w ++ t ++ [Written "analytics.customer_segments"])%list) \/
        (exists segments profile,
           fst (Segmentation.main w) = Ok tt /\
           db (snd (Segmentation.main w))
             = <["analytics.segment_profile" := profile]>
                 (<["analytics.customer_segments" := segments]> (db w)) /\
           t = Fitted "StandardScaler" :: repeat (Fitted "KMeans") 10 /\
           trace (snd (Segmentation.main w))
             = (trace w ++ t ++ [Written "analytics.customer_segments";
                                 Written "analytics.segment_profile"])%list))) /\
  (forall w : world,
     exists t, no_write t = true /\
       ((exists e, fst (Churn.main w) = Raise e /\
                   db (snd (Churn.main w)) = db w /\
                   trace (snd (Churn.main w)) = (trace w ++ t)%list) \/
        (exists scores,
           fst (Churn.main w) = Ok tt /\
           db (snd (Churn.main w))
             = <["analytics.customer_churn_scores" := scores]> (db w) /\
           t = [Fitted "LogisticRegression"; Scored "LogisticRegression"] /\
           trace (snd (Churn.main w))
             = (trace w ++ t ++ [Written "analytics.customer_churn_scores"])%list))).
Proof.
  split; intros w.
  - destruct (writes_last_segmentation_main w)
      as (t & done & rest & Hnw & Ht & Hdb & Htab & Hok).
    pose proof (emits_segmentation_main w) as Hem.
    exists t. split; [done|].
    destruct (fst (Segmentation.main w)) as [[]|e] eqn:Er.
    + right; right. destruct Hok as [Hok _]. rewrite (Hok eq_refl), app_nil_r in Htab.
      destruct done as [|[n1 f1] [|[n2 f2] [|? ?]]]; try discriminate.
      simpl in Htab. inversion Htab; subst n1 n2. exists f1, f2.
      repeat (split; [done|]). split; [|done].
      rewrite Ht in Hem. apply app_inv_head in Hem. simpl in Hem.
      by apply (app_inv_tail [Written "analytics.customer_segments";
                              Written "analytics.segment_profile"]).
    + destruct done as [|[n1 f1] [|[n2 f2] [|? ?]]]; simpl in Htab; try discriminate.
      * left. exists e. simpl in Ht. by rewrite app_nil_r in Ht.
      * right; left. inversion Htab; subst n1. by exists e, f1.
      * inversion Htab; subst. destruct Hok as [_ Hok]. by specialize (Hok eq_refl).
  - destruct (writes_last_churn_main w)
      as (t & done & rest & Hnw & Ht & Hdb & Htab & Hok).
    pose proof (emits_churn_main w) as Hem.
    exists t. split; [done|].
    destruct (fst (Churn.main w)) as [[]|e] eqn:Er.
    + right. destruct Hok as [Hok _]. rewrite (Hok eq_refl), app_nil_r in Htab.
      destruct done as [|[n1 f1] [|? ?]]; try discriminate.
      simpl in Htab. inversion Htab; subst n1. exists f1.
      repeat (split; [done|]). split; [|done].
      rewrite Ht in Hem. apply app_inv_head in Hem. simpl in Hem.
      by apply (app_inv_tail [Written "analytics.customer_churn_scores"]).
    + destruct done as [|[n1 f1] [|? ?]]; simpl in Htab; try discriminate.
      * left. exists e. simpl in Ht. by rewrite app_nil_r in Ht.
      * inversion Htab; subst. destruct Hok as [_ Hok]. by specialize (Hok eq_refl).
Qed.

(** ** Sorting, and the order statistics of pairwise different numbers *)

Lemma insert_sorted_perm (x : Q) (l : list Q) :
  Permutation (insert_sorted x l) (x :: l).
Proof.
  induction l as [|y l IH]; simpl; [done|].
  destruct (Qle_bool x y); [done|].
  rewrite IH. apply perm_swap.
Qed.

Lemma sort_values_perm (l : list Q) : Permutation (sort_values l) l.
Proof.
  induction l as [|x l IH]; simpl; [done|].
  rewrite insert_sorted_perm. by constructor.
Qed.

Lemma insert_sorted_sorted (x : Q) (l : list Q) :
  StronglySorted Qle l -> StronglySorted Qle (insert_sorted x l).
Proof.
  induction 1 as [|y l Hl IH Hy]; simpl; [repeat constructor|].
  destruct (Qle_bool x y) eqn:E.
  - apply Qle_bool_iff in E. constructor; [by constructor|].
    constructor; [done|].
    eapply Forall_impl; [exact Hy|]. intros z Hz. by apply Qle_trans with y.
  - constructor; [done|].
    assert (Hyx : (y <= x)%Q).
    { apply Qlt_le_weak, Qnot_le_lt. intros Hxy. apply Qle_bool_iff in Hxy. congruence. }
    rewrite (insert_sorted_perm x l). by constructor.
Qed.

Lemma sort_values_sorted (l : list Q) : StronglySorted Qle (sort_values l).
Proof.
  induction l as [|x l IH]; simpl; [constructor|]. by apply insert_sorted_sorted.
Qed.

Lemma all_distinct_NoDupA (l : list Q) : all_distinct l = true <-> NoDupA Qeq l.
Proof.
  induction l as [|x l IH]; simpl; [split; [constructor|done]|].
  rewrite andb_true_iff, IH, forallb_forall. split.
  - intros [Hx Hl]. constructor; [|done]. intros Hin.
    apply InA_alt in Hin as (y & Hxy & Hy). specialize (Hx y Hy).
    apply negb_true_iff in Hx. apply Qeq_bool_iff in Hxy. congruence.
  - intros Hnd. inversion Hnd as [|? ? Hx Hl]; subst. split; [|done].
    intros y Hy. apply negb_true_iff. destruct (Qeq_bool x y) eqn:E; [|done].
    exfalso. apply Hx, InA_alt. exists y. split; [by apply Qeq_bool_iff | done].
Qed.

Lemma sort_values_distinct (l : list Q) :
  all_distinct l = true -> NoDupA Qeq (sort_values l).
Proof.
  intros Hl. apply all_distinct_NoDupA in Hl.
  eapply PermutationA_preserves_NoDupA; [apply Q_Setoid| |exact Hl].
  apply Permutation_PermutationA; [apply Q_Setoid|].
  symmetry. apply sort_values_perm.
Qed.

Lemma sorted_distinct_strict (l : list Q) :
  StronglySorted Qle l -> NoDupA Qeq l -> StronglySorted Qlt l.
Proof.
  induction 1 as [|x l Hl IH Hx]; intros Hnd; [constructor|].
  inversion Hnd as [|? ? Hnx Hndl]; subst. constructor; [by apply IH|].
  apply Forall_forall. intros y Hy. rewrite Forall_forall in Hx.
  destruct (proj1 (Qle_lteq x y) (Hx y Hy)) as [Hlt|Heq]; [done|].
  exfalso. apply Hnx, InA_alt. exists y. split; [done | by apply list_elem_of_In].
Qed.

Lemma sorted_nth {R : Q -> Q -> Prop} (l : list Q) (i j : nat) :
  StronglySorted R l -> i < j -> j < length l -> R (nth i l 0%Q) (nth j l 0%Q).
Proof.
  intros Hl. revert i j. induction Hl as [|x l Hl IH Hx]; intros i j Hij Hj;
    simpl in Hj; [lia|].
  destruct j as [|j]; [lia|]. destruct i as [|i]; simpl.
  - rewrite Forall_forall in Hx. apply Hx, list_elem_of_In, nth_In. lia.
  - apply IH; lia.
Qed.

Lemma sorted_nth_le (l : list Q) (i j : nat) :
  StronglySorted Qlt l -> i <= j -> j < length l ->
  (nth i l 0 <= nth j l 0)%Q.
Proof.
  intros Hl Hij Hj. destruct (decide (i = j)) as [->|Hne]; [apply Qle_refl|].
  apply Qlt_le_weak, sorted_nth; [done|lia|done].
Qed.

(** ** Tertile edges of a strictly increasing list *)

Lemma interpolate_lower (a b t : Q) :
  (0 <= t)%Q -> (a <= b)%Q -> (a <= a + t * (b - a))%Q.
Proof.
  intros Ht Hab. assert (0 <= t * (b - a))%Q; [|lra].
  apply Qmult_le_0_compat; lra.
Qed.

Lemma interpolate_upper (a b t : Q) :
  (t < 1)%Q -> (a < b)%Q -> (a + t * (b - a) < b)%Q.
Proof.
  intros Ht Hab. assert (t * (b - a) < 1 * (b - a))%Q; [|lra].
  apply Qmult_lt_compat_r; lra.
Qed.

Lemma interpolate_strict (a b t t' : Q) :
  (t < t')%Q -> (a < b)%Q -> (a + t * (b - a) < a + t' * (b - a))%Q.
Proof.
  intros Ht Hab. assert (t * (b - a) < t' * (b - a))%Q; [|lra].
  apply Qmult_lt_compat_r; lra.
Qed.

Lemma thirds_bounds (r : nat) :
  r < 3 -> (0 <= inject_Z (Z.of_nat r) / inject_Z (Z.of_nat 3) < 1)%Q.
Proof.
  intros Hr. destruct r as [|[|[|r]]]; [| | |lia]; split; vm_compute; congruence.
Qed.

Lemma thirds_strict (r r' : nat) :
  r < r' -> r' < 3 ->
  (inject_Z (Z.of_nat r) / inject_Z (Z.of_nat 3)
   < inject_Z (Z.of_nat r') / inject_Z (Z.of_nat 3))%Q.
Proof.
  intros Hr Hr'. destruct r as [|[|[|r]]], r' as [|[|[|r']]]; try lia; vm_compute; congruence.
Qed.

Section Tertile_edges.
Variable s : list Q.
Hypothesis Hsorted : StronglySorted Qlt s.
Hypothesis Hlen : 2 <= length s.

Local Abbreviation lo := (below (length s)).

Lemma below_values :
  lo 0 = 0 /\ lo 1 = (length s - 1) / 3 /\
  lo 2 = 2 * (length s - 1) / 3 /\ lo 3 = length s - 1.
Proof.
  unfold below. repeat split; try done.
  - f_equal. lia.
  - rewrite Nat.mul_comm. apply Nat.div_mul. lia.
Qed.

Lemma below_bound (k : nat) : k <= 3 -> lo k <= length s - 1.
Proof.
  intros Hk. unfold below.
  transitivity (3 * (length s - 1) / 3).
  - apply Nat.Div0.div_le_mono. nia.
  - rewrite Nat.mul_comm, Nat.div_mul; lia.
Qed.

Lemma quantile_value (k : nat) :
  (quantile s k 3 ==
   nth (lo k) s 0
   + inject_Z (Z.of_nat (k * (length s - 1) mod 3)) / inject_Z (Z.of_nat 3)
     * (nth (Nat.min (lo k + 1) (length s - 1)) s 0 - nth (lo k) s 0))%Q.
Proof. unfold quantile, lo. apply Qred_correct. Qed.

Lemma quantile_lower (k : nat) :
  k <= 3 -> (nth (lo k) s 0 <= quantile s k 3)%Q.
Proof.
  intros Hk. rewrite quantile_value. pose proof (below_bound k Hk).
  apply interpolate_lower.
  - apply thirds_bounds, Nat.mod_upper_bound. lia.
  - apply sorted_nth_le; [done|lia|lia].
Qed.

Lemma quantile_upper (k : nat) :
  lo k + 1 < length s -> (quantile s k 3 < nth (lo k + 1) s 0)%Q.
Proof.
  intros Hlo. rewrite quantile_value.
  replace (Nat.min (lo k + 1) (length s - 1)) with (lo k + 1) by lia.
  apply interpolate_upper.
  - apply thirds_bounds, Nat.mod_upper_bound. lia.
  - apply sorted_nth; [done|lia|lia].
Qed.

Lemma quantile_lt_iff (k i : nat) :
  k <= 3 -> i < length s ->
  ((quantile s k 3 < nth i s 0)%Q <-> lo k < i).
Proof.
  intros Hk Hi. split.
  - intros Hlt. destruct (decide (lo k < i)) as [|Hge]; [done|]. exfalso.
    assert (nth i s 0 <= nth (lo k) s 0)%Q.
    { apply sorted_nth_le; [done|lia|]. pose proof (below_bound k Hk). lia. }
    pose proof (quantile_lower k Hk). lra.
  - intros Hlo. apply Qlt_le_trans with (nth (lo k + 1) s 0%Q).
    + apply quantile_upper. lia.
    + apply sorted_nth_le; [done|lia|lia].
Qed.

Lemma quantile_first : (quantile s 0 3 == nth 0 s 0)%Q.
Proof.
  rewrite quantile_value. unfold below.
  change (0 * (length s - 1)) with 0. change (0 mod 3) with 0. change (0 / 3) with 0.
  assert (E : (inject_Z (Z.of_nat 0) / inject_Z (Z.of_nat 3) == 0)%Q) by reflexivity.
  rewrite E. lra.
Qed.

Lemma quantile_strict (k : nat) :
  k < 3 -> (quantile s k 3 < quantile s (k + 1) 3)%Q.
Proof.
  intros Hk.
  assert (Hstep : (k + 1) * (length s - 1) = k * (length s - 1) + (length s - 1)) by lia.
  assert (Hle : lo k <= lo (k + 1)).
  { unfold below. apply Nat.Div0.div_le_mono. lia. }
  destruct (decide (lo k < lo (k + 1))) as [Hlt|Hsame].
  - apply Qlt_le_trans with (nth (lo k + 1) s 0%Q).
    + apply quantile_upper. pose proof (below_bound (k + 1) ltac:(lia)). lia.
    + apply Qle_trans with (nth (lo (k + 1)) s 0%Q).
      * apply sorted_nth_le; [done|lia|].
        pose proof (below_bound (k + 1) ltac:(lia)). lia.
      * apply quantile_lower. lia.
  - assert (Heq : lo (k + 1) = lo k) by lia.
    assert (Hmod : k * (length s - 1) mod 3 < (k + 1) * (length s - 1) mod 3 < 3).
    { unfold below in Heq.
      pose proof (Nat.div_mod_eq (k * (length s - 1)) 3).
      pose proof (Nat.div_mod_eq ((k + 1) * (length s - 1)) 3).
      pose proof (Nat.mod_upper_bound ((k + 1) * (length s - 1)) 3 ltac:(lia)).
      lia. }
    assert (Hroom : lo k + 1 < length s).
    { unfold below in *.
      pose proof (Nat.div_mod_eq ((k + 1) * (length s - 1)) 3). nia. }
    rewrite !quantile_value, Heq.
    replace (Nat.min (lo k + 1) (length s - 1)) with (lo k + 1) by lia.
    apply interpolate_strict.
    + apply thirds_strict; lia.
    + apply sorted_nth; [done|lia|lia].
Qed.

End Tertile_edges.

Lemma Qlt_bool_iff (a b : Q) : Qlt_bool a b = true <-> (a < b)%Q.
Proof.
  unfold Qlt_bool. rewrite negb_true_iff. split.
  - intros Hle. apply Qnot_le_lt. intros Hba. apply Qle_bool_iff in Hba. congruence.
  - intros Hlt. destruct (Qle_bool b a) eqn:E; [|done].
    apply Qle_bool_iff in E. lra.
Qed.

Lemma Qlt_not_eqb (a b : Q) : (a < b)%Q -> negb (Qeq_bool a b) = true.
Proof.
  intros Hlt. apply negb_true_iff. destruct (Qeq_bool a b) eqn:E; [|done].
  apply Qeq_bool_iff in E. lra.
Qed.

Section Tertile_bins.
Variable s : list Q.
Hypothesis Hsorted : StronglySorted Qlt s.
Hypothesis Hlen : 2 <= length s.

Lemma bin_edges_distinct : all_distinct (bin_edges s 3) = true.
Proof.
  pose proof (quantile_strict s Hsorted Hlen 0 ltac:(lia)) as H01.
  pose proof (quantile_strict s Hsorted Hlen 1 ltac:(lia)) as H12.
  pose proof (quantile_strict s Hsorted Hlen 2 ltac:(lia)) as H23.
  simpl in H01, H12, H23. unfold bin_edges. simpl.
  rewrite !Qlt_not_eqb; [done|lra..].
Qed.

Lemma Qlt_bool_quantile (k i : nat) :
  k <= 3 -> i < length s ->
  Qlt_bool (quantile s k 3) (nth i s 0%Q) = Nat.ltb (below (length s) k) i.
Proof.
  intros Hk Hi. destruct (Nat.ltb_spec (below (length s) k) i) as [Hlt|Hge].
  - by apply Qlt_bool_iff, quantile_lt_iff.
  - destruct (Qlt_bool _ _) eqn:E; [|done].
    apply Qlt_bool_iff, quantile_lt_iff in E; [lia|done..].
Qed.

Lemma tertile_cell_nth (i : nat) :
  i < length s ->
  tertile_cell (bin_edges s 3) (Num (nth i s 0%Q)) = tertile_band (length s) i.
Proof.
  intros Hi. unfold tertile_cell, bin_of, searchsorted_left, bin_edges, tertile_band.
  cbn [seq map hd List.filter length].
  rewrite !Qlt_bool_quantile by (done || lia).
  destruct (below_values s Hlen) as (H0 & H1 & H2 & H3).
  pose proof (below_bound s Hlen 1 ltac:(lia)) as Hb1.
  pose proof (below_bound s Hlen 2 ltac:(lia)) as Hb2.
  assert (Hmono : below (length s) 1 <= below (length s) 2).
  { unfold below. apply Nat.Div0.div_le_mono. lia. }
  rewrite H0, H3.
  destruct i as [|i].
  - assert (E : Qeq_bool (nth 0 s 0%Q) (quantile s 0 3) = true).
    { apply Qeq_bool_iff. symmetry. by apply quantile_first. }
    rewrite E. cbn [Nat.eqb length]. by destruct (Nat.leb_spec 0 (below (length s) 1)); [|lia].
  - assert (E : Qeq_bool (nth (S i) s 0%Q) (quantile s 0 3) = false).
    { destruct (Qeq_bool _ _) eqn:E; [|done]. apply Qeq_bool_iff in E.
      rewrite quantile_first in E by done.
      pose proof (sorted_nth s 0 (S i) Hsorted ltac:(lia) Hi). lra. }
    rewrite E.
    replace (Nat.ltb 0 (S i)) with true by (symmetry; apply Nat.ltb_lt; lia).
    replace (Nat.ltb (length s - 1) (S i)) with false by (symmetry; apply Nat.ltb_ge; lia).
    destruct (Nat.ltb_spec (below (length s) 1) (S i)),
      (Nat.ltb_spec (below (length s) 2) (S i)),
      (Nat.leb_spec (S i) (below (length s) 1)),
      (Nat.leb_spec (S i) (below (length s) 2)); try lia; reflexivity.
Qed.

End Tertile_bins.

(** ** Counting the rows of each tertile *)

Lemma count_permutation {A} (P : A -> bool) (l l' : list A) :
  Permutation l l' -> length (List.filter P l) = length (List.filter P l').
Proof.
  induction 1 as [|x l l' _ IH|x y l|l l' l'' _ IH1 _ IH2]; simpl; [done| | |congruence].
  - destruct (P x); simpl; by rewrite IH.
  - by destruct (P x), (P y).
Qed.

Lemma filter_map_length {A B} (P : B -> bool) (f : A -> B) (l : list A) :
  length (List.filter P (map f l)) = length (List.filter (fun x => P (f x)) l).
Proof.
  induction l as [|x l IH]; simpl; [done|]. destruct (P (f x)); simpl; by rewrite IH.
Qed.

Lemma filter_ext_length {A} (P P' : A -> bool) (l : list A) :
  (forall x, In x l -> P x = P' x) ->
  length (List.filter P l) = length (List.filter P' l).
Proof.
  induction l as [|x l IH]; intros Hext; simpl; [done|].
  rewrite (Hext x) by (by left).
  specialize (IH (fun y Hy => Hext y (or_intror Hy))).
  destruct (P' x); simpl; by rewrite IH.
Qed.

Lemma count_upto (a n : nat) :
  length (List.filter (fun i => Nat.leb i a) (seq 0 n)) = Nat.min (S a) n.
Proof.
  induction n as [|n IH]; [done|].
  rewrite seq_S, List.filter_app, length_app, IH. cbn [List.filter Nat.add].
  destruct (Nat.leb_spec n a); cbn [length]; lia.
Qed.

Lemma count_between (a b n : nat) :
  a <= b ->
  length (List.filter (fun i => negb (Nat.leb i a) && Nat.leb i b) (seq 0 n))
  = Nat.min (S b) n - Nat.min (S a) n.
Proof.
  intros Hab. induction n as [|n IH]; [done|].
  rewrite seq_S, List.filter_app, length_app, IH. cbn [List.filter Nat.add].
  destruct (Nat.leb_spec n a), (Nat.leb_spec n b); cbn [negb andb length]; lia.
Qed.

Lemma count_above (b n : nat) :
  length (List.filter (fun i => negb (Nat.leb i b)) (seq 0 n)) = n - Nat.min (S b) n.
Proof.
  induction n as [|n IH]; [done|].
  rewrite seq_S, List.filter_app, length_app, IH. cbn [List.filter Nat.add].
  destruct (Nat.leb_spec n b); cbn [negb length]; lia.
Qed.

Lemma tertile_band_sizes (n : nat) :
  2 <= n ->
  length (List.filter (fun i => eq_num (tertile_band n i) 3) (seq 0 n)) = below n 1 + 1 /\
  length (List.filter (fun i => eq_num (tertile_band n i) 2) (seq 0 n))
    = below n 2 - below n 1 /\
  length (List.filter (fun i => eq_num (tertile_band n i) 1) (seq 0 n))
    = n - 1 - below n 2.
Proof.
  intros Hn.
  assert (H1 : below n 1 <= below n 2).
  { unfold below. apply Nat.Div0.div_le_mono. lia. }
  assert (H2 : below n 2 <= n - 1).
  { unfold below. transitivity (3 * (n - 1) / 3).
    - apply Nat.Div0.div_le_mono. lia.
    - rewrite Nat.mul_comm, Nat.div_mul; lia. }
  repeat split.
  - rewrite (filter_ext_length _ (fun i => Nat.leb i (below n 1))).
    + rewrite count_upto. lia.
    + intros i _. unfold tertile_band.
      by destruct (Nat.leb i (below n 1)), (Nat.leb i (below n 2)).
  - rewrite (filter_ext_length _
               (fun i => negb (Nat.leb i (below n 1)) && Nat.leb i (below n 2))).
    + rewrite count_between by done. lia.
    + intros i _. unfold tertile_band.
      by destruct (Nat.leb i (below n 1)), (Nat.leb i (below n 2)).
  - rewrite (filter_ext_length _ (fun i => negb (Nat.leb i (below n 2)))).
    + rewrite count_above. lia.
    + intros i _. unfold tertile_band.
      destruct (Nat.leb_spec i (below n 1)), (Nat.leb_spec i (below n 2));
        try reflexivity. lia.
Qed.

(** The sizes [(n-1)/3 + 1], [2(n-1)/3 - (n-1)/3] and [n-1 - 2(n-1)/3]
    differ by at most one, and by at most the remainder of [n] by 3. *)
Lemma tertile_sizes_balanced (n : nat) :
  2 <= n ->
  let c3 := below n 1 + 1 in
  let c2 := below n 2 - below n 1 in
  let c1 := n - 1 - below n 2 in
  c1 + c2 + c3 = n /\
  (c1 <= c2 + n mod 3 /\ c1 <= c3 + n mod 3 /\ c2 <= c1 + n mod 3 /\
   c2 <= c3 + n mod 3 /\ c3 <= c1 + n mod 3 /\ c3 <= c2 + n mod 3) /\
  (c1 <= c2 + 1 /\ c1 <= c3 + 1 /\ c2 <= c1 + 1 /\
   c2 <= c3 + 1 /\ c3 <= c1 + 1 /\ c3 <= c2 + 1).
Proof.
  intros Hn. unfold below. replace (1 * (n - 1)) with (n - 1) by lia.
  pose proof (Nat.div_mod_eq (n - 1) 3).
  pose proof (Nat.mod_upper_bound (n - 1) 3 ltac:(lia)).
  pose proof (Nat.div_mod_eq (2 * (n - 1)) 3).
  pose proof (Nat.mod_upper_bound (2 * (n - 1)) 3 ltac:(lia)).
  pose proof (Nat.div_mod_eq n 3).
  pose proof (Nat.mod_upper_bound n 3 ltac:(lia)).
  cbv zeta. lia.
Qed.

(** ** [pd.qcut] into tertiles on pairwise different values *)

Lemma numbers_map_Num (xs : list Q) : numbers (map Num xs) = Ok xs.
Proof. induction xs as [|x xs IH]; simpl; [done|]. by rewrite IH. Qed.

Lemma list_as_nth_seq {A} (d : A) (l : list A) :
  l = map (fun i => nth i l d) (seq 0 (length l)).
Proof.
  induction l as [|x l IH]; simpl; [done|]. f_equal.
  rewrite <- seq_shift, map_map. exact IH.
Qed.

Lemma rmap_id {A} (f : A -> result A) (l : list A) :
  (forall x, In x l -> f x = Ok x) -> rmap f l = Ok l.
Proof.
  induction l as [|x l IH]; intros Hf; simpl; [done|].
  rewrite (Hf x) by (by left). simpl. rewrite IH; [done|].
  intros y Hy. apply Hf. by right.
Qed.

Lemma Qeq_bool_same (x a b : Q) : (a == b)%Q -> Qeq_bool x a = Qeq_bool x b.
Proof.
  intros Hab. destruct (Qeq_bool x a) eqn:Ea, (Qeq_bool x b) eqn:Eb; try done.
  - apply Qeq_bool_iff in Ea. rewrite Hab in Ea. apply Qeq_bool_iff in Ea. congruence.
  - apply Qeq_bool_iff in Eb. rewrite <- Hab in Eb. apply Qeq_bool_iff in Eb. congruence.
Qed.

(** Edges that cut as the exact ones do put every number in the bin the
    exact edges put it in. *)
Lemma bin_of_cuts_exactly `{Numerics} (v : list Q) (m : nat) (x : Q) :
  cuts_exactly v m -> In x v ->
  bin_of (bin_edges64 v m) x = bin_of (bin_edges v m) x.
Proof.
  intros [_ Hsame] Hx. unfold bin_of.
  change (hd 0%Q (bin_edges64 v m)) with (quantile64 v 0 m).
  change (hd 0%Q (bin_edges v m)) with (quantile v 0 m).
  unfold searchsorted_left, bin_edges64, bin_edges.
  rewrite !length_map, !filter_map_length.
  rewrite (Qeq_bool_same x (quantile64 v 0 m) (quantile v 0 m))
    by (rewrite quantile64_first, quantile_zero; reflexivity).
  rewrite (filter_ext_length (fun k => Qlt_bool (quantile64 v k m) x)
             (fun k => Qlt_bool (quantile v k m) x)); [done|].
  intros k Hk. apply in_seq in Hk. apply Hsame; [lia|done].
Qed.

Section Tertiles_of_distinct_values.
Context `{Numerics}.
Variable xs : list Q.
Hypothesis Hdistinct : all_distinct xs = true.
Hypothesis Hmany : 2 <= length xs.
Hypothesis Hcut : cuts_exactly (sort_values xs) 3.

Local Abbreviation sorted_xs := (sort_values xs).
Local Abbreviation bins := (bin_edges (sort_values xs) 3).

Lemma sorted_xs_strict : StronglySorted Qlt sorted_xs.
Proof.
  apply sorted_distinct_strict; [apply sort_values_sorted | by apply sort_values_distinct].
Qed.

Lemma sorted_xs_length : length sorted_xs = length xs.
Proof. apply Permutation_length, sort_values_perm. Qed.

Lemma qcut_tertiles :
  qcut (map Num xs) 3 (Some Churn.tertile_labels)
  = Ok (map (tertile_cell bins) (map Num xs)).
Proof.
  unfold qcut. rewrite numbers_map_Num. cbn [rbind].
  destruct Hcut as [Hd Hsame]. rewrite Hd.
  destruct (length xs) as [|n] eqn:En; [lia|].
  cbn [Nat.eqb orb negb andb].
  change (unique_labels Churn.tertile_labels) with true.
  unfold bin_edges64 at 1. rewrite length_map, length_seq.
  cbn [negb length Churn.tertile_labels Nat.sub Nat.eqb].
  f_equal. unfold cut_cells. apply map_ext_in. intros v Hv.
  apply in_map_iff in Hv as (x & <- & Hx). unfold tertile_cell.
  rewrite (bin_of_cuts_exactly _ 3 x Hcut); [done|].
  apply list_elem_of_In. rewrite sort_values_perm. by apply list_elem_of_In.
Qed.

Lemma tertile_cell_of_member (x : Q) :
  In x xs ->
  exists i, i < length xs /\ nth i sorted_xs 0%Q = x /\
            tertile_cell bins (Num x) = tertile_band (length xs) i.
Proof.
  intros Hx.
  assert (Hs : In x sorted_xs).
  { apply list_elem_of_In. rewrite sort_values_perm. by apply list_elem_of_In. }
  destruct (In_nth _ _ 0%Q Hs) as (i & Hi & <-).
  exists i. rewrite <- sorted_xs_length. split; [done|]. split; [done|].
  apply tertile_cell_nth; [apply sorted_xs_strict| |done].
  rewrite sorted_xs_length. exact Hmany.
Qed.

Lemma tertile_bands_are_integers :
  astype_int (map (tertile_cell bins) (map Num xs))
  = Ok (map (tertile_cell bins) (map Num xs)).
Proof.
  unfold astype_int. apply rmap_id. intros v Hv.
  rewrite map_map in Hv. apply in_map_iff in Hv as (x & <- & Hx).
  destruct (tertile_cell_of_member x Hx) as (i & _ & _ & ->).
  unfold tertile_band.
  by destruct (Nat.leb i (below (length xs) 1)), (Nat.leb i (below (length xs) 2)).
Qed.

Lemma tertile_band_count (b : Q) :
  band_size b (map (tertile_cell bins) (map Num xs))
  = length (List.filter (fun i => eq_num (tertile_band (length xs) i) b)
                        (seq 0 (length xs))).
Proof.
  unfold band_size. rewrite map_map, filter_map_length.
  rewrite <- (count_permutation _ _ _ (sort_values_perm xs)).
  rewrite (list_as_nth_seq 0%Q sorted_xs) at 1.
  rewrite filter_map_length, sorted_xs_length.
  apply filter_ext_length. intros i Hi. apply in_seq in Hi.
  rewrite <- sorted_xs_length. f_equal.
  apply tertile_cell_nth; [apply sorted_xs_strict| |rewrite sorted_xs_length; lia].
  rewrite sorted_xs_length. exact Hmany.
Qed.

Lemma tertile_band_number (n r : nat) :
  exists b : Z, tertile_band n r = Num (inject_Z b) /\ (1 <= b <= 3)%Z /\
    forall r', r <= r' ->
      exists c : Z, tertile_band n r' = Num (inject_Z c) /\ (1 <= c <= b)%Z.
Proof.
  unfold tertile_band.
  assert (Hbelow : below n 1 <= below n 2).
  { unfold below. apply Nat.Div0.div_le_mono. lia. }
  destruct (Nat.leb_spec r (below n 1)); [|destruct (Nat.leb_spec r (below n 2))].
  - exists 3%Z. split; [done|]. split; [lia|]. intros r' Hr'.
    destruct (Nat.leb_spec r' (below n 1)); [|destruct (Nat.leb_spec r' (below n 2))];
      eexists; (split; [reflexivity|lia]).
  - exists 2%Z. split; [done|]. split; [lia|]. intros r' Hr'.
    destruct (Nat.leb_spec r' (below n 1)); [lia|].
    destruct (Nat.leb_spec r' (below n 2)); eexists; (split; [reflexivity|lia]).
  - exists 1%Z. split; [done|]. split; [lia|]. intros r' Hr'.
    destruct (Nat.leb_spec r' (below n 1)); [lia|].
    destruct (Nat.leb_spec r' (below n 2)); [lia|].
    eexists; (split; [reflexivity|lia]).
Qed.

Lemma tertiles_banded_by_rank :
  banded_by_rank xs (map (tertile_cell bins) (map Num xs)).
Proof.
  assert (Hrank : forall i x, xs !! i = Some x ->
            exists r, r < length xs /\ nth r sorted_xs 0%Q = x /\
                      map (tertile_cell bins) (map Num xs) !! i
                        = Some (tertile_band (length xs) r)).
  { intros i x Hx.
    destruct (tertile_cell_of_member x) as (r & Hr & Hnth & Hcell).
    { apply list_elem_of_In. by apply list_elem_of_lookup_2 with i. }
    exists r. split; [done|]. split; [done|].
    by rewrite map_map, lookup_map, Hx, <- Hcell. }
  split; [exact Hrank|].
  intros i j x y Hx Hy Hxy.
  destruct (Hrank i x Hx) as (r & Hr & Hnr & Hi).
  destruct (Hrank j y Hy) as (r' & Hr' & Hnr' & Hj).
  assert (Hrr : r <= r').
  { destruct (Nat.le_gt_cases r r') as [|Hgt]; [done|]. exfalso.
    pose proof (sorted_nth (R := Qlt) sorted_xs r' r sorted_xs_strict Hgt
                  ltac:(rewrite sorted_xs_length; exact Hr)) as Hlt.
    rewrite Hnr, Hnr' in Hlt. lra. }
  destruct (tertile_band_number (length xs) r) as (b & Eb & Hb & Hmono).
  destruct (Hmono r' Hrr) as (c & Ec & Hc).
  exists b, c. rewrite Hi, Hj, Eb, Ec. repeat split; try done; lia.
Qed.

Lemma tertiles_balanced :
  balanced_tertiles (length xs) (map (tertile_cell bins) (map Num xs)).
Proof.
  unfold balanced_tertiles. rewrite !tertile_band_count.
  destruct (tertile_band_sizes (length xs) Hmany) as (E3 & E2 & E1).
  destruct (tertile_sizes_balanced (length xs) Hmany) as (Hsum & Hrem & Hone).
  cbv zeta in Hsum, Hrem, Hone. split; [rewrite E1, E2, E3; lia|].
  intros a b Ha Hb. rewrite !tertile_band_count.
  destruct Ha as [<-|[<-|[<-|[]]]], Hb as [<-|[<-|[<-|[]]]];
    rewrite ?E1, ?E2, ?E3; lia.
Qed.

End Tertiles_of_distinct_values.

(** ** C7: the sizes of the tertile groups *)

Lemma apply_rows_priority_total (df : Frame) (rb vb : Series) :
  lookup_col "risk_band" df = Some rb ->
  lookup_col "value_band" df = Some vb ->
  exists p, apply_rows Churn.priority df = Ok p.
Proof.
  intros Hrb Hvb. unfold apply_rows. apply rmap_total. intros row Hrow.
  unfold rows in Hrow. apply in_map_iff in Hrow as (i & <- & _).
  eexists. apply priority_on_bands; by rewrite row_find_row_at, ?Hrb, ?Hvb.
Qed.

(** With pairwise different risks and pairwise different amounts, cut
    in binary64 as in exact arithmetic, the body of
    [assign_priority_band] runs to the end and the two band columns are
    the tertile cells of the two inputs. *)
Lemma add_priority_bands_distinct `{Numerics} (f : Frame) (risks spends : list Q) :
  lookup_col "churn_risk" f = Some (map Num risks) ->
  lookup_col "monetary" f = Some (map Num spends) ->
  all_distinct risks = true -> all_distinct spends = true ->
  2 <= length risks -> 2 <= length spends ->
  cuts_exactly (sort_values risks) 3 -> cuts_exactly (sort_values spends) 3 ->
  exists f',
    Churn.add_priority_bands f = (Ok tt, f') /\
    lookup_col "risk_band" f'
      = Some (map (tertile_cell (bin_edges (sort_values risks) 3)) (map Num risks)) /\
    lookup_col "value_band" f'
      = Some (map (tertile_cell (bin_edges (sort_values spends) 3)) (map Num spends)).
Proof.
  intros Hr Hm Hdr Hdm Hnr Hnm Hcr Hcm.
  set (rb := map (tertile_cell (bin_edges (sort_values risks) 3)) (map Num risks)).
  set (vb := map (tertile_cell (bin_edges (sort_values spends) 3)) (map Num spends)).
  set (f2 := assign_col "value_band" vb (assign_col "risk_band" rb f)).
  destruct (apply_rows_priority_total f2 rb vb) as [p Hp].
  { unfold f2. rewrite lookup_assign_other by discriminate. apply lookup_assign_same. }
  { apply lookup_assign_same. }
  exists (assign_col "priority_band" p f2). split.
  - unfold Churn.add_priority_bands, getitem.
    unfold bind at 1. rewrite Hr.
    rewrite lift_bind, (qcut_tertiles risks Hnr Hcr).
    rewrite lift_bind, (tertile_bands_are_integers risks Hdr Hnr).
    unfold bind at 1. unfold setitem at 1.
    unfold bind at 1. rewrite lookup_assign_other by discriminate. rewrite Hm.
    rewrite lift_bind, (qcut_tertiles spends Hnm Hcm).
    rewrite lift_bind, (tertile_bands_are_integers spends Hdm Hnm).
    unfold bind at 1. unfold setitem at 1.
    fold rb vb f2. rewrite lift_bind, Hp. reflexivity.
  - rewrite !lookup_assign_other by discriminate. split.
    + unfold f2. rewrite lookup_assign_other by discriminate. apply lookup_assign_same.
    + apply lookup_assign_same.
Qed.

(** As worded, the claim bounds the difference of any two group sizes by
    the remainder of the population count by 3, for every scored
    population.  Nine customers of whom five have spent the same amount
    get value bands of sizes 3, 0 and 6, and 9 leaves no remainder.  (The
    edges of this cut are 0, 1, 4/3 and 4: the second lies between two
    equal amounts and the third well inside the gap from 1 to 2, so the
    bins do not depend on how the interpolation is rounded.) *)
Lemma C7_tied_values_unbalance_the_tertiles :
  ~ (forall (N : Numerics) (w w' : world) (df df' : loc) (f' : Frame) (c : string)
            (bands : Series) (a b : Q),
       Churn.assign_priority_band df w = (Ok df', w') ->
       heap w' !! df' = Some f' ->
       In c ["risk_band"; "value_band"] -> lookup_col c f' = Some bands ->
       In a [1%Q; 2%Q; 3%Q] -> In b [1%Q; 2%Q; 3%Q] ->
       band_size a bands <= band_size b bands + nrows f' mod 3).
Proof.
  intros Hclaim.
  assert (Hrun : @Churn.assign_priority_band toy_numerics 1%positive tied_spend_world
                 = (Ok 2%positive,
                    snd (@Churn.assign_priority_band toy_numerics 1%positive tied_spend_world)))
    by (vm_compute; reflexivity).
  assert (Hout : heap (snd (@Churn.assign_priority_band toy_numerics 1%positive
                              tied_spend_world)) !! 2%positive
                 = Some (snd (@Churn.add_priority_bands toy_numerics tied_spend_table)))
    by (vm_compute; reflexivity).
  assert (Hbands : lookup_col "value_band"
                     (snd (@Churn.add_priority_bands toy_numerics tied_spend_table))
                   = Some [Num 3; Num 3; Num 3; Num 3; Num 3; Num 3; Num 1; Num 1; Num 1])
    by (vm_compute; reflexivity).
  assert (Hrows : nrows (snd (@Churn.add_priority_bands toy_numerics tied_spend_table)) = 9)
    by (vm_compute; reflexivity).
  specialize (Hclaim toy_numerics _ _ _ _ _ "value_band" _ 3%Q 2%Q Hrun Hout
                ltac:(simpl; tauto) Hbands ltac:(simpl; tauto) ltac:(simpl; tauto)).
  rewrite Hrows in Hclaim. clear - Hclaim. vm_compute in Hclaim. lia.
Qed.

(** C7, amended: when the scored population has at least two customers,
    no two of them with the same churn risk and no two with the same
    monetary value, and the binary64 rounding of the bin edges neither
    merges two edges nor moves an edge past a value, then
    [assign_priority_band] returns and, in each of the two bandings, the
    customer whose value is the [r]-th smallest gets band 3 up to the
    first tertile position, band 2 up to the second and band 1 above it:
    band 1 is the highest third, a larger value never has a larger band
    number, and the three groups share out the population with sizes
    that differ by at most one, and by at most the remainder of the
    population count by 3. *)
Theorem C7_tertiles_of_distinct_values `{Numerics}
    (w : world) (df : loc) (f : Frame) (risks spends : list Q) :
  heap w !! df = Some f ->
  lookup_col "churn_risk" f = Some (map Num risks) ->
  lookup_col "monetary" f = Some (map Num spends) ->
  all_distinct risks = true -> all_distinct spends = true ->
  length risks = nrows f -> length spends = nrows f -> 2 <= nrows f ->
  cuts_exactly (sort_values risks) 3 -> cuts_exactly (sort_values spends) 3 ->
  exists df' f' rb vb,
    fst (Churn.assign_priority_band df w) = Ok df' /\
    heap (snd (Churn.assign_priority_band df w)) !! df' = Some f' /\
    lookup_col "risk_band" f' = Some rb /\
    lookup_col "value_band" f' = Some vb /\
    banded_by_rank risks rb /\
    banded_by_rank spends vb /\
    balanced_tertiles (nrows f) rb /\
    balanced_tertiles (nrows f) vb.
Proof.
  intros Hf Hr Hm Hdr Hdm Hlr Hlm Hn Hcr Hcm.
  destruct (add_priority_bands_distinct f risks spends Hr Hm Hdr Hdm)
    as (f' & Hrun & Hrb & Hvb); [lia..|done|done|].
  rewrite (assign_priority_band_run _ _ _ Hf), Hrun. cbn [fst snd heap].
  eexists _, f', _, _. split; [done|]. split; [apply lookup_insert_eq|].
  split; [exact Hrb|]. split; [exact Hvb|].
  split; [apply tertiles_banded_by_rank; [done|lia]|].
  split; [apply tertiles_banded_by_rank; [done|lia]|]. split.
  - rewrite <- Hlr. apply tertiles_balanced; [done|lia].
  - rewrite <- Hlm. apply tertiles_balanced; [done|lia].
Qed.

Lemma C7_tertiles_witness :
  exists df' f' rb vb,
    fst (@Churn.assign_priority_band toy_numerics 1%positive scored_world) = Ok df' /\
    heap (snd (@Churn.assign_priority_band toy_numerics 1%positive scored_world)) !! df'
      = Some f' /\
    lookup_col "risk_band" f' = Some rb /\
    lookup_col "value_band" f' = Some vb /\
    banded_by_rank [0.3; 0.9; 0.5; 0.1]%Q rb /\
    banded_by_rank [100; 20; 30; 5]%Q vb /\
    balanced_tertiles (nrows scored_table) rb /\
    balanced_tertiles (nrows scored_table) vb.
Proof.
  apply (@C7_tertiles_of_distinct_values toy_numerics scored_world 1%positive scored_table
           [0.3; 0.9; 0.5; 0.1]%Q [100; 20; 30; 5]%Q);
    try reflexivity.
  - simpl. lia.
  - split; [vm_compute; reflexivity | intros; reflexivity].
  - split; [vm_compute; reflexivity | intros; reflexivity].
Defined.

(** * Further properties of the scripts *)

(** ** Imputation in [clean_features] *)

Lemma fillna_NaN (t : Series) : fillna t NaN = t.
Proof.
  unfold fillna. induction t as [|v t IH]; simpl; [done|].
  rewrite IH. by destruct v.
Qed.

(** The imputation loop on any one of its columns. *)
Lemma fill_loop_column (fill : Series -> result value) (cols : list string) :
  List.NoDup cols ->
  forall (df df' : Frame) (c : string) (t : Series) (m : value),
  for_each cols (fun col => fill_missing col fill) df = (Ok tt, df') ->
  In c cols -> lookup_col c df = Some t -> fill t = Ok m ->
  lookup_col c df' = Some (fillna t m).
Proof.
  induction 1 as [|x xs Hx Hnd IH]; intros df df' c t m Hrun Hc Ht Hfill; [destruct Hc|].
  simpl in Hrun. apply bind_ok in Hrun as ([] & df1 & Hbody & Hrest).
  destruct (String.eqb_spec x c) as [->|Hne].
  - rewrite (touches_for_each xs xs _
               (fun y Hy => touches_fill_missing y _ _ Hy) _ _ _ Hrest) by done.
    unfold fill_missing, bind, getitem, lift in Hbody. rewrite Ht in Hbody.
    destruct (isna_any t) eqn:Emiss.
    + rewrite Ht, Hfill in Hbody. inversion Hbody; subst df1. apply lookup_assign_same.
    + inversion Hbody; subst df1. by rewrite fillna_full.
  - destruct Hc as [->|Hc]; [done|].
    apply (IH _ _ _ _ _ Hrest Hc); [|done].
    rewrite <- Ht. eapply (touches_fill_missing x fill [x]); [by left|exact Hbody|].
    intros [->|[]]. done.
Qed.

Lemma middle_nonempty (v : list Q) : v <> [] -> exists q, middle v = Num q.
Proof.
  intros Hv. unfold middle. destruct v as [|x v]; [done|]. simpl Nat.eqb.
  destruct (Nat.odd _); by eexists.
Qed.

Lemma numbers_In (s : Series) (xs : list Q) (q : Q) :
  numbers s = Ok xs -> (In (Num q) s <-> In q xs).
Proof.
  revert xs. induction s as [|v s IH]; intros xs Hxs; simpl in Hxs.
  - inversion Hxs. simpl. tauto.
  - destruct v as [|x|t]; [| |discriminate].
    + rewrite <- (IH xs Hxs). simpl. split; [intros [E|E]; [discriminate|done] | tauto].
    + destruct (numbers s) as [ys|] eqn:Ey; [|discriminate]. inversion Hxs; subst xs.
      simpl. rewrite <- (IH ys eq_refl). split.
      * intros [E|E]; [left; congruence | by right].
      * intros [E|E]; [left; congruence | by right].
Qed.

(** When a column holds a number, its median is a number. *)
Lemma median_is_number (s : Series) (m : value) (q : Q) :
  median s = Ok m -> In (Num q) s -> isna m = false.
Proof.
  unfold median. intros Hm Hq. destruct (numbers s) as [xs|] eqn:Exs; [|discriminate].
  simpl in Hm. inversion Hm; subst m.
  destruct (middle_nonempty (sort_values xs)) as [x ->]; [|done].
  intros Hnil. apply (numbers_In s xs q Exs) in Hq.
  apply (Permutation_in _ (Permutation_sym (sort_values_perm xs))) in Hq.
  by rewrite Hnil in Hq.
Qed.

Section Clean_features_imputation.
Context `{Numerics}.

Lemma features_nodup : List.NoDup Segmentation.FEATURES.
Proof.
  unfold Segmentation.FEATURES.
  repeat (constructor; [simpl; intuition discriminate|]). constructor.
Qed.

(** What [clean_features] leaves in a feature column other than the gap
    column: the coerced input with its missing cells filled with the
    column's median. *)
Lemma clean_features_other_column (df df' : Frame) (r : list string) (c : string)
    (s : Series) (m : value) :
  Segmentation.clean_features df = (Ok r, df') ->
  In c Segmentation.FEATURES -> c <> "avg_days_between_orders" ->
  lookup_col c df = Some s ->
  median (to_numeric s) = Ok m ->
  lookup_col c df' = Some (fillna (to_numeric s) m).
Proof.
  intros Hrun Hc Hne Hs Hmed. unfold Segmentation.clean_features in Hrun.
  apply bind_ok in Hrun as ([] & df1 & Hcoerce & Hrun).
  apply bind_ok in Hrun as (s1 & df1' & Hget & Hrun).
  apply bind_ok in Hrun as ([] & df2 & Hset & Hrun).
  apply bind_ok in Hrun as ([] & df3 & Hfill & Hrun).
  apply bind_ok in Hrun as (mo & df4 & Hm & Hrun).
  apply bind_ok in Hrun as (ml & df5 & Hml & Hrun).
  apply bind_ok in Hrun as ([] & df6 & Hsetm & Hrun).
  apply bind_ok in Hrun as (a & df7 & Ha & Hrun).
  apply bind_ok in Hrun as (al & df8 & Hal & Hrun).
  apply bind_ok in Hrun as ([] & df9 & Hseta & Hrun).
  inversion Hrun; subst r df'; clear Hrun.
  assert (H1 : lookup_col c df1 = Some (to_numeric s)).
  { eapply (for_each_rewrite_done to_numeric); eauto using features_nodup. }
  assert (H2 : lookup_col c df2 = Some (to_numeric s)).
  { rewrite (touches_setitem "avg_days_between_orders" _ ["avg_days_between_orders"]
               ltac:(by left) _ _ _ Hset); [|intros [E|[]]; congruence].
    rewrite (touches_getitem _ [] _ _ _ Hget); [exact H1|intros []]. }
  assert (H3 : lookup_col c df3 = Some (fillna (to_numeric s) m)).
  { eapply fill_loop_column; eauto using features_nodup. }
  assert (Hlog : forall x, In x ["monetary_log"; "avg_order_value_log"] -> x <> c).
  { intros x Hx ->. unfold Segmentation.FEATURES in Hc. simpl in Hx, Hc.
    intuition (subst; discriminate). }
  rewrite (touches_setitem "avg_order_value_log" al ["avg_order_value_log"]
             ltac:(by left) _ _ _ Hseta);
    [|intros [E|[]]; apply (Hlog "avg_order_value_log"); simpl; tauto].
  rewrite (touches_lift _ [] _ _ _ Hal); [|intros []].
  rewrite (touches_getitem _ [] _ _ _ Ha); [|intros []].
  rewrite (touches_setitem "monetary_log" ml ["monetary_log"]
             ltac:(by left) _ _ _ Hsetm);
    [|intros [E|[]]; apply (Hlog "monetary_log"); simpl; tauto].
  rewrite (touches_lift _ [] _ _ _ Hml); [|intros []].
  rewrite (touches_getitem _ [] _ _ _ Hm); [|intros []].
  exact H3.
Qed.

(** In the cleaned table a lifetime column other than the gap column
    holds the coerced input with every missing cell replaced by the
    column's median; if the column held a number at all, no cell is left
    missing, and otherwise every cell stays missing. *)
Theorem clean_features_fills_median (df df' : Frame) (r : list string) (c : string)
    (s : Series) :
  Segmentation.clean_features df = (Ok r, df') ->
  In c Segmentation.FEATURES -> c <> "avg_days_between_orders" ->
  lookup_col c df = Some s ->
  exists m out,
    median (to_numeric s) = Ok m /\
    lookup_col c df' = Some out /\
    (forall i v, to_numeric s !! i = Some v -> out !! i = Some (if isna v then m else v)) /\
    ((exists q, In (Num q) (to_numeric s)) -> isna_any out = false) /\
    ((forall q, ~ In (Num q) (to_numeric s)) -> m = NaN /\ out = to_numeric s).
Proof.
  intros Hrun Hc Hne Hs.
  destruct (median_total (to_numeric s) (to_numeric_no_string s)) as (m & Hmed & _).
  exists m, (fillna (to_numeric s) m). split; [done|].
  split; [by eapply clean_features_other_column|].
  split; [intros i v Hv; by apply fillna_lookup|]. split.
  - intros [q Hq]. apply isna_any_fillna. by eapply median_is_number.
  - intros Hnone. assert (m = NaN) as ->; [|by rewrite fillna_NaN].
    unfold median in Hmed.
    destruct (numbers (to_numeric s)) as [xs|] eqn:Exs; [|discriminate].
    destruct xs as [|x xs]; [by inversion Hmed|].
    exfalso. apply (Hnone x), (numbers_In _ _ _ Exs). by left.
Qed.

End Clean_features_imputation.

Lemma clean_features_fills_median_witness :
  exists m out,
    median (@to_numeric toy_numerics [Num 10; Num 20; Num 30; NaN]) = Ok m /\
    lookup_col "frequency" (snd (@Segmentation.clean_features toy_numerics gappy_table))
      = Some out /\
    (forall i v, @to_numeric toy_numerics [Num 10; Num 20; Num 30; NaN] !! i = Some v ->
                 out !! i = Some (if isna v then m else v)) /\
    ((exists q, In (Num q) (@to_numeric toy_numerics [Num 10; Num 20; Num 30; NaN])) ->
     isna_any out = false) /\
    ((forall q, ~ In (Num q) (@to_numeric toy_numerics [Num 10; Num 20; Num 30; NaN])) ->
     m = NaN /\ out = @to_numeric toy_numerics [Num 10; Num 20; Num 30; NaN]).
Proof.
  apply (@clean_features_fills_median toy_numerics gappy_table _
           Segmentation.clustering_features "frequency" [Num 10; Num 20; Num 30; NaN]).
  - vm_compute. reflexivity.
  - simpl. tauto.
  - discriminate.
  - reflexivity.
Defined.

(** The middle of a list lies within any bounds of its elements. *)
Lemma middle_bounds (v : list Q) (lo hi m : Q) :
  (forall x, In x v -> (lo <= x <= hi)%Q) -> middle v = Num m -> (lo <= m <= hi)%Q.
Proof.
  intros Hv Hm. unfold middle in Hm.
  destruct (Nat.eqb_spec (length v) 0) as [|Hn]; [discriminate|].
  assert (Hhalf : length v / 2 < length v) by (apply Nat.div_lt; lia).
  destruct (Nat.odd (length v)).
  - inversion Hm; subst m. apply Hv, nth_In, Hhalf.
  - assert (Ha := Hv (nth (length v / 2 - 1) v 0%Q) ltac:(apply nth_In; lia)).
    assert (Hb := Hv (nth (length v / 2) v 0%Q) ltac:(apply nth_In; lia)).
    set (a := nth (length v / 2 - 1) v 0%Q) in *.
    set (b := nth (length v / 2) v 0%Q) in *. clearbody a b.
    injection Hm as <-. rewrite Qred_correct.
    change ((a + b) / 2)%Q with ((a + b) * (1 # 2))%Q.
    split; lra.
Qed.

Lemma median_bounds (s : Series) (lo hi m : Q) :
  (forall q, In (Num q) s -> (lo <= q <= hi)%Q) -> median s = Ok (Num m) ->
  (lo <= m <= hi)%Q.
Proof.
  unfold median. intros Hs Hm.
  destruct (numbers s) as [xs|] eqn:Exs; [|discriminate]. simpl in Hm.
  apply (middle_bounds (sort_values xs)); [|congruence].
  intros x Hx. apply Hs, (numbers_In s xs x Exs).
  by apply (Permutation_in _ (sort_values_perm xs)).
Qed.

Lemma fillna_In (s : Series) (fill v : value) :
  In v (fillna s fill) -> In v s \/ v = fill.
Proof.
  unfold fillna. intros Hv. apply in_map_iff in Hv as (u & <- & Hu).
  destruct (isna u); [by right | by left].
Qed.

(** Imputation by [clean_features] creates no outlier: bounds that hold
    for the numbers present in a lifetime column other than the gap
    column hold for every number of the cleaned column. *)
Theorem clean_features_keeps_range `{Numerics} (df df' : Frame) (r : list string)
    (c : string) (s : Series) (lo hi : Q) :
  Segmentation.clean_features df = (Ok r, df') ->
  In c Segmentation.FEATURES -> c <> "avg_days_between_orders" ->
  lookup_col c df = Some s ->
  (forall q, In (Num q) (to_numeric s) -> (lo <= q <= hi)%Q) ->
  exists out, lookup_col c df' = Some out /\
              forall q, In (Num q) out -> (lo <= q <= hi)%Q.
Proof.
  intros Hrun Hc Hne Hs Hrange.
  destruct (median_total (to_numeric s) (to_numeric_no_string s)) as (m & Hmed & _).
  exists (fillna (to_numeric s) m).
  split; [by eapply clean_features_other_column|]. intros q Hq.
  apply fillna_In in Hq as [Hq|Hq]; [by apply Hrange|].
  subst m. by apply (median_bounds (to_numeric s)).
Qed.

Lemma clean_features_keeps_range_witness :
  exists out,
    lookup_col "frequency" (snd (@Segmentation.clean_features toy_numerics gappy_table))
      = Some out /\
    forall q, In (Num q) out -> (10 <= q <= 30)%Q.
Proof.
  apply (@clean_features_keeps_range toy_numerics gappy_table _
           Segmentation.clustering_features "frequency" [Num 10; Num 20; Num 30; NaN]).
  - vm_compute. reflexivity.
  - simpl. tauto.
  - discriminate.
  - reflexivity.
  - intros q Hq. simpl in Hq.
    destruct Hq as [E|[E|[E|[E|[]]]]]; try discriminate E; inversion E; subst q;
      split; vm_compute; discriminate.
Defined.

(** ** Cleaning a cleaned table *)

Lemma assign_col_same (c : string) (s : Series) (df : Frame) :
  lookup_col c df = Some s -> assign_col c s df = df.
Proof.
  induction df as [|[x t] df IH]; simpl; [discriminate|].
  destruct (String.eqb_spec x c) as [->|Hne]; intros Hs.
  - by inversion Hs.
  - by rewrite IH.
Qed.

Lemma to_numeric_fixed `{Numerics} (s : Series) : Forall no_string s -> to_numeric s = s.
Proof.
  unfold to_numeric. induction 1 as [|v s Hv _ IH]; simpl; [done|].
  rewrite IH. by destruct v.
Qed.

(** A rewriting loop over columns that the rewriting maps to themselves
    leaves the table as it is. *)
Lemma for_each_rewrite_fixed (g : Series -> Series) (cols : list string) (df : Frame) :
  (forall c, In c cols -> exists t, lookup_col c df = Some t /\ g t = t) ->
  for_each cols (fun col => s <- getitem col ;; setitem col (g s)) df = (Ok tt, df).
Proof.
  induction cols as [|x xs IH]; intros Hcols; [done|]. simpl.
  destruct (Hcols x) as (t & Ht & Hg); [by left|].
  assert (Hbody : (s <- getitem x ;; setitem x (g s)) df = (Ok tt, df)).
  { unfold bind, getitem, setitem. by rewrite Ht, Hg, (assign_col_same x t df Ht). }
  rewrite (bind_run' _ _ _ _ _ Hbody). apply IH. intros c Hc. apply Hcols. by right.
Qed.

(** An imputation loop over columns that are full, or whose fill value is
    itself missing, leaves the table as it is. *)
Lemma fill_loop_fixed (fill : Series -> result value) (cols : list string) (df : Frame) :
  (forall c, In c cols ->
     exists t, lookup_col c df = Some t /\ (isna_any t = false \/ fill t = Ok NaN)) ->
  for_each cols (fun col => fill_missing col fill) df = (Ok tt, df).
Proof.
  induction cols as [|x xs IH]; intros Hcols; [done|]. simpl.
  destruct (Hcols x) as (t & Ht & Hsettled); [by left|].
  assert (Hbody : fill_missing x fill df = (Ok tt, df)).
  { unfold fill_missing, bind, getitem, lift, setitem. rewrite Ht.
    destruct (isna_any t) eqn:Emiss; [|done].
    destruct Hsettled as [|Hfill]; [discriminate|].
    by rewrite Ht, Hfill, fillna_NaN, (assign_col_same x t df Ht). }
  rewrite (bind_run' _ _ _ _ _ Hbody). apply IH. intros c Hc. apply Hcols. by right.
Qed.

Lemma for_each_rewrite_present (g : Series -> Series) (cols : list string)
    (df df' : Frame) (c : string) :
  for_each cols (fun col => s <- getitem col ;; setitem col (g s)) df = (Ok tt, df') ->
  In c cols -> exists s, lookup_col c df = Some s.
Proof.
  intros Hrun Hc. destruct (lookup_col c df) as [s|] eqn:Es; [by eexists|].
  destruct (for_each_rewrite_missing g cols df c Hc Es) as (c' & df'' & _ & _ & Hraise).
  rewrite Hraise in Hrun. discriminate Hrun.
Qed.

Section Clean_features_twice.
Context `{Numerics}.

Lemma clean_features_settles (df df' : Frame) (r : list string) (c : string) :
  Segmentation.clean_features df = (Ok r, df') -> In c Segmentation.FEATURES ->
  exists t, lookup_col c df' = Some t /\ settled t /\
            (c = "avg_days_between_orders" -> isna_any t = false).
Proof.
  intros Hrun Hc.
  assert (Hs : exists s, lookup_col c df = Some s).
  { unfold Segmentation.clean_features in Hrun.
    apply bind_ok in Hrun as ([] & df1 & Hcoerce & _).
    by eapply for_each_rewrite_present. }
  destruct Hs as [s Hs].
  destruct (String.eqb_spec c "avg_days_between_orders") as [->|Hne].
  - exists (fillna (to_numeric s) (Num 9999)).
    split; [by eapply clean_features_gap_column|].
    assert (Hfull : isna_any (fillna (to_numeric s) (Num 9999)) = false)
      by by apply isna_any_fillna.
    repeat split; [|by left|done].
    apply fillna_no_string; [apply to_numeric_no_string|done].
  - destruct (median_total (to_numeric s) (to_numeric_no_string s)) as (m & Hmed & Hm).
    exists (fillna (to_numeric s) m).
    split; [by eapply clean_features_other_column|].
    split; [|done]. split; [apply fillna_no_string; [apply to_numeric_no_string|done]|].
    destruct m as [|q|x]; [right|left|done].
    + by rewrite fillna_NaN.
    + by apply isna_any_fillna.
Qed.

(** [clean_features] is idempotent: run on the table it has cleaned, it
    returns the same feature list and leaves the table as it is. *)
Theorem clean_features_idempotent (df df' : Frame) (r : list string) :
  Segmentation.clean_features df = (Ok r, df') ->
  Segmentation.clean_features df' = (Ok r, df').
Proof.
  intros Hrun. assert (Hsettled := fun c => clean_features_settles df df' r c Hrun).
  unfold Segmentation.clean_features in Hrun.
  apply bind_ok in Hrun as ([] & df1 & Hcoerce & Hrun).
  apply bind_ok in Hrun as (s1 & df1' & Hget & Hrun).
  apply bind_ok in Hrun as ([] & df2 & Hset & Hrun).
  apply bind_ok in Hrun as ([] & df3 & Hfill & Hrun).
  apply bind_ok in Hrun as (mo & df4 & Hm & Hrun).
  apply bind_ok in Hrun as (ml & df5 & Hml & Hrun).
  apply bind_ok in Hrun as ([] & df6 & Hsetm & Hrun).
  apply bind_ok in Hrun as (a & df7 & Ha & Hrun).
  apply bind_ok in Hrun as (al & df8 & Hal & Hrun).
  apply bind_ok in Hrun as ([] & df9 & Hseta & Hrun).
  inversion Hrun; subst r df9; clear Hrun.
  unfold getitem in Hm, Ha.
  destruct (lookup_col "monetary" df3) as [mo'|] eqn:Emo; [|discriminate].
  inversion Hm; subst mo' df4; clear Hm.
  inversion Hml as [[Eml E5]]; subst df5.
  inversion Hsetm; subst df6.
  destruct (lookup_col "avg_order_value" (assign_col "monetary_log" ml df3))
    as [a'|] eqn:Ea; [|discriminate].
  inversion Ha; subst a' df7; clear Ha.
  inversion Hal as [[Eal E8]]; subst df8.
  unfold setitem in Hseta. injection Hseta as Edf'.
  assert (Hmo' : lookup_col "monetary" df' = Some mo).
  { subst df'. by rewrite !lookup_assign_other. }
  assert (Ha' : lookup_col "avg_order_value" df' = Some a).
  { subst df'. by rewrite lookup_assign_other. }
  assert (Hml' : lookup_col "monetary_log" df' = Some ml).
  { subst df'. rewrite lookup_assign_other by done. apply lookup_assign_same. }
  assert (Hal' : lookup_col "avg_order_value_log" df' = Some al).
  { subst df'. apply lookup_assign_same. }
  clear Edf' Hcoerce Hget Hset Hfill Emo Ea.
  destruct (Hsettled "avg_days_between_orders") as (g & Hg & _ & Hfull);
    [unfold Segmentation.FEATURES; simpl; tauto|].
  specialize (Hfull eq_refl).
  assert (Hstep1 : for_each Segmentation.FEATURES
                     (fun col => s <- getitem col ;; setitem col (to_numeric s)) df'
                   = (Ok tt, df')).
  { apply for_each_rewrite_fixed. intros c Hc.
    destruct (Hsettled c Hc) as (t & Ht & [Hstr _] & _).
    exists t. split; [done|]. by apply to_numeric_fixed. }
  assert (Hstep2 : getitem "avg_days_between_orders" df' = (Ok g, df'))
    by (unfold getitem; by rewrite Hg).
  assert (Hstep3 : setitem "avg_days_between_orders" (fillna g (Num 9999)) df'
                   = (Ok tt, df')).
  { unfold setitem. by rewrite fillna_full, (assign_col_same _ _ _ Hg). }
  assert (Hstep4 : for_each Segmentation.FEATURES (fun col => fill_missing col median) df'
                   = (Ok tt, df')).
  { apply fill_loop_fixed. intros c Hc.
    destruct (Hsettled c Hc) as (t & Ht & [_ Hst] & _). by exists t. }
  assert (Hstep5 : getitem "monetary" df' = (Ok mo, df'))
    by (unfold getitem; by rewrite Hmo').
  assert (Hstep6 : setitem "monetary_log" ml df' = (Ok tt, df'))
    by (unfold setitem; by rewrite (assign_col_same _ _ _ Hml')).
  assert (Hstep7 : getitem "avg_order_value" df' = (Ok a, df'))
    by (unfold getitem; by rewrite Ha').
  assert (Hstep8 : setitem "avg_order_value_log" al df' = (Ok tt, df'))
    by (unfold setitem; by rewrite (assign_col_same _ _ _ Hal')).
  unfold Segmentation.clean_features.
  rewrite (bind_run' _ _ _ _ _ Hstep1); cbv beta.
  rewrite (bind_run' _ _ _ _ _ Hstep2); cbv beta.
  rewrite (bind_run' _ _ _ _ _ Hstep3); cbv beta.
  rewrite (bind_run' _ _ _ _ _ Hstep4); cbv beta.
  rewrite (bind_run' _ _ _ _ _ Hstep5); cbv beta.
  rewrite lift_bind, Eml.
  rewrite (bind_run' _ _ _ _ _ Hstep6); cbv beta.
  rewrite (bind_run' _ _ _ _ _ Hstep7); cbv beta.
  rewrite lift_bind, Eal.
  rewrite (bind_run' _ _ _ _ _ Hstep8); cbv beta.
  reflexivity.
Qed.

End Clean_features_twice.

Lemma clean_features_idempotent_witness :
  @Segmentation.clean_features toy_numerics
    (snd (@Segmentation.clean_features toy_numerics gappy_table))
  = (Ok Segmentation.clustering_features,
     snd (@Segmentation.clean_features toy_numerics gappy_table)).
Proof.
  apply (@clean_features_idempotent toy_numerics gappy_table).
  vm_compute. reflexivity.
Defined.

(** ** The cleaning block of [load_training_frame], column by column *)

Section Churn_cleaning.
Context `{Numerics}.

(** The frames a successful run of the cleaning block goes through. *)
Lemma prepare_training_frame_steps (df df' : Frame) :
  Churn.prepare_training_frame df = (Ok tt, df') ->
  exists df1 df2 df3 g r y sn,
    for_each (Churn.lifetime_cols ++ Churn.time_cols)
      (fun c => s <- getitem c ;; setitem c (to_numeric s)) df = (Ok tt, df1) /\
    for_each Churn.lifetime_cols (fun c => fill_missing c median) df1 = (Ok tt, df2) /\
    for_each Churn.time_cols (fun c => fill_missing c (fun _ => Ok (Num 0))) df2
      = (Ok tt, df3) /\
    lookup_col "avg_days_between_orders" df3 = Some g /\
    lookup_col "recency_days"
      (assign_col "avg_days_between_orders" (fillna g (Num 9999)) df3) = Some r /\
    Churn.ge_threshold Churn.CHURN_THRESHOLD_DAYS r = Ok y /\
    lookup_col "segment_name"
      (assign_col "churned" y
         (assign_col "avg_days_between_orders" (fillna g (Num 9999)) df3)) = Some sn /\
    df' = assign_col "segment_name" (Churn.fillna_unknown sn)
            (assign_col "churned" y
               (assign_col "avg_days_between_orders" (fillna g (Num 9999)) df3)).
Proof.
  intros Hrun. unfold Churn.prepare_training_frame in Hrun.
  apply bind_ok in Hrun as ([] & df1 & Hcoerce & Hrun).
  apply bind_ok in Hrun as ([] & df2 & Hlife & Hrun).
  apply bind_ok in Hrun as ([] & df3 & Htime & Hrun).
  apply bind_ok in Hrun as (g & df3' & Hget & Hrun).
  apply bind_ok in Hrun as ([] & df4 & Hset & Hrun).
  apply bind_ok in Hrun as (r & df4' & Hr & Hrun).
  apply bind_ok in Hrun as (y & df4'' & Hy & Hrun).
  apply bind_ok in Hrun as ([] & df5 & Hsety & Hrun).
  apply bind_ok in Hrun as (sn & df5' & Hsn & Hrun).
  unfold getitem in Hget, Hr, Hsn. unfold setitem in Hset, Hsety, Hrun.
  unfold lift in Hy.
  destruct (lookup_col "avg_days_between_orders" df3) as [g'|] eqn:Eg; [|discriminate].
  injection Hget as -> <-. injection Hset as <-.
  destruct (lookup_col "recency_days" _) as [r'|] eqn:Er in Hr; [|discriminate].
  injection Hr as -> <-.
  destruct (Churn.ge_threshold Churn.CHURN_THRESHOLD_DAYS r) as [y'|] eqn:Ey;
    [|discriminate].
  injection Hy as -> <-. injection Hsety as <-.
  destruct (lookup_col "segment_name" _) as [sn'|] eqn:Esn in Hsn; [|discriminate].
  injection Hsn as -> <-. injection Hrun as <-.
  by exists df1, df2, df3, g, r, y, sn.
Qed.

Lemma time_cols_nodup : List.NoDup Churn.time_cols.
Proof.
  unfold Churn.time_cols.
  repeat (constructor; [simpl; intuition discriminate|]). constructor.
Qed.

(** In the training frame a time-windowed column holds the coerced input
    with 0 in every missing cell, so none of its cells is missing. *)
Theorem prepare_training_frame_zero_fill (df df' : Frame) (c : string) (s : Series) :
  Churn.prepare_training_frame df = (Ok tt, df') ->
  In c Churn.time_cols ->
  lookup_col c df = Some s ->
  exists out,
    lookup_col c df' = Some out /\
    isna_any out = false /\
    forall i v, to_numeric s !! i = Some v -> out !! i = Some (if isna v then Num 0 else v).
Proof.
  intros Hrun Hc Hs.
  destruct (prepare_training_frame_steps df df' Hrun)
    as (df1 & df2 & df3 & g & r & y & sn & Hcoerce & Hlife & Htime & _ & _ & _ & _ & ->).
  exists (fillna (to_numeric s) (Num 0)).
  split; [|split; [by apply isna_any_fillna | intros i v Hv; by apply fillna_lookup]].
  assert (Hother : ~ In c Churn.lifetime_cols /\ c <> "churned" /\ c <> "segment_name").
  { unfold Churn.time_cols in Hc. simpl in Hc.
    repeat (destruct Hc as [<-|Hc];
            [unfold Churn.lifetime_cols; simpl; intuition discriminate|]).
    destruct Hc. }
  destruct Hother as (Hlifetime & Hchurned & Hname).
  assert (Hgap : c <> "avg_days_between_orders").
  { intros ->. apply Hlifetime. unfold Churn.lifetime_cols. simpl. tauto. }
  rewrite !lookup_assign_other by done.
  eapply (fill_loop_column _ Churn.time_cols time_cols_nodup df2 df3); [done..| |done].
  rewrite (touches_for_each Churn.lifetime_cols Churn.lifetime_cols _
             (fun x Hx => touches_fill_missing x _ _ Hx) _ _ _ Hlife) by done.
  eapply (for_each_rewrite_done to_numeric); eauto using churn_cols_nodup.
  apply in_or_app. by right.
Qed.

(** In the training frame [avg_days_between_orders] has no missing cell:
    a present gap stays, a missing one holds the column's median, and
    only when no customer has a gap does it hold 9999. *)
Theorem prepare_training_frame_gap_full (df df' : Frame) (s : Series) :
  Churn.prepare_training_frame df = (Ok tt, df') ->
  lookup_col "avg_days_between_orders" df = Some s ->
  exists m out,
    median (to_numeric s) = Ok m /\
    lookup_col "avg_days_between_orders" df' = Some out /\
    isna_any out = false /\
    forall i v, to_numeric s !! i = Some v ->
      out !! i = Some (if isna v then (if isna m then Num 9999 else m) else v).
Proof.
  intros Hrun Hs.
  destruct (prepare_training_frame_steps df df' Hrun)
    as (df1 & df2 & df3 & g & r & y & sn & Hcoerce & Hlife & Htime & Hg & _ & _ & _ & ->).
  destruct (median_total (to_numeric s) (to_numeric_no_string s)) as (m & Hmed & _).
  assert (Hgap : In "avg_days_between_orders" Churn.lifetime_cols)
    by (unfold Churn.lifetime_cols; simpl; tauto).
  assert (H1 : lookup_col "avg_days_between_orders" df1 = Some (to_numeric s)).
  { eapply (for_each_rewrite_done to_numeric); eauto using churn_cols_nodup.
    apply in_or_app. by left. }
  assert (H2 : lookup_col "avg_days_between_orders" df2 = Some (fillna (to_numeric s) m)).
  { eapply fill_loop_column; eauto using lifetime_cols_nodup. }
  assert (H3 : g = fillna (to_numeric s) m).
  { rewrite (touches_for_each Churn.time_cols Churn.time_cols _
               (fun x Hx => touches_fill_missing x _ _ Hx) _ _ _ Htime) in Hg.
    - congruence.
    - unfold Churn.time_cols. simpl. intuition discriminate. }
  subst g. exists m, (fillna (fillna (to_numeric s) m) (Num 9999)).
  split; [done|]. split.
  { rewrite !lookup_assign_other by done. apply lookup_assign_same. }
  split; [by apply isna_any_fillna|].
  intros i v Hv. rewrite (fillna_lookup _ _ i _ (fillna_lookup _ m i v Hv)).
  destruct v; simpl; [|done|done]. by destruct m.
Qed.

Lemma touches_prepare_training_frame :
  touches (Churn.lifetime_cols ++ Churn.time_cols ++ ["churned"; "segment_name"])
          Churn.prepare_training_frame.
Proof.
  set (cs := (Churn.lifetime_cols ++ Churn.time_cols ++ ["churned"; "segment_name"])%list).
  assert (Hlife : forall x, In x Churn.lifetime_cols -> In x cs)
    by (intros x Hx; apply in_or_app; by left).
  assert (Htime : forall x, In x Churn.time_cols -> In x cs)
    by (intros x Hx; apply in_or_app; right; apply in_or_app; by left).
  assert (Hlast : forall x, In x ["churned"; "segment_name"] -> In x cs)
    by (intros x Hx; apply in_or_app; right; apply in_or_app; by right).
  unfold Churn.prepare_training_frame.
  apply touches_bind; [|intros _].
  { apply touches_for_each. intros x Hx.
    apply touches_bind; [apply touches_getitem|]. intros s. apply touches_setitem.
    apply in_app_or in Hx as [Hx|Hx]; auto. }
  apply touches_bind; [|intros _].
  { apply touches_for_each. intros x Hx. apply touches_fill_missing. auto. }
  apply touches_bind; [|intros _].
  { apply touches_for_each. intros x Hx. apply touches_fill_missing. auto. }
  apply touches_bind; [apply touches_getitem|intros s].
  apply touches_bind; [|intros _].
  { apply touches_setitem, Hlife. unfold Churn.lifetime_cols. simpl. tauto. }
  apply touches_bind; [apply touches_getitem|intros r].
  apply touches_bind; [apply touches_lift|intros y].
  apply touches_bind; [|intros _].
  { apply touches_setitem, Hlast. simpl. tauto. }
  apply touches_bind; [apply touches_getitem|intros sn].
  apply touches_setitem, Hlast. simpl. tauto.
Qed.

(** The cleaning block rewrites only the lifetime columns, the
    time-windowed columns, [churned] and [segment_name]: every other
    column of the frame read from the database, the 180-day window
    among them, is left as it was read, missing cells included; and a
    missing segment name becomes "Unknown". *)
Theorem prepare_training_frame_frame (df df' : Frame) :
  Churn.prepare_training_frame df = (Ok tt, df') ->
  (forall c,
     ~ In c (Churn.lifetime_cols ++ Churn.time_cols ++ ["churned"; "segment_name"]) ->
     lookup_col c df' = lookup_col c df) /\
  exists sn,
    lookup_col "segment_name" df = Some sn /\
    lookup_col "segment_name" df' = Some (fillna sn (Str "Unknown")).
Proof.
  intros Hrun. split; [by apply (touches_prepare_training_frame df (Ok tt) df')|].
  destruct (prepare_training_frame_steps df df' Hrun)
    as (df1 & df2 & df3 & g & r & y & sn & Hcoerce & Hlife & Htime & _ & _ & _ & Hsn & ->).
  exists sn. split; [|apply lookup_assign_same].
  rewrite !lookup_assign_other in Hsn by done.
  rewrite (touches_for_each Churn.time_cols Churn.time_cols _
             (fun x Hx => touches_fill_missing x _ _ Hx) _ _ _ Htime) in Hsn
    by (unfold Churn.time_cols; simpl; intuition discriminate).
  rewrite (touches_for_each Churn.lifetime_cols Churn.lifetime_cols _
             (fun x Hx => touches_fill_missing x _ _ Hx) _ _ _ Hlife) in Hsn
    by (unfold Churn.lifetime_cols; simpl; intuition discriminate).
  rewrite (for_each_rewrite_kept to_numeric _ _ _ _ _ Hcoerce) in Hsn; [done|].
  unfold Churn.lifetime_cols, Churn.time_cols. simpl. intuition discriminate.
Qed.

End Churn_cleaning.

Lemma prepare_training_frame_zero_fill_witness :
  exists out,
    lookup_col "spend_30d" cleaned_training_table = Some out /\
    isna_any out = false /\
    forall i v, @to_numeric toy_numerics [Num 100; NaN; Num 0] !! i = Some v ->
                out !! i = Some (if isna v then Num 0 else v).
Proof.
  apply (@prepare_training_frame_zero_fill toy_numerics one_time_buyer_table
           cleaned_training_table "spend_30d" [Num 100; NaN; Num 0]).
  - vm_compute. reflexivity.
  - unfold Churn.time_cols. simpl. tauto.
  - reflexivity.
Defined.

Lemma prepare_training_frame_gap_full_witness :
  exists m out,
    median (@to_numeric toy_numerics [NaN; Num 10; Num 30]) = Ok m /\
    lookup_col "avg_days_between_orders" cleaned_training_table = Some out /\
    isna_any out = false /\
    forall i v, @to_numeric toy_numerics [NaN; Num 10; Num 30] !! i = Some v ->
      out !! i = Some (if isna v then (if isna m then Num 9999 else m) else v).
Proof.
  apply (@prepare_training_frame_gap_full toy_numerics one_time_buyer_table
           cleaned_training_table [NaN; Num 10; Num 30]).
  - vm_compute. reflexivity.
  - reflexivity.
Defined.

Lemma prepare_training_frame_frame_witness :
  (forall c,
     ~ In c (Churn.lifetime_cols ++ Churn.time_cols ++ ["churned"; "segment_name"]) ->
     lookup_col c cleaned_training_table = lookup_col c one_time_buyer_table) /\
  exists sn,
    lookup_col "segment_name" one_time_buyer_table = Some sn /\
    lookup_col "segment_name" cleaned_training_table = Some (fillna sn (Str "Unknown")).
Proof.
  apply (@prepare_training_frame_frame toy_numerics one_time_buyer_table
           cleaned_training_table).
  vm_compute. reflexivity.
Defined.

(** ** Quantile bins of any column *)

Lemma filter_length_le {A} (P P' : A -> bool) (l : list A) :
  (forall x, In x l -> P x = true -> P' x = true) ->
  length (List.filter P l) <= length (List.filter P' l).
Proof.
  induction l as [|x l IH]; intros Himp; simpl; [done|].
  specialize (IH (fun y Hy => Himp y (or_intror Hy))).
  destruct (P x) eqn:Ex.
  - rewrite (Himp x (or_introl eq_refl) Ex). simpl. lia.
  - destruct (P' x); simpl; lia.
Qed.

Lemma filter_length_some {A} (P : A -> bool) (l : list A) (x : A) :
  In x l -> P x = true -> 1 <= length (List.filter P l).
Proof.
  intros Hx HP. assert (Hin : In x (List.filter P l)) by (apply filter_In; auto).
  destruct (List.filter P l); [destruct Hin | simpl; lia].
Qed.

Lemma filter_length_not_all {A} (P : A -> bool) (l : list A) (x : A) :
  In x l -> P x = false -> length (List.filter P l) < length l.
Proof.
  induction l as [|y l IH]; intros Hx HP; [destruct Hx|]. simpl.
  destruct Hx as [->|Hx].
  - rewrite HP. pose proof (List.filter_length_le P l). lia.
  - specialize (IH Hx HP). destruct (P y); simpl; lia.
Qed.

Section Quantile_bins.
Context `{Numerics}.
Variable v : list Q.
Variable m : nat.
Hypothesis Hsorted : StronglySorted Qle v.
Hypothesis Hm : 1 <= m.

Lemma sorted_between (x : Q) :
  In x v -> (nth 0 v 0 <= x <= nth (length v - 1) v 0)%Q.
Proof.
  intros Hx. destruct (In_nth v x 0%Q Hx) as (i & Hi & <-). split.
  - destruct i as [|i]; [apply Qle_refl|]. apply (sorted_nth (R := Qle)); [done|lia|done].
  - destruct (decide (i = length v - 1)) as [->|Hne]; [apply Qle_refl|].
    apply (sorted_nth (R := Qle)); [done|lia|lia].
Qed.

Lemma bin_edges64_length : length (bin_edges64 v m) = S m.
Proof. unfold bin_edges64. by rewrite length_map, length_seq. Qed.

Lemma bin_edges64_hd : hd 0%Q (bin_edges64 v m) = quantile64 v 0 m.
Proof. done. Qed.

Lemma bin_edges64_last : In (quantile64 v m m) (bin_edges64 v m).
Proof. unfold bin_edges64. apply in_map_iff. exists m. split; [done|apply in_seq; lia]. Qed.

(** A value of the column falls in one of the [m] bins. *)
Lemma bin_of_range (x : Q) :
  In x v -> 1 <= bin_of (bin_edges64 v m) x <= m.
Proof.
  intros Hx. destruct (sorted_between x Hx) as [Hlo Hhi].
  unfold bin_of. rewrite bin_edges64_hd, bin_edges64_length. cbv zeta.
  destruct (Qeq_bool x (quantile64 v 0 m)) eqn:Efirst.
  - destruct (Nat.eqb_spec 1 (S m)); lia.
  - assert (Hsome : 1 <= searchsorted_left (bin_edges64 v m) x).
    { apply (filter_length_some _ _ (quantile64 v 0 m)); [by left|].
      unfold Qlt_bool. apply negb_true_iff.
      destruct (Qle_bool x (quantile64 v 0 m)) eqn:Ele; [|done].
      apply Qle_bool_iff in Ele. rewrite quantile64_first in Ele.
      assert (Heq : (x == quantile64 v 0 m)%Q)
        by (rewrite quantile64_first; by apply Qle_antisym).
      apply Qeq_bool_iff in Heq. congruence. }
    assert (Hnot_all : searchsorted_left (bin_edges64 v m) x < S m).
    { rewrite <- bin_edges64_length.
      apply (filter_length_not_all _ _ (quantile64 v m m)); [apply bin_edges64_last|].
      unfold Qlt_bool. apply negb_false_iff, Qle_bool_iff. by rewrite quantile64_last. }
    destruct (Nat.eqb_spec (searchsorted_left (bin_edges64 v m) x) (S m)); lia.
Qed.

(** A larger value never falls in an earlier bin. *)
Lemma bin_of_monotone (x y : Q) :
  In x v -> In y v -> (x <= y)%Q ->
  bin_of (bin_edges64 v m) x <= bin_of (bin_edges64 v m) y.
Proof.
  intros Hx Hy Hxy. pose proof (bin_of_range y Hy) as Hry.
  pose proof (bin_of_range x Hx) as Hrx.
  unfold bin_of in *. rewrite bin_edges64_hd, bin_edges64_length in *. cbv zeta in *.
  destruct (Qeq_bool x (quantile64 v 0 m)) eqn:Ex.
  { destruct (Nat.eqb_spec 1 (S m)); lia. }
  destruct (Qeq_bool y (quantile64 v 0 m)) eqn:Ey.
  { exfalso. apply Qeq_bool_iff in Ey.
    destruct (sorted_between x Hx) as [Hlo _]. rewrite <- quantile64_first in Hlo.
    assert (Heq : (x == quantile64 v 0 m)%Q) by (apply Qle_antisym; [by rewrite <- Ey|done]).
    apply Qeq_bool_iff in Heq. congruence. }
  assert (Hcount : searchsorted_left (bin_edges64 v m) x
                   <= searchsorted_left (bin_edges64 v m) y).
  { apply filter_length_le. intros e _. unfold Qlt_bool. rewrite !negb_true_iff.
    intros Hex. destruct (Qle_bool y e) eqn:Eye; [|done].
    apply Qle_bool_iff in Eye.
    assert (Hle : Qle_bool x e = true) by (apply Qle_bool_iff; by apply Qle_trans with y).
    congruence. }
  destruct (Nat.eqb_spec (searchsorted_left (bin_edges64 v m) x) (S m));
    destruct (Nat.eqb_spec (searchsorted_left (bin_edges64 v m) y) (S m)); lia.
Qed.

End Quantile_bins.

Lemma In_lookup_cell (s : Series) (i : nat) (v : value) : s !! i = Some v -> In v s.
Proof. intros Hv. by apply list_elem_of_In, list_elem_of_lookup_2 with i. Qed.

(** What [qcut] returns: a bin number per value, within range and in the
    order of the values. *)
Lemma qcut_bins `{Numerics} (s out : Series) (q : nat) (labels : option (list value)) :
  qcut s q labels = Ok out -> 1 <= q ->
  exists bin : Q -> nat,
    (forall x, In (Num x) s -> 1 <= bin x <= q) /\
    (forall x y, In (Num x) s -> In (Num y) s -> (x <= y)%Q -> bin x <= bin y) /\
    out = map (fun v =>
                 match v with
                 | Num x =>
                     match labels with
                     | Some ls => nth (bin x - 1) ls NaN
                     | None => Num (inject_Z (Z.of_nat (bin x - 1)))
                     end
                 | _ => NaN
                 end) s.
Proof.
  unfold qcut. intros Hout Hq.
  destruct (numbers s) as [xs|] eqn:Exs; [|discriminate]. cbn [rbind] in Hout.
  destruct (_ && _) in Hout; [discriminate|].
  set (v := sort_values xs) in *. exists (bin_of (bin_edges64 v q)).
  assert (Hmember : forall x, In (Num x) s -> In x v).
  { intros x Hx. apply (Permutation_in _ (Permutation_sym (sort_values_perm xs))).
    by apply (numbers_In s xs x Exs). }
  assert (Hsorted : StronglySorted Qle v) by apply sort_values_sorted.
  split; [intros x Hx; apply bin_of_range; auto|].
  split; [intros x y Hx Hy; apply bin_of_monotone; auto|].
  assert (Hcells : forall label : nat -> value,
            cut_cells (bin_edges64 v q) label s
            = map (fun c => match c with
                            | Num x => label (bin_of (bin_edges64 v q) x - 1)
                            | _ => NaN
                            end) s).
  { intros label. unfold cut_cells. apply map_ext_in. intros [|x|t] Hcell; [done| |done].
    pose proof (bin_of_range v q Hsorted Hq x (Hmember x Hcell)) as Hrange.
    destruct (bin_of (bin_edges64 v q) x) as [|b]; [lia|].
    by replace (S b - 1) with b by lia. }
  destruct labels as [ls|].
  - destruct (negb (unique_labels ls)) in Hout; [discriminate|].
    destruct (negb (Nat.eqb _ _)) in Hout; [discriminate|].
    injection Hout as <-. apply Hcells.
  - injection Hout as <-. apply Hcells.
Qed.

(** Bin numbers from [pd.qcut(..., labels=False)], as the risk decile is
    computed: every number of the column gets a bin from 0 to [q - 1], a
    larger number never gets a smaller bin, and a missing cell stays
    missing. *)
Theorem qcut_bin_numbers_ordered `{Numerics} (s out : Series) (q : nat) :
  qcut s q None = Ok out -> 1 <= q ->
  length out = length s /\
  (forall i x, s !! i = Some (Num x) ->
     exists b, out !! i = Some (Num (inject_Z (Z.of_nat b))) /\ b < q) /\
  (forall i j x y b c,
     s !! i = Some (Num x) -> s !! j = Some (Num y) -> (x <= y)%Q ->
     out !! i = Some (Num (inject_Z (Z.of_nat b))) ->
     out !! j = Some (Num (inject_Z (Z.of_nat c))) -> b <= c) /\
  (forall i, s !! i = Some NaN -> out !! i = Some NaN).
Proof.
  intros Hout Hq.
  destruct (qcut_bins s out q None Hout Hq) as (bin & Hrange & Hmono & ->).
  split; [by rewrite length_map|]. split; [|split].
  - intros i x Hx. exists (bin x - 1). rewrite lookup_map, Hx. split; [done|].
    specialize (Hrange x (In_lookup_cell _ _ _ Hx)). lia.
  - intros i j x y b c Hx Hy Hxy Hb Hc. rewrite lookup_map, Hx in Hb.
    rewrite lookup_map, Hy in Hc. injection Hb as Hb. injection Hc as Hc.
    apply Nat2Z.inj in Hb, Hc. subst b c.
    specialize (Hmono x y (In_lookup_cell _ _ _ Hx) (In_lookup_cell _ _ _ Hy) Hxy). lia.
  - intros i Hi. by rewrite lookup_map, Hi.
Qed.

Lemma qcut_bin_numbers_ordered_witness :
  length [Num 0; Num 1; Num 2; NaN] = length [Num 0.3; Num 0.5; Num 0.9; NaN] /\
  (forall i x, [Num 0.3; Num 0.5; Num 0.9; NaN] !! i = Some (Num x) ->
     exists b, [Num 0; Num 1; Num 2; NaN] !! i = Some (Num (inject_Z (Z.of_nat b)))
               /\ b < 3) /\
  (forall i j x y b c,
     [Num 0.3; Num 0.5; Num 0.9; NaN] !! i = Some (Num x) ->
     [Num 0.3; Num 0.5; Num 0.9; NaN] !! j = Some (Num y) -> (x <= y)%Q ->
     [Num 0; Num 1; Num 2; NaN] !! i = Some (Num (inject_Z (Z.of_nat b))) ->
     [Num 0; Num 1; Num 2; NaN] !! j = Some (Num (inject_Z (Z.of_nat c))) -> b <= c) /\
  (forall i, [Num 0.3; Num 0.5; Num 0.9; NaN] !! i = Some NaN ->
             [Num 0; Num 1; Num 2; NaN] !! i = Some NaN).
Proof.
  apply ((@qcut_bin_numbers_ordered toy_numerics) [Num 0.3; Num 0.5; Num 0.9; NaN]
           [Num 0; Num 1; Num 2; NaN] 3).
  - vm_compute. reflexivity.
  - lia.
Defined.

(** ** The bands of [assign_priority_band] on any population *)

(** The integer band of a column cut in tertiles with labels 3, 2, 1. *)
Lemma tertile_band_cells `{Numerics} (s rc rb : Series) :
  qcut s 3 (Some Churn.tertile_labels) = Ok rc -> astype_int rc = Ok rb ->
  exists bin : Q -> nat,
    (forall x, In (Num x) s -> 1 <= bin x <= 3) /\
    (forall x y, In (Num x) s -> In (Num y) s -> (x <= y)%Q -> bin x <= bin y) /\
    forall i v, s !! i = Some v ->
      exists x, v = Num x /\ rb !! i = Some (Num (inject_Z (4 - Z.of_nat (bin x)))).
Proof.
  intros Hrc Hrb.
  destruct (qcut_bins s rc 3 _ Hrc ltac:(lia)) as (bin & Hrange & Hmono & ->).
  exists bin. split; [done|]. split; [done|]. intros i v Hv.
  apply rmap_ok in Hrb as [_ Hcells].
  destruct (Hcells i _ ltac:(by rewrite lookup_map, Hv)) as (w & Hw & Hi).
  destruct v as [|x|t]; [discriminate Hw| |discriminate Hw].
  exists x. split; [done|]. rewrite Hi. f_equal.
  specialize (Hrange x (In_lookup_cell _ _ _ Hv)).
  destruct (bin x) as [|[|[|[|b]]]]; try lia; simpl in Hw; by injection Hw as <-.
Qed.

(** Whenever the body of [assign_priority_band] runs to the end, each of
    its two band columns holds 1, 2 or 3 for every customer, the source
    column holds a number for every customer, and a customer with a
    larger source value never has a larger band number: band 1 is the
    top of the column. *)
Theorem add_priority_bands_order `{Numerics} (df df' : Frame) (src band : string) :
  Churn.add_priority_bands df = (Ok tt, df') ->
  (src, band) = ("churn_risk", "risk_band") \/ (src, band) = ("monetary", "value_band") ->
  exists s bs,
    lookup_col src df = Some s /\
    lookup_col band df' = Some bs /\
    (forall i v, s !! i = Some v ->
       exists x b, v = Num x /\ bs !! i = Some (Num (inject_Z b)) /\ (1 <= b <= 3)%Z) /\
    (forall i j x y b c,
       s !! i = Some (Num x) -> s !! j = Some (Num y) -> (x <= y)%Q ->
       bs !! i = Some (Num (inject_Z b)) -> bs !! j = Some (Num (inject_Z c)) ->
       (c <= b)%Z).
Proof.
  intros Hrun Hpair.
  apply add_priority_bands_ok in Hrun
    as (r & rc & rb & m & mc & vb & p & Hr & Hrc & Hrb & Hm & Hmc & Hvb & _ & ->).
  assert (Hcol : exists s c b,
            lookup_col src df = Some s /\
            qcut s 3 (Some Churn.tertile_labels) = Ok c /\ astype_int c = Ok b /\
            lookup_col band
              (assign_col "priority_band" p
                 (assign_col "value_band" vb (assign_col "risk_band" rb df))) = Some b).
  { destruct Hpair as [E|E]; injection E as -> ->.
    - exists r, rc, rb. repeat (split; [done|]).
      rewrite !lookup_assign_other by done. apply lookup_assign_same.
    - exists m, mc, vb. repeat (split; [done|]).
      rewrite lookup_assign_other by done. apply lookup_assign_same. }
  destruct Hcol as (s & c & bs & Hs & Hc & Hbs & Hband).
  destruct (tertile_band_cells s c bs Hc Hbs) as (bin & Hrange & Hmono & Hcells).
  exists s, bs. repeat (split; [done|]). split.
  - intros i v Hv. destruct (Hcells i v Hv) as (x & -> & Hi).
    exists x, (4 - Z.of_nat (bin x))%Z. repeat (split; [done|]).
    specialize (Hrange x (In_lookup_cell _ _ _ Hv)). lia.
  - intros i j x y b c' Hx Hy Hxy Hb Hc'.
    destruct (Hcells i _ Hx) as (x' & Ex & Hi). injection Ex as <-.
    destruct (Hcells j _ Hy) as (y' & Ey & Hj). injection Ey as <-.
    rewrite Hi in Hb. rewrite Hj in Hc'. injection Hb as <-. injection Hc' as <-.
    specialize (Hmono x y (In_lookup_cell _ _ _ Hx) (In_lookup_cell _ _ _ Hy) Hxy). lia.
Qed.

Lemma add_priority_bands_order_witness :
  exists s bs,
    lookup_col "churn_risk" scored_table = Some s /\
    lookup_col "risk_band" (snd ((@Churn.add_priority_bands toy_numerics) scored_table)) = Some bs /\
    (forall i v, s !! i = Some v ->
       exists x b, v = Num x /\ bs !! i = Some (Num (inject_Z b)) /\ (1 <= b <= 3)%Z) /\
    (forall i j x y b c,
       s !! i = Some (Num x) -> s !! j = Some (Num y) -> (x <= y)%Q ->
       bs !! i = Some (Num (inject_Z b)) -> bs !! j = Some (Num (inject_Z c)) ->
       (c <= b)%Z).
Proof.
  apply ((@add_priority_bands_order toy_numerics) scored_table
           (snd ((@Churn.add_priority_bands toy_numerics) scored_table)) "churn_risk" "risk_band").
  - vm_compute. reflexivity.
  - by left.
Defined.

(** ** Columns that cannot be cut *)

(** [qcut] into three bins or more refuses a column whose numbers are
    all the same, an empty or all-missing column included. *)
Lemma qcut_constant `{Numerics} (s : Series) (q : nat) (labels : option (list value)) (x : Q) :
  Forall no_string s -> (forall y, In (Num y) s -> (y == x)%Q) -> 2 <= q ->
  qcut s q labels = Raise (ValueError "Bin edges must be unique").
Proof.
  intros Hstr Hall Hq. unfold qcut.
  destruct (numbers_total s Hstr) as [xs Exs]. rewrite Exs. cbn [rbind].
  assert (Hlen2 : Nat.eqb (length (bin_edges64 (sort_values xs) q)) 2 = false).
  { unfold bin_edges64. rewrite length_map, length_seq. apply Nat.eqb_neq. lia. }
  rewrite Hlen2. cbn [negb]. rewrite andb_true_r.
  destruct (Nat.eqb_spec (length xs) 0) as [|Hlen]; [done|].
  assert (Hsame : forall y, In y (sort_values xs) -> (y == x)%Q).
  { intros y Hy. apply Hall, (numbers_In s xs y Exs).
    by apply (Permutation_in _ (sort_values_perm xs)). }
  assert (Hne : sort_values xs <> []).
  { intros Hnil. apply Hlen.
    by rewrite <- (Permutation_length (sort_values_perm xs)), Hnil. }
  assert (Hdup : all_distinct (bin_edges64 (sort_values xs) q) = false).
  { destruct q as [|q]; [lia|]. unfold bin_edges64. cbn [seq map all_distinct forallb].
    assert (E : Qeq_bool (quantile64 (sort_values xs) 0 (S q))
                         (quantile64 (sort_values xs) 1 (S q)) = true).
    { apply Qeq_bool_iff. rewrite !(quantile64_constant _ _ _ x); [reflexivity|auto..]; lia. }
    by rewrite E. }
  by rewrite Hdup.
Qed.

(** When every customer has the same churn risk (or there is at most one
    customer, or no risk is known), the body of [assign_priority_band]
    stops at its first cut with "Bin edges must be unique" and has
    changed nothing. *)
Theorem add_priority_bands_needs_spread `{Numerics} (df : Frame) (r : Series) (x : Q) :
  lookup_col "churn_risk" df = Some r ->
  Forall no_string r -> (forall y, In (Num y) r -> (y == x)%Q) ->
  Churn.add_priority_bands df = (Raise (ValueError "Bin edges must be unique"), df).
Proof.
  intros Hr Hstr Hall. unfold Churn.add_priority_bands.
  unfold getitem at 1. unfold bind at 1. rewrite Hr.
  rewrite lift_bind, (qcut_constant r 3 _ x Hstr Hall); [done|lia].
Qed.

Lemma add_priority_bands_needs_spread_witness :
  (@Churn.add_priority_bands toy_numerics)
    [("monetary", [Num 10; Num 20; Num 30]); ("churn_risk", [Num 0.5; Num 0.5; NaN])]
  = (Raise (ValueError "Bin edges must be unique"),
     [("monetary", [Num 10; Num 20; Num 30]); ("churn_risk", [Num 0.5; Num 0.5; NaN])]).
Proof.
  apply (add_priority_bands_needs_spread _ [Num 0.5; Num 0.5; NaN] 0.5).
  - reflexivity.
  - repeat constructor.
  - intros y Hy. simpl in Hy.
    destruct Hy as [E|[E|[E|[]]]]; try discriminate E; by injection E as <-.
Defined.

(** ** What [write_back] writes *)

(** [df[cols]] when it succeeds: the columns asked for, in that order,
    each with the cells it has in [df]. *)
Lemma select_columns_ok (cols : list string) (f out : Frame) :
  select_columns cols f = Ok out ->
  columns out = cols /\
  forall c, In c cols -> lookup_col c f <> None /\ lookup_col c out = lookup_col c f.
Proof.
  unfold select_columns. revert out.
  induction cols as [|x cols IH]; intros out Hout; simpl in Hout.
  - injection Hout as <-. split; [done|]. intros c [].
  - destruct (lookup_col x f) as [s|] eqn:Ex; [|discriminate]. cbn [rbind] in Hout.
    destruct (rmap _ cols) as [rest|] eqn:Erest; [|discriminate]. cbn [rbind] in Hout.
    injection Hout as <-. destruct (IH rest eq_refl) as [Hcols Hcells].
    split; [simpl; by rewrite Hcols|]. intros c Hc. simpl.
    destruct (String.eqb_spec x c) as [->|Hne]; [by rewrite Ex|].
    destruct Hc as [->|Hc]; [done|]. by apply Hcells.
Qed.

(** [df[cols]] with a column missing: [KeyError] on the first one. *)
Lemma select_columns_missing (cols : list string) (f : Frame) (c : string) :
  In c cols -> lookup_col c f = None ->
  exists c', In c' cols /\ lookup_col c' f = None /\
             select_columns cols f = Raise (KeyError c').
Proof.
  unfold select_columns. induction cols as [|x cols IH]; intros Hc Hmiss; [destruct Hc|].
  simpl. destruct (lookup_col x f) as [s|] eqn:Ex.
  - destruct Hc as [->|Hc]; [congruence|].
    destruct (IH Hc Hmiss) as (c' & Hc' & Hmiss' & ->).
    exists c'. split; [by right|done].
  - exists x. split; [by left|done].
Qed.

Section Write_back.
Context `{Database}.

Lemma write_back_run (w w' : world) (scored : loc) (f : Frame) :
  heap w !! scored = Some f ->
  Churn.write_back scored w = (Ok tt, w') ->
  exists out,
    db w' = <[ "analytics.customer_churn_scores" := out ]> (db w) /\
    columns out =
      (Churn.out_cols ++
       List.filter (fun c => existsb (String.eqb c) (columns f))
                   ["risk_decile"; "priority_band"])%list /\
    (forall c, In c (columns out) -> lookup_col c out = lookup_col c f) /\
    trace w' = (trace w ++ [Written "analytics.customer_churn_scores"])%list /\
    heap w' = heap w.
Proof.
  intros Hf Hrun. unfold Churn.write_back in Hrun.
  rewrite (deref_bind _ _ _ _ Hf), lift_bind in Hrun.
  destruct (select_columns _ f) as [out|] eqn:Eout; [|discriminate].
  unfold to_sql in Hrun.
  destruct (sink_accepts (db w) _ out); [|discriminate]. injection Hrun as <-.
  exists out. split; [done|].
  destruct (select_columns_ok _ _ _ Eout) as [Hcols Hcells].
  assert (Hoptional :
    List.filter (fun c => existsb (String.eqb c) (columns f)
                          && negb (existsb (String.eqb c) Churn.out_cols))
                ["risk_decile"; "priority_band"]
    = List.filter (fun c => existsb (String.eqb c) (columns f))
                  ["risk_decile"; "priority_band"]).
  { apply List.filter_ext_in. intros c Hc.
    assert (Hnew : existsb (String.eqb c) Churn.out_cols = false); [|by rewrite Hnew, andb_true_r].
    destruct Hc as [<-|[<-|[]]]; reflexivity. }
  rewrite Hoptional in Hcols. split; [done|]. split; [|done].
  intros c Hc. rewrite Hcols, <- Hoptional in Hc. by apply Hcells.
Qed.

(** When [write_back] returns, the table [analytics.customer_churn_scores]
    has been replaced by a table with the seventeen fixed columns,
    followed by [risk_decile] and [priority_band] when the scored frame
    has them, each with the cells of the scored frame; no other column
    of the scored frame is written, no other table is touched, and the
    scored frame itself stays as it is. *)
Theorem write_back_writes_selection (w w' : world) (scored : loc) (f : Frame) :
  heap w !! scored = Some f ->
  Churn.write_back scored w = (Ok tt, w') ->
  exists out,
    db w' = <[ "analytics.customer_churn_scores" := out ]> (db w) /\
    columns out =
      (Churn.out_cols ++
       List.filter (fun c => existsb (String.eqb c) (columns f))
                   ["risk_decile"; "priority_band"])%list /\
    (forall c, In c (columns out) -> lookup_col c out = lookup_col c f) /\
    trace w' = (trace w ++ [Written "analytics.customer_churn_scores"])%list /\
    heap w' = heap w.
Proof. intros. eapply write_back_run; eassumption. Qed.

(** A scored frame that lacks one of the seventeen fixed columns makes
    [write_back] raise [KeyError] for a column the frame does not have,
    and nothing is written. *)
Theorem write_back_missing_column (w : world) (scored : loc) (f : Frame) (c : string) :
  heap w !! scored = Some f ->
  In c Churn.out_cols -> lookup_col c f = None ->
  exists c', In c' Churn.out_cols /\ lookup_col c' f = None /\
             Churn.write_back scored w = (Raise (KeyError c'), w).
Proof.
  intros Hf Hc Hmiss. unfold Churn.write_back.
  rewrite (deref_bind _ _ _ _ Hf), lift_bind.
  set (optional := List.filter _ ["risk_decile"; "priority_band"]).
  destruct (select_columns_missing (Churn.out_cols ++ optional) f c)
    as (c' & Hc' & Hmiss' & ->); [apply in_or_app; by left|done|].
  exists c'. repeat split; [|done].
  apply in_app_or in Hc' as [Hc'|Hc']; [done|]. exfalso.
  apply filter_In in Hc' as [_ Hhas]. apply andb_true_iff in Hhas as [Hhas _].
  apply existsb_exists in Hhas as (d & Hd & Heq). apply String.eqb_eq in Heq. subst d.
  unfold columns in Hd. apply in_map_iff in Hd as ([d t] & Ed & Hd). simpl in Ed. subst d.
  clear - Hd Hmiss'. induction f as [|[x u] f IH]; [destruct Hd|]. simpl in Hmiss'.
  destruct (String.eqb_spec x c') as [|Hne]; [discriminate|].
  destruct Hd as [Hd|Hd]; [by injection Hd|auto].
Qed.

End Write_back.

Lemma write_back_writes_selection_witness :
  exists out,
    db (snd (@Churn.write_back toy_database 1%positive priced_world))
      = <[ "analytics.customer_churn_scores" := out ]> (db priced_world) /\
    columns out =
      (Churn.out_cols ++
       List.filter (fun c => existsb (String.eqb c) (columns priced_table))
                   ["risk_decile"; "priority_band"])%list /\
    (forall c, In c (columns out) -> lookup_col c out = lookup_col c priced_table) /\
    trace (snd (@Churn.write_back toy_database 1%positive priced_world))
      = (trace priced_world ++ [Written "analytics.customer_churn_scores"])%list /\
    heap (snd (@Churn.write_back toy_database 1%positive priced_world)) = heap priced_world.
Proof.
  apply (@write_back_writes_selection toy_database priced_world _ 1%positive priced_table).
  - reflexivity.
  - vm_compute. reflexivity.
Defined.

Lemma write_back_missing_column_witness :
  exists c', In c' Churn.out_cols /\ lookup_col c' scored_table = None /\
             @Churn.write_back toy_database 1%positive scored_world
             = (Raise (KeyError c'), scored_world).
Proof.
  apply (@write_back_missing_column toy_database scored_world 1%positive scored_table
           "segment_name").
  - reflexivity.
  - unfold Churn.out_cols. simpl. tauto.
  - reflexivity.
Defined.

(** ** The candidate cluster counts of [choose_k] *)

Section Choose_k.
Context `{Sklearn}.

Lemma choose_k_loop_scores (X : Frame) (ks : list nat) :
  forall (w w' : world) (scores : list (nat * Q)),
  Segmentation.choose_k_loop X ks w = (Ok scores, w') ->
  map fst scores = ks /\
  (forall k s, In (k, s) scores ->
     exists labels,
       kmeans_fit_predict k Segmentation.RANDOM_STATE X = Ok labels /\
       silhouette_score X labels = Ok s) /\
  w' = World (heap w) (db w) (trace w ++ repeat (Fitted "KMeans") (length ks)).
Proof.
  induction ks as [|k ks IH]; intros w w' scores Hrun; simpl in Hrun.
  - injection Hrun as <- <-. split; [done|]. split; [intros k s []|].
    destruct w. simpl. by rewrite app_nil_r.
  - rewrite lift_bind in Hrun.
    destruct (kmeans_fit_predict k Segmentation.RANDOM_STATE X) as [labels|] eqn:Efit;
      [|discriminate].
    rewrite tell_bind, lift_bind in Hrun.
    destruct (silhouette_score X labels) as [s|] eqn:Escore; [|discriminate].
    apply bind_ok in Hrun as (rest & w1 & Hrest & Hret). injection Hret as <- <-.
    destruct (IH _ _ _ Hrest) as (Hks & Hscores & ->). simpl.
    split; [by rewrite Hks|]. split.
    + intros k' s' [E|Hin]; [injection E as <- <-; by exists labels | by apply Hscores].
    + by rewrite <- app_assoc.
Qed.

(** When [choose_k] returns, it returns one score for each cluster count
    from [k_min] to [k_max], in increasing order (none when
    [k_max < k_min]); each is the silhouette of the k-means labelling
    with that many clusters and the fixed seed; one model has been
    fitted per candidate, and neither the frames nor the database have
    changed. *)
Theorem choose_k_scores (X : Frame) (k_min k_max : nat) (w w' : world)
    (scores : list (nat * Q)) :
  Segmentation.choose_k X k_min k_max w = (Ok scores, w') ->
  map fst scores = seq k_min (k_max + 1 - k_min) /\
  (forall k s, In (k, s) scores ->
     k_min <= k <= k_max /\
     exists labels,
       kmeans_fit_predict k Segmentation.RANDOM_STATE X = Ok labels /\
       silhouette_score X labels = Ok s) /\
  heap w' = heap w /\ db w' = db w /\
  trace w' = (trace w ++ repeat (Fitted "KMeans") (k_max + 1 - k_min))%list.
Proof.
  intros Hrun. unfold Segmentation.choose_k in Hrun.
  destruct (choose_k_loop_scores X _ _ _ _ Hrun) as (Hks & Hscores & ->).
  split; [done|]. split; [|by rewrite length_seq].
  intros k s Hin. split; [|by apply Hscores].
  assert (Hk : In k (seq k_min (k_max + 1 - k_min))).
  { rewrite <- Hks. by apply (in_map fst scores (k, s)). }
  apply in_seq in Hk. lia.
Qed.

End Choose_k.

Lemma choose_k_scores_witness :
  map fst [(2, 0%Q); (3, 0%Q); (4, 0%Q)] = seq 2 (4 + 1 - 2) /\
  (forall k s, In (k, s) [(2, 0%Q); (3, 0%Q); (4, 0%Q)] ->
     2 <= k <= 4 /\
     exists labels,
       @kmeans_fit_predict toy_sklearn k Segmentation.RANDOM_STATE clustering_matrix = Ok labels /\
       @silhouette_score toy_sklearn clustering_matrix labels = Ok s) /\
  heap (snd (@Segmentation.choose_k toy_sklearn clustering_matrix 2 4 (start ∅))) = heap (start ∅) /\
  db (snd (@Segmentation.choose_k toy_sklearn clustering_matrix 2 4 (start ∅))) = db (start ∅) /\
  trace (snd (@Segmentation.choose_k toy_sklearn clustering_matrix 2 4 (start ∅)))
    = (trace (start ∅) ++ repeat (Fitted "KMeans") (4 + 1 - 2))%list.
Proof.
  apply (@choose_k_scores toy_sklearn clustering_matrix 2 4 (start ∅)).
  vm_compute. reflexivity.
Defined.

(** ** What [train_and_score] returns *)

Section Train_and_score.
Context `{Sklearn}.

Lemma train_and_score_run (w w' : world) (df out : loc) (auc : Q) (f : Frame) :
  heap w !! df = Some f ->
  Churn.train_and_score df w = (Ok (out, auc), w') ->
  exists X y parts X_train y_train clf risk,
    select_columns (Churn.feature_cols_num ++ Churn.feature_cols_cat) f = Ok X /\
    column f "churned" = Ok y /\
    train_test_split X y 0.2%Q Churn.RANDOM_STATE = Ok parts /\
    Churn.take_rows (fst parts) X = Ok X_train /\
    Churn.take_cells (fst parts) y = Ok y_train /\
    2 <= length (Churn.classes y_train) /\
    pipeline_fit X_train y_train = Ok clf /\
    predict_proba clf X = Ok risk /\
    length risk = nrows f /\
    heap w !! out = None /\
    heap w' = <[ out := assign_col "churn_risk" risk f ]> (heap w) /\
    db w' = db w /\
    trace w' = (trace w ++ [Fitted "LogisticRegression"; Scored "LogisticRegression"])%list.
Proof.
  intros Hf Hrun. unfold Churn.train_and_score in Hrun.
  rewrite (deref_bind _ _ _ _ Hf), lift_bind in Hrun.
  destruct (select_columns _ f) as [X|] eqn:EX; [|discriminate].
  rewrite lift_bind in Hrun. destruct (column f "churned") as [y|] eqn:Ey; [|discriminate].
  rewrite lift_bind in Hrun.
  destruct (train_test_split X y _ _) as [parts|] eqn:Eparts; [|discriminate].
  rewrite lift_bind in Hrun.
  destruct (Churn.take_rows (fst parts) X) as [X_train|] eqn:EXtrain; [|discriminate].
  rewrite lift_bind in Hrun.
  destruct (Churn.take_rows (snd parts) X) as [X_test|] eqn:EXtest; [|discriminate].
  rewrite lift_bind in Hrun.
  destruct (Churn.take_cells (fst parts) y) as [y_train|] eqn:Eytrain; [|discriminate].
  rewrite lift_bind in Hrun.
  destruct (Churn.take_cells (snd parts) y) as [y_test|] eqn:Eytest; [|discriminate].
  rewrite lift_bind in Hrun.
  destruct (Churn.clf_fit X_train y_train) as [clf|] eqn:Efit; [|discriminate].
  rewrite tell_bind, lift_bind in Hrun.
  destruct (predict_proba clf X_test) as [proba|] eqn:Eproba; [|discriminate].
  rewrite lift_bind in Hrun.
  destruct (roc_auc_score y_test proba) as [auc'|] eqn:Eauc; [|discriminate].
  rewrite (df_copy_bind _ _ f) in Hrun by done. simpl heap in Hrun.
  rewrite lift_bind in Hrun.
  destruct (predict_proba clf X) as [risk|] eqn:Erisk; [|discriminate].
  rewrite tell_bind in Hrun.
  rewrite (on_bind _ _ _ _ f) in Hrun by (simpl; apply lookup_insert_eq).
  unfold setitem_array in Hrun.
  destruct (Nat.eqb_spec (length risk) (nrows f)) as [Hlen|];
    [|discriminate].
  simpl in Hrun. injection Hrun as <- <- <-.
  unfold Churn.clf_fit in Efit.
  destruct (Nat.ltb_spec (length (Churn.classes y_train)) 2); [discriminate|].
  exists X, y, parts, X_train, y_train, clf, risk.
  repeat (split; [done|]).
  split; [apply not_elem_of_dom, is_fresh|].
  split; [by rewrite insert_insert_eq|]. split; [done|].
  by rewrite <- app_assoc.
Qed.

(** When [train_and_score] returns, the scored frame is a new object:
    the input frame with the column [churn_risk] set to one score per
    customer.  The scores come from the classifier fitted on the training
    rows only, applied to the feature columns of every customer; the
    input frame, every other object and the database are as before, and
    the run has fitted and scored once. *)
Theorem train_and_score_output (w w' : world) (df out : loc) (auc : Q) (f : Frame) :
  heap w !! df = Some f ->
  Churn.train_and_score df w = (Ok (out, auc), w') ->
  exists X y parts X_train y_train clf risk,
    select_columns (Churn.feature_cols_num ++ Churn.feature_cols_cat) f = Ok X /\
    column f "churned" = Ok y /\
    train_test_split X y 0.2%Q Churn.RANDOM_STATE = Ok parts /\
    Churn.take_rows (fst parts) X = Ok X_train /\
    Churn.take_cells (fst parts) y = Ok y_train /\
    2 <= length (Churn.classes y_train) /\
    pipeline_fit X_train y_train = Ok clf /\
    predict_proba clf X = Ok risk /\
    length risk = nrows f /\
    heap w !! out = None /\
    heap w' = <[ out := assign_col "churn_risk" risk f ]> (heap w) /\
    db w' = db w /\
    trace w' = (trace w ++ [Fitted "LogisticRegression"; Scored "LogisticRegression"])%list.
Proof. intros. eapply train_and_score_run; eassumption. Qed.

End Train_and_score.

Lemma train_and_score_output_witness :
  exists X y parts X_train y_train clf risk,
    select_columns (Churn.feature_cols_num ++ Churn.feature_cols_cat) prepared_table
      = Ok X /\
    column prepared_table "churned" = Ok y /\
    @train_test_split toy_sklearn X y 0.2%Q Churn.RANDOM_STATE = Ok parts /\
    Churn.take_rows (fst parts) X = Ok X_train /\
    Churn.take_cells (fst parts) y = Ok y_train /\
    2 <= length (Churn.classes y_train) /\
    @pipeline_fit toy_sklearn X_train y_train = Ok clf /\
    @predict_proba toy_sklearn clf X = Ok risk /\
    length risk = nrows prepared_table /\
    heap cleaned_world !! 2%positive = None /\
    heap (snd (@Churn.train_and_score toy_sklearn 1%positive cleaned_world))
      = <[ 2%positive := assign_col "churn_risk" risk prepared_table ]>
          (heap cleaned_world) /\
    db (snd (@Churn.train_and_score toy_sklearn 1%positive cleaned_world)) = db cleaned_world /\
    trace (snd (@Churn.train_and_score toy_sklearn 1%positive cleaned_world))
      = (trace cleaned_world
         ++ [Fitted "LogisticRegression"; Scored "LogisticRegression"])%list.
Proof.
  apply (@train_and_score_output toy_sklearn cleaned_world _ 1%positive 2%positive (1 # 2)
           prepared_table).
  - reflexivity.
  - vm_compute. reflexivity.
Defined.

(** ** Dense ranks *)

Lemma dedup_sorted_subset (l : list Q) (d : Q) : In d (dedup_sorted l) -> In d l.
Proof.
  induction l as [|x l IH]; [done|]. destruct l as [|y l]; [done|].
  change (dedup_sorted (x :: y :: l))
    with (if Qeq_bool x y then dedup_sorted (y :: l) else x :: dedup_sorted (y :: l)).
  destruct (Qeq_bool x y); intros Hd.
  - right. by apply IH.
  - destruct Hd as [->|Hd]; [by left | right; by apply IH].
Qed.

(** Every element has an equal representative among the distinct ones. *)
Lemma dedup_sorted_represents (l : list Q) :
  forall x, In x l -> exists d, In d (dedup_sorted l) /\ (d == x)%Q.
Proof.
  induction l as [|z l IH]; [done|]. destruct l as [|y l].
  - intros x [->|[]]. exists x. split; [by left|reflexivity].
  - change (dedup_sorted (z :: y :: l))
      with (if Qeq_bool z y then dedup_sorted (y :: l) else z :: dedup_sorted (y :: l)).
    intros x [->|Hx].
    + destruct (Qeq_bool x y) eqn:Exy.
      * apply Qeq_bool_iff in Exy. destruct (IH y (or_introl eq_refl)) as (d & Hd & Hdy).
        exists d. split; [done|]. by rewrite Hdy, Exy.
      * exists x. split; [by left|reflexivity].
    + destruct (IH x Hx) as (d & Hd & Hdx). exists d. split; [|done].
      destruct (Qeq_bool z y); [done | by right].
Qed.

Lemma dedup_sorted_strict (l : list Q) :
  StronglySorted Qle l -> StronglySorted Qlt (dedup_sorted l).
Proof.
  induction 1 as [|x l Hl IH Hx]; [constructor|]. destruct l as [|y l].
  - repeat constructor.
  - change (dedup_sorted (x :: y :: l))
      with (if Qeq_bool x y then dedup_sorted (y :: l) else x :: dedup_sorted (y :: l)).
    destruct (Qeq_bool x y) eqn:Exy; [done|]. constructor; [done|].
    assert (Hxy : (x < y)%Q).
    { apply Forall_inv in Hx. apply Qle_lteq in Hx as [Hlt|Heq]; [done|].
      apply Qeq_bool_iff in Heq. congruence. }
    apply StronglySorted_inv in Hl as [_ Hy].
    apply Forall_forall. intros z Hz.
    apply list_elem_of_In, dedup_sorted_subset in Hz. destruct Hz as [<-|Hz]; [done|].
    apply Qlt_le_trans with y; [done|].
    rewrite Forall_forall in Hy. by apply Hy, list_elem_of_In.
Qed.

Lemma filter_length_lt {A} (P P' : A -> bool) (l : list A) (e : A) :
  (forall x, In x l -> P x = true -> P' x = true) ->
  In e l -> P e = false -> P' e = true ->
  length (List.filter P l) < length (List.filter P' l).
Proof.
  induction l as [|x l IH]; intros Himp He HP HP'; [destruct He|]. simpl.
  pose proof (filter_length_le P P' l (fun y Hy => Himp y (or_intror Hy))) as Hle.
  destruct He as [->|He].
  - rewrite HP, HP'. simpl. lia.
  - specialize (IH (fun y Hy => Himp y (or_intror Hy)) He HP HP').
    destruct (P x) eqn:Ex.
    + rewrite (Himp x (or_introl eq_refl) Ex). simpl. lia.
    + destruct (P' x); simpl; lia.
Qed.

Lemma count_from (j n : nat) :
  length (List.filter (fun i => Nat.leb j i) (seq 0 n)) = n - j.
Proof.
  induction n as [|n IH]; [done|].
  rewrite seq_S, List.filter_app, length_app, IH. cbn [List.filter Nat.add].
  destruct (Nat.leb_spec j n); cbn [length]; lia.
Qed.

Lemma rank_dense_cells (ascending : bool) (s out : Series) :
  rank_dense ascending s = Ok out ->
  exists xs,
    numbers s = Ok xs /\
    out = map (fun v =>
                 match v with
                 | Num x => Num (inject_Z (Z.of_nat
                              (dense_rank ascending (dedup_sorted (sort_values xs)) x)))
                 | _ => NaN
                 end) s.
Proof.
  unfold rank_dense. intros Hout. destruct (numbers s) as [xs|]; [|discriminate].
  injection Hout as <-. by exists xs.
Qed.

Section Dense_rank.
Variable ds : list Q.
Hypothesis Hstrict : StronglySorted Qlt ds.

Lemma dense_rank_eq (ascending : bool) (x y : Q) :
  (x == y)%Q -> dense_rank ascending ds x = dense_rank ascending ds y.
Proof.
  intros Hxy. unfold dense_rank. apply filter_ext_length. intros d _.
  destruct ascending; by rewrite Hxy.
Qed.

Lemma dense_rank_positive (ascending : bool) (x d : Q) :
  In d ds -> (d == x)%Q -> 1 <= dense_rank ascending ds x.
Proof.
  intros Hd Hdx. unfold dense_rank. apply (filter_length_some _ _ d Hd).
  destruct ascending; apply Qle_bool_iff; rewrite Hdx; apply Qle_refl.
Qed.

Lemma dense_rank_lt (x y d : Q) :
  (x < y)%Q -> In d ds -> (d == y)%Q -> dense_rank true ds x < dense_rank true ds y.
Proof.
  intros Hxy Hd Hdy. unfold dense_rank. apply (filter_length_lt _ _ _ d); [|done| |].
  - intros e _ He. apply Qle_bool_iff in He. apply Qle_bool_iff.
    apply Qle_trans with x; [done | by apply Qlt_le_weak].
  - destruct (Qle_bool d x) eqn:E; [|done]. apply Qle_bool_iff in E.
    rewrite Hdy in E. exfalso. by apply (Qlt_not_le x y).
  - apply Qle_bool_iff. rewrite Hdy. apply Qle_refl.
Qed.

Lemma dense_rank_gt (x y d : Q) :
  (x < y)%Q -> In d ds -> (d == x)%Q -> dense_rank false ds y < dense_rank false ds x.
Proof.
  intros Hxy Hd Hdx. unfold dense_rank. apply (filter_length_lt _ _ _ d); [|done| |].
  - intros e _ He. apply Qle_bool_iff in He. apply Qle_bool_iff.
    apply Qle_trans with y; [by apply Qlt_le_weak | done].
  - destruct (Qle_bool y d) eqn:E; [|done]. apply Qle_bool_iff in E.
    rewrite Hdx in E. exfalso. by apply (Qlt_not_le x y).
  - apply Qle_bool_iff. rewrite Hdx. apply Qle_refl.
Qed.

Lemma dense_rank_le_length (ascending : bool) (x : Q) :
  dense_rank ascending ds x <= length ds.
Proof. unfold dense_rank. apply List.filter_length_le. Qed.

Lemma strict_nth_le (i j : nat) :
  i < length ds -> j < length ds ->
  Qle_bool (nth i ds 0%Q) (nth j ds 0%Q) = Nat.leb i j.
Proof.
  intros Hi Hj. destruct (Nat.leb_spec i j) as [Hij|Hij].
  - apply Qle_bool_iff. by apply sorted_nth_le.
  - destruct (Qle_bool _ _) eqn:E; [|done]. apply Qle_bool_iff in E. exfalso.
    apply (Qlt_not_le (nth j ds 0%Q) (nth i ds 0%Q)); [|done].
    by apply (sorted_nth (R := Qlt)).
Qed.

(** The distinct values themselves take the ranks 1, 2, ... in order. *)
Lemma dense_rank_nth (ascending : bool) (j : nat) :
  j < length ds ->
  dense_rank ascending ds (nth j ds 0%Q) = if ascending then S j else length ds - j.
Proof.
  intros Hj. unfold dense_rank. rewrite (list_as_nth_seq 0%Q ds) at 1.
  rewrite filter_map_length. destruct ascending.
  - rewrite (filter_ext_length _ (fun i => Nat.leb i j)).
    + rewrite count_upto. lia.
    + intros i Hi. apply in_seq in Hi. apply strict_nth_le; lia.
  - rewrite (filter_ext_length _ (fun i => Nat.leb j i)).
    + apply count_from.
    + intros i Hi. apply in_seq in Hi. apply strict_nth_le; lia.
Qed.

End Dense_rank.

(** Dense ranks as [profile_segments] takes them: every number of the
    column gets a whole rank from 1 up, equal numbers share a rank, a
    larger number has a larger rank when ascending and a smaller one when
    descending, and no rank below one that occurs is skipped. *)
Theorem rank_dense_order (ascending : bool) (s out : Series) :
  rank_dense ascending s = Ok out ->
  (forall i x, s !! i = Some (Num x) ->
     exists a, out !! i = Some (Num (inject_Z (Z.of_nat a))) /\ 1 <= a) /\
  (forall i j x y a b,
     s !! i = Some (Num x) -> s !! j = Some (Num y) ->
     out !! i = Some (Num (inject_Z (Z.of_nat a))) ->
     out !! j = Some (Num (inject_Z (Z.of_nat b))) ->
     ((x == y)%Q -> a = b) /\
     ((x < y)%Q -> if ascending then a < b else b < a)) /\
  (forall i x a k,
     s !! i = Some (Num x) -> out !! i = Some (Num (inject_Z (Z.of_nat a))) ->
     1 <= k <= a ->
     exists j y, s !! j = Some (Num y) /\ out !! j = Some (Num (inject_Z (Z.of_nat k)))).
Proof.
  intros Hout. destruct (rank_dense_cells _ _ _ Hout) as (xs & Exs & ->).
  set (ds := dedup_sorted (sort_values xs)).
  assert (Hstrict : StronglySorted Qlt ds)
    by apply dedup_sorted_strict, sort_values_sorted.
  assert (Hrep : forall i x, s !! i = Some (Num x) -> exists d, In d ds /\ (d == x)%Q).
  { intros i x Hx. apply dedup_sorted_represents.
    apply (Permutation_in _ (Permutation_sym (sort_values_perm xs))).
    by apply (numbers_In s xs x Exs), (In_lookup_cell _ i). }
  assert (Hcell : forall i x, s !! i = Some (Num x) ->
            map (fun v => match v with
                          | Num x => Num (inject_Z (Z.of_nat (dense_rank ascending ds x)))
                          | _ => NaN
                          end) s !! i
            = Some (Num (inject_Z (Z.of_nat (dense_rank ascending ds x))))).
  { intros i x Hx. by rewrite lookup_map, Hx. }
  split; [|split].
  - intros i x Hx. exists (dense_rank ascending ds x). split; [by apply Hcell|].
    destruct (Hrep i x Hx) as (d & Hd & Hdx). by apply (dense_rank_positive ds _ x d).
  - intros i j x y a b Hx Hy Ha Hb.
    rewrite (Hcell i x Hx) in Ha. rewrite (Hcell j y Hy) in Hb.
    injection Ha as Ha. injection Hb as Hb. apply Nat2Z.inj in Ha, Hb. subst a b. split.
    + apply dense_rank_eq.
    + intros Hxy. destruct ascending.
      * destruct (Hrep j y Hy) as (d & Hd & Hdy). by apply (dense_rank_lt ds x y d).
      * destruct (Hrep i x Hx) as (d & Hd & Hdx). by apply (dense_rank_gt ds x y d).
  - intros i x a k Hx Ha Hk. rewrite (Hcell i x Hx) in Ha.
    injection Ha as Ha. apply Nat2Z.inj in Ha. subst a.
    pose proof (dense_rank_le_length ds ascending x) as Hlen.
    set (p := if ascending then k - 1 else length ds - k).
    assert (Hp : p < length ds) by (unfold p; destruct ascending; lia).
    assert (Hin : In (Num (nth p ds 0%Q)) s).
    { apply (numbers_In s xs _ Exs), (Permutation_in _ (sort_values_perm xs)).
      apply dedup_sorted_subset. by apply nth_In. }
    apply list_elem_of_In, list_elem_of_lookup_1 in Hin as [j Hj].
    exists j, (nth p ds 0%Q). split; [done|]. rewrite (Hcell j _ Hj).
    rewrite (dense_rank_nth ds Hstrict ascending p Hp). do 3 f_equal.
    unfold p. destruct ascending; lia.
Qed.

Lemma rank_dense_order_witness :
  (forall i x, [Num 30; Num 10; NaN; Num 30; Num 20] !! i = Some (Num x) ->
     exists a, [Num 1; Num 3; NaN; Num 1; Num 2] !! i = Some (Num (inject_Z (Z.of_nat a)))
               /\ 1 <= a) /\
  (forall i j x y a b,
     [Num 30; Num 10; NaN; Num 30; Num 20] !! i = Some (Num x) ->
     [Num 30; Num 10; NaN; Num 30; Num 20] !! j = Some (Num y) ->
     [Num 1; Num 3; NaN; Num 1; Num 2] !! i = Some (Num (inject_Z (Z.of_nat a))) ->
     [Num 1; Num 3; NaN; Num 1; Num 2] !! j = Some (Num (inject_Z (Z.of_nat b))) ->
     ((x == y)%Q -> a = b) /\
     ((x < y)%Q -> if false then a < b else b < a)) /\
  (forall i x a k,
     [Num 30; Num 10; NaN; Num 30; Num 20] !! i = Some (Num x) ->
     [Num 1; Num 3; NaN; Num 1; Num 2] !! i = Some (Num (inject_Z (Z.of_nat a))) ->
     1 <= k <= a ->
     exists j y, [Num 30; Num 10; NaN; Num 30; Num 20] !! j = Some (Num y) /\
                 [Num 1; Num 3; NaN; Num 1; Num 2] !! j
                 = Some (Num (inject_Z (Z.of_nat k)))).
Proof.
  apply (rank_dense_order false [Num 30; Num 10; NaN; Num 30; Num 20]
           [Num 1; Num 3; NaN; Num 1; Num 2]).
  vm_compute. reflexivity.
Defined.

(** ** The segment profile counts every customer once *)

Lemma rmap_pure {A B} (f : A -> result B) (g : A -> B) (l : list A) :
  (forall x, f x = Ok (g x)) -> rmap f l = Ok (map g l).
Proof.
  intros Hf. induction l as [|x l IH]; simpl; [done|]. by rewrite Hf, IH.
Qed.

Lemma rmap_cons_ok {A B} (f : A -> result B) (x : A) (xs : list A) (ys : list B) :
  rmap f (x :: xs) = Ok ys ->
  exists y ys', f x = Ok y /\ rmap f xs = Ok ys' /\ ys = y :: ys'.
Proof.
  simpl. destruct (f x) as [y|]; [|discriminate]. cbn [rbind].
  destruct (rmap f xs) as [ys'|]; [|discriminate]. cbn [rbind].
  intros Hys. injection Hys as <-. by exists y, ys'.
Qed.

(** The first two columns of the grouped table: the distinct labels in
    increasing order and, for each, the number of its rows that have a
    customer id. *)
Lemma groupby_agg_head (label_col : string) (df profile : Frame) :
  Segmentation.groupby_agg label_col Segmentation.profile_aggregations df = Ok profile ->
  exists labels xs ids rest,
    lookup_col label_col df = Some labels /\
    numbers labels = Ok xs /\
    lookup_col "customer_unique_id" df = Some ids /\
    profile =
      (label_col, map Num (dedup_sorted (sort_values xs))) ::
      ("customers",
       map (fun k => Num (inject_Z (Z.of_nat (length
              (List.filter (fun v => negb (isna v)) (take (group_rows k labels) ids))))))
           (dedup_sorted (sort_values xs))) :: rest.
Proof.
  unfold Segmentation.groupby_agg, column, group_keys. intros Hrun.
  destruct (lookup_col label_col df) as [labels|] eqn:Elabels; [|discriminate].
  cbn [rbind] in Hrun.
  destruct (numbers labels) as [xs|] eqn:Exs; [|discriminate]. cbn [rbind] in Hrun.
  destruct (rmap _ Segmentation.profile_aggregations) as [cols|] eqn:Ecols; [|discriminate].
  cbn [rbind] in Hrun. injection Hrun as <-.
  unfold Segmentation.profile_aggregations in Ecols.
  apply rmap_cons_ok in Ecols as (col & rest & Hcol & _ & ->).
  cbn [fst snd] in Hcol.
  destruct (lookup_col "customer_unique_id" df) as [ids|] eqn:Eids; [|discriminate].
  cbn [rbind] in Hcol.
  rewrite (rmap_pure _ (fun k => Num (inject_Z (Z.of_nat (length
             (List.filter (fun v => negb (isna v)) (take (group_rows k labels) ids)))))))
    in Hcol by done.
  cbn [rbind] in Hcol. injection Hcol as Hcol. subst col.
  by exists labels, xs, ids, rest.
Qed.

Lemma profile_segments_keeps (label_col : string) (df prof : Frame) :
  Segmentation.profile_segments label_col df = Ok prof ->
  exists profile,
    Segmentation.groupby_agg label_col Segmentation.profile_aggregations df = Ok profile /\
    forall c, ~ In c ["share"; "recency_rank"; "value_rank"; "freq_rank"] ->
              lookup_col c prof = lookup_col c profile.
Proof.
  unfold Segmentation.profile_segments. intros Hrun.
  destruct (Segmentation.groupby_agg _ _ df) as [profile|]; [|discriminate]. cbn [rbind] in Hrun.
  exists profile. split; [done|].
  match type of Hrun with
  | match ?body profile with _ => _ end = _ =>
      assert (Htouch : touches ["share"; "recency_rank"; "value_rank"; "freq_rank"] body);
      [|destruct (body profile) as [[[]|e] prof'] eqn:Ebody; [|discriminate]]
  end.
  { repeat first
      [ apply touches_bind; [first [apply touches_getitem | apply touches_lift]|intros ?]
      | apply touches_bind; [apply touches_setitem; simpl; tauto|intros ?]
      | apply touches_setitem; simpl; tauto ]. }
  injection Hrun as <-. intros c Hc. by apply (Htouch _ _ _ Ebody).
Qed.

Lemma group_rows_size (k : Q) (labels : Series) :
  length (group_rows k labels) = group_size k labels.
Proof.
  unfold group_rows, group_size. symmetry.
  etransitivity;
    [|apply (filter_map_length (fun v => eq_num v k) (fun i => nth i labels NaN))].
  by rewrite <- list_as_nth_seq.
Qed.

Lemma take_present (idx : list nat) (ids : Series) :
  isna_any ids = false -> (forall i, In i idx -> i < length ids) ->
  length (List.filter (fun v => negb (isna v)) (take idx ids)) = length idx.
Proof.
  intros Hfull Hidx. unfold take.
  rewrite filter_map_length, (filter_ext_length _ (fun _ => true)).
  - clear. induction idx; simpl; auto.
  - intros i Hi. apply negb_true_iff.
    assert (Hcell : In (nth i ids NaN) ids) by (apply nth_In; auto).
    unfold isna_any in Hfull. destruct (isna (nth i ids NaN)) eqn:E; [|done].
    assert (existsb isna ids = true) by (apply existsb_exists; eauto). congruence.
Qed.

(** A strictly increasing list holds a given number at most once. *)
Lemma strict_unique_key (ds : list Q) (x d : Q) :
  StronglySorted Qlt ds -> In d ds -> (d == x)%Q ->
  length (List.filter (fun k => Qeq_bool x k) ds) = 1.
Proof.
  induction 1 as [|a ds Hds IH Ha]; intros Hd Hdx; [destruct Hd|]. simpl.
  destruct (Qeq_bool x a) eqn:Exa.
  - apply Qeq_bool_iff in Exa. simpl. f_equal.
    rewrite (filter_ext_length _ (fun _ => false)).
    + clear. induction ds; simpl; auto.
    + intros k Hk. rewrite Forall_forall in Ha.
      specialize (Ha k (proj2 (list_elem_of_In _ _) Hk)).
      destruct (Qeq_bool x k) eqn:Exk; [|done]. apply Qeq_bool_iff in Exk.
      rewrite <- Exa, Exk in Ha. by apply Qlt_irrefl in Ha.
  - destruct Hd as [->|Hd]; [|by apply IH].
    assert (Heq : Qeq_bool x d = true) by (apply Qeq_bool_iff; by symmetry). congruence.
Qed.

Lemma list_sum_step (n : nat) (l : list nat) : list_sum (n :: l) = n + list_sum l.
Proof. done. Qed.

Lemma group_sizes_add_up (keys : list Q) (labels : Series) :
  (forall v, In v labels ->
     exists x, v = Num x /\ length (List.filter (fun k => Qeq_bool x k) keys) = 1) ->
  list_sum (map (fun k => group_size k labels) keys) = length labels.
Proof.
  induction labels as [|v labels IH]; intros Hall.
  - clear. induction keys; simpl; auto.
  - destruct (Hall v (or_introl eq_refl)) as (x & -> & Hone).
    specialize (IH (fun u Hu => Hall u (or_intror Hu))).
    assert (Hstep :
      list_sum (map (fun k => group_size k (Num x :: labels)) keys)
      = length (List.filter (fun k => Qeq_bool x k) keys)
        + list_sum (map (fun k => group_size k labels) keys)).
    { clear. induction keys as [|k keys IHk]; [done|].
      cbn [map]. rewrite !list_sum_step, IHk.
      unfold group_size. cbn [List.filter eq_num].
      destruct (Qeq_bool x k); cbn [length]; lia. }
    rewrite Hstep, Hone, IH. done.
Qed.

(** The [segment] and [customers] columns of a profile. *)
Lemma profile_customers_column (df prof : Frame) (labels ids : Series) :
  Segmentation.profile_segments "segment" df = Ok prof ->
  lookup_col "segment" df = Some labels ->
  lookup_col "customer_unique_id" df = Some ids ->
  (forall v, In v labels -> exists x, v = Num x) ->
  isna_any ids = false -> length ids = length labels ->
  exists keys,
    lookup_col "segment" prof = Some (map Num keys) /\
    StronglySorted Qlt keys /\
    lookup_col "customers" prof
      = Some (map (fun k => Num (inject_Z (Z.of_nat (group_size k labels)))) keys) /\
    (forall k, In k keys -> 1 <= group_size k labels) /\
    list_sum (map (fun k => group_size k labels) keys) = length labels.
Proof.
  intros Hrun Hlabels Hids Hnum Hfull Hlen.
  destruct (profile_segments_keeps _ _ _ Hrun) as (profile & Hgroup & Hkeeps).
  destruct (groupby_agg_head _ _ _ Hgroup)
    as (labels' & xs & ids' & rest & Hlabels' & Exs & Hids' & ->).
  rewrite Hlabels in Hlabels'. injection Hlabels' as <-.
  rewrite Hids in Hids'. injection Hids' as <-.
  set (keys := dedup_sorted (sort_values xs)) in *.
  assert (Hstrict : StronglySorted Qlt keys)
    by apply dedup_sorted_strict, sort_values_sorted.
  exists keys. split; [rewrite Hkeeps; [done | simpl; intuition discriminate]|].
  split; [done|]. split; [|split].
  - rewrite Hkeeps by (simpl; intuition discriminate). simpl. f_equal.
    apply map_ext. intros k. do 3 f_equal.
    rewrite take_present, group_rows_size; [done|done|].
    intros i Hi. unfold group_rows in Hi. apply filter_In in Hi as [Hi _].
    apply in_seq in Hi. lia.
  - intros k Hk. unfold group_size. apply (filter_length_some _ _ (Num k)).
    + apply (numbers_In labels xs k Exs), (Permutation_in _ (sort_values_perm xs)).
      by apply dedup_sorted_subset.
    + simpl. by apply Qeq_bool_iff.
  - apply group_sizes_add_up. intros v Hv. destruct (Hnum v Hv) as [x ->].
    exists x. split; [done|].
    destruct (dedup_sorted_represents (sort_values xs) x) as (d & Hd & Hdx).
    { apply (Permutation_in _ (Permutation_sym (sort_values_perm xs))).
      by apply (numbers_In labels xs x Exs). }
    by apply (strict_unique_key keys x d).
Qed.

(** The profile of a labelled customer table has one row per segment, in
    increasing order of the label; its [customers] column holds the size
    of each segment, no segment is empty, and the sizes add up to the
    number of customers: every customer is counted in exactly one
    segment. *)
Theorem profile_segments_counts (df prof : Frame) (labels ids : Series) :
  Segmentation.profile_segments "segment" df = Ok prof ->
  lookup_col "segment" df = Some labels ->
  lookup_col "customer_unique_id" df = Some ids ->
  (forall v, In v labels -> exists x, v = Num x) ->
  isna_any ids = false -> length ids = length labels ->
  exists keys,
    lookup_col "segment" prof = Some (map Num keys) /\
    StronglySorted Qlt keys /\
    lookup_col "customers" prof
      = Some (map (fun k => Num (inject_Z (Z.of_nat (group_size k labels)))) keys) /\
    (forall k, In k keys -> 1 <= group_size k labels) /\
    list_sum (map (fun k => group_size k labels) keys) = length labels.
Proof. exact (profile_customers_column df prof labels ids). Qed.

Lemma profile_segments_counts_witness :
  exists keys,
    lookup_col "segment" segment_profile_table = Some (map Num keys) /\
    StronglySorted Qlt keys /\
    lookup_col "customers" segment_profile_table
      = Some (map (fun k => Num (inject_Z (Z.of_nat
                (group_size k segment_labels)))) keys) /\
    (forall k, In k keys -> 1 <= group_size k segment_labels) /\
    list_sum (map (fun k => group_size k segment_labels) keys)
    = length segment_labels.
Proof.
  apply (profile_segments_counts segmented_table segment_profile_table
           segment_labels
           customer_ids).
  - vm_compute. reflexivity.
  - reflexivity.
  - reflexivity.
  - intros v Hv. simpl in Hv.
    repeat (destruct Hv as [<-|Hv]; [by eexists|]). destruct Hv.
  - reflexivity.
  - reflexivity.
Defined.

(** ** Segment shares *)

Lemma profile_segments_share (label_col : string) (df prof : Frame) :
  Segmentation.profile_segments label_col df = Ok prof ->
  exists profile c sh,
    Segmentation.groupby_agg label_col Segmentation.profile_aggregations df = Ok profile /\
    lookup_col "customers" profile = Some c /\
    share_of_total c = Ok sh /\
    lookup_col "share" prof = Some sh.
Proof.
  unfold Segmentation.profile_segments. intros Hrun.
  destruct (Segmentation.groupby_agg _ _ df) as [profile|]; [|discriminate].
  cbn [rbind] in Hrun.
  match type of Hrun with
  | match ?body profile with _ => _ end = _ =>
      destruct (body profile) as [[[]|e] prof'] eqn:Ebody; [|discriminate]
  end.
  injection Hrun as <-.
  apply bind_ok in Ebody as (c & p0 & Hc & Ebody).
  apply bind_ok in Ebody as (sh & p1 & Hsh & Ebody).
  apply bind_ok in Ebody as ([] & p2 & Hset & Ebody).
  unfold getitem in Hc. destruct (lookup_col "customers" profile) as [c'|] eqn:Ec;
    [|discriminate].
  injection Hc as -> <-. unfold lift in Hsh. injection Hsh as Hsh <-.
  unfold setitem in Hset. injection Hset as <-.
  exists profile, c, sh. repeat (split; [done|]).
  match type of Ebody with
  | ?rest _ = _ =>
      assert (Htouch : touches ["recency_rank"; "value_rank"; "freq_rank"] rest)
  end.
  { repeat first
      [ apply touches_bind; [first [apply touches_getitem | apply touches_lift]|intros ?]
      | apply touches_bind; [apply touches_setitem; simpl; tauto|intros ?]
      | apply touches_setitem; simpl; tauto ]. }
  rewrite (Htouch _ _ _ Ebody) by (simpl; intuition discriminate).
  apply lookup_assign_same.
Qed.

Lemma Qsum_sizes (sizes : list nat) :
  (Qsum (map (fun n => inject_Z (Z.of_nat n)) sizes) == inject_Z (Z.of_nat (list_sum sizes)))%Q.
Proof.
  induction sizes as [|n sizes IH]; [reflexivity|].
  cbn [map Qsum foldr]. fold (Qsum (map (fun n => inject_Z (Z.of_nat n)) sizes)).
  rewrite IH, list_sum_step, Nat2Z.inj_add, inject_Z_plus. reflexivity.
Qed.

Lemma Qred_inject_Z (z : Z) : Qred (inject_Z z) = inject_Z z.
Proof.
  unfold Qred, inject_Z.
  pose proof (Z.ggcd_gcd z 1) as Hg. pose proof (Z.ggcd_correct_divisors z 1) as Hd.
  destruct (Z.ggcd z 1) as [g [a b]]. simpl in Hg, Hd.
  rewrite Z.gcd_1_r in Hg. subst g. destruct Hd as [Ha Hb].
  rewrite Z.mul_1_l in Ha, Hb. by subst.
Qed.

(** The [share] column of the profile of a labelled customer table
    holds, for each segment, the binary64 quotient of its size by the
    number of customers. *)
Theorem profile_segments_shares (df prof : Frame) (labels ids : Series) :
  Segmentation.profile_segments "segment" df = Ok prof ->
  lookup_col "segment" df = Some labels ->
  lookup_col "customer_unique_id" df = Some ids ->
  (forall v, In v labels -> exists x, v = Num x) ->
  isna_any ids = false -> length ids = length labels ->
  exists keys,
    lookup_col "segment" prof = Some (map Num keys) /\
    lookup_col "share" prof
      = Some (map (fun k =>
                     of_float (to_float (inject_Z (Z.of_nat (group_size k labels)))
                               / to_float (inject_Z (Z.of_nat (length labels))))) keys).
Proof.
  intros Hrun Hlabels Hids Hnum Hfull Hlen.
  destruct (profile_customers_column df prof labels ids Hrun Hlabels Hids Hnum Hfull Hlen)
    as (keys & Hkeys & _ & Hcustomers & _ & Hsum).
  destruct (profile_segments_keeps _ _ _ Hrun) as (profile & Hgroup & Hkeeps).
  destruct (profile_segments_share _ _ _ Hrun) as (profile' & c & sh & Hgroup' & Hc & Hsh & Hshare).
  rewrite Hgroup in Hgroup'. injection Hgroup' as <-.
  rewrite <- Hkeeps, Hcustomers in Hc by (simpl; intuition discriminate).
  injection Hc as <-.
  pose (size := fun k => inject_Z (Z.of_nat (group_size k labels))).
  assert (Ec : map (fun k => Num (inject_Z (Z.of_nat (group_size k labels)))) keys
               = map Num (map size keys)) by (by rewrite map_map).
  assert (Htotal : Qred (Qsum (map size keys)) = inject_Z (Z.of_nat (length labels))).
  { rewrite <- Qred_inject_Z. apply Qred_complete.
    unfold size. rewrite <- Hsum, <- Qsum_sizes, map_map. reflexivity. }
  exists keys. split; [done|].
  rewrite Hshare. f_equal. unfold share_of_total in Hsh.
  rewrite Ec, numbers_map_Num in Hsh. cbn [rbind] in Hsh. injection Hsh as <-.
  rewrite !map_map. apply map_ext. intros k. by rewrite Htotal.
Qed.

Lemma profile_segments_shares_witness :
  exists keys,
    lookup_col "segment" segment_profile_table = Some (map Num keys) /\
    lookup_col "share" segment_profile_table
      = Some (map (fun k =>
                     of_float (to_float (inject_Z (Z.of_nat (group_size k segment_labels)))
                               / to_float (inject_Z (Z.of_nat (length segment_labels)))))
                keys).
Proof.
  apply (profile_segments_shares segmented_table segment_profile_table
           segment_labels
           customer_ids).
  - vm_compute. reflexivity.
  - reflexivity.
  - reflexivity.
  - intros v Hv. simpl in Hv.
    repeat (destruct Hv as [<-|Hv]; [by eexists|]). destruct Hv.
  - reflexivity.
  - reflexivity.
Defined.

(** ** The left join that maps names back to customers *)

Lemma lookup_col_app (c : string) (f g : Frame) :
  lookup_col c (f ++ g)%list
  = match lookup_col c f with
    | Some s => Some s
    | None => lookup_col c g
    end.
Proof.
  induction f as [|[d t] f IH]; simpl; [done|]. by destruct (String.eqb d c).
Qed.

Lemma lookup_col_columns (c : string) (f : Frame) :
  lookup_col c f = None <-> ~ In c (columns f).
Proof.
  induction f as [|[d t] f IH]; simpl; [tauto|].
  destruct (String.eqb_spec d c) as [->|Hne]; [intuition discriminate | tauto].
Qed.

Lemma existsb_columns (c : string) (f : Frame) :
  existsb (String.eqb c) (columns f) = true <-> In c (columns f).
Proof.
  rewrite existsb_exists. split.
  - intros (d & Hd & Heq). apply String.eqb_eq in Heq. by subst d.
  - intros Hc. exists c. split; [done | apply String.eqb_refl].
Qed.

Lemma lookup_col_map_cells (g : Series -> Series) (c : string) (f : Frame) :
  lookup_col c (map (fun cs => (fst cs, g (snd cs))) f) = g <$> lookup_col c f.
Proof.
  induction f as [|[d t] f IH]; simpl; [done|]. by destruct (String.eqb d c).
Qed.

Lemma lookup_col_drop_key (key c : string) (f : Frame) :
  c <> key ->
  lookup_col c (List.filter (fun cs => negb (String.eqb (fst cs) key)) f) = lookup_col c f.
Proof.
  intros Hne. induction f as [|[d t] f IH]; simpl; [done|].
  destruct (String.eqb_spec d key) as [->|Hd]; simpl.
  - destruct (String.eqb_spec key c); [congruence | done].
  - by rewrite IH.
Qed.

Lemma key_eqb_sym (a b : value) : key_eqb a b = key_eqb b a.
Proof.
  destruct a as [|x|t], b as [|y|u]; simpl; try done.
  - destruct (Qeq_bool x y) eqn:E, (Qeq_bool y x) eqn:E'; try done.
    + apply Qeq_bool_iff in E. symmetry in E. apply Qeq_bool_iff in E. congruence.
    + apply Qeq_bool_iff in E'. symmetry in E'. apply Qeq_bool_iff in E'. congruence.
  - apply String.eqb_sym.
Qed.

Lemma key_eqb_trans (a b c : value) :
  key_eqb a b = true -> key_eqb b c = true -> key_eqb a c = true.
Proof.
  destruct a as [|x|t], b as [|y|u], c as [|z|v]; simpl; try done.
  - intros Hxy Hyz. apply Qeq_bool_iff in Hxy, Hyz. apply Qeq_bool_iff.
    by rewrite Hxy.
  - intros Htu Huv. apply String.eqb_eq in Htu, Huv. apply String.eqb_eq. congruence.
Qed.

Lemma filter_none {A} (P : A -> bool) (l : list A) :
  (forall i, In i l -> P i = false) -> List.filter P l = [].
Proof.
  induction l as [|x l IH]; intros Hnone; simpl; [done|].
  rewrite (Hnone x) by (by left). apply IH. intros i Hi. apply Hnone. by right.
Qed.

Lemma filter_single {A} (P : A -> bool) (l : list A) (j : A) :
  List.NoDup l -> In j l -> P j = true ->
  (forall i, In i l -> P i = true -> i = j) ->
  List.filter P l = [j].
Proof.
  induction l as [|x l IH]; intros Hnd Hin Hj Hone; [destruct Hin|].
  inversion Hnd as [|? ? Hnot Hnd']; subst. simpl.
  destruct Hin as [->|Hin].
  - rewrite Hj. f_equal. apply filter_none. intros i Hi.
    destruct (P i) eqn:E; [|done].
    assert (i = j) as -> by (apply Hone; [by right|done]). contradiction.
  - destruct (P x) eqn:E.
    + assert (x = j) as -> by (apply Hone; [by left|done]). contradiction.
    + apply IH; [done|done|done|]. intros i Hi. apply Hone. by right.
Qed.

Lemma key_matches_In (k : value) (rkeys : Series) (j : nat) :
  In j (key_matches k rkeys) <-> exists k', rkeys !! j = Some k' /\ key_eqb k' k = true.
Proof.
  unfold key_matches. rewrite filter_In, in_seq. split.
  - intros [Hj Hk]. destruct (rkeys !! j) as [k'|] eqn:E.
    + exists k'. by rewrite (nth_lookup_Some _ _ NaN _ E) in Hk.
    + apply lookup_ge_None in E. lia.
  - intros (k' & Hk' & Hk). split.
    + apply lookup_lt_Some in Hk'. lia.
    + by rewrite (nth_lookup_Some _ _ NaN _ Hk').
Qed.

Lemma key_matches_one (k k' : value) (rkeys : Series) (j : nat) :
  distinct_keys rkeys ->
  rkeys !! j = Some k' -> key_eqb k' k = true ->
  key_matches k rkeys = [j].
Proof.
  intros Hdistinct Hj Hk. unfold key_matches. apply filter_single.
  - apply NoDup_ListNoDup, NoDup_seq.
  - apply in_seq. apply lookup_lt_Some in Hj. lia.
  - by rewrite (nth_lookup_Some _ _ NaN _ Hj).
  - intros i Hi Hik. apply in_seq in Hi.
    destruct (rkeys !! i) as [a|] eqn:Ea; [|apply lookup_ge_None in Ea; lia].
    rewrite (nth_lookup_Some _ _ NaN _ Ea) in Hik.
    apply (Hdistinct i j a k' Ea Hj).
    apply (key_eqb_trans a k k'); [done|]. by rewrite key_eqb_sym.
Qed.

Lemma key_matches_none (k : value) (rkeys : Series) :
  (forall j k', rkeys !! j = Some k' -> key_eqb k' k = false) ->
  key_matches k rkeys = [].
Proof.
  intros Hnone. unfold key_matches. apply filter_none. intros j Hj.
  apply in_seq in Hj.
  destruct (rkeys !! j) as [a|] eqn:Ea; [|apply lookup_ge_None in Ea; lia].
  rewrite (nth_lookup_Some _ _ NaN _ Ea). by apply (Hnone j).
Qed.

(** With distinct right keys every left row is joined once. *)
Lemma join_rows_distinct (lkeys rkeys : Series) :
  distinct_keys rkeys ->
  join_rows lkeys rkeys
  = map (fun i => (i, head (key_matches (nth i lkeys NaN) rkeys))) (seq 0 (length lkeys)).
Proof.
  intros Hdistinct. unfold join_rows.
  induction (seq 0 (length lkeys)) as [|i l IH]; [done|].
  rewrite !map_cons, concat_cons, IH. clear IH.
  destruct (key_matches (nth i lkeys NaN) rkeys) as [|j js] eqn:E; [done|].
  assert (Hj : In j (key_matches (nth i lkeys NaN) rkeys)) by (rewrite E; by left).
  apply key_matches_In in Hj as (k' & Hk' & Hk).
  rewrite (key_matches_one _ _ _ _ Hdistinct Hk' Hk) in E.
  injection E as <-. done.
Qed.

Lemma merge_left_disjoint (left right out : Frame) (key : string) (lkeys rkeys : Series) :
  merge_left left right key = Ok out ->
  lookup_col key left = Some lkeys -> lookup_col key right = Some rkeys ->
  (forall c, c <> key -> In c (columns right) -> ~ In c (columns left)) ->
  out = (map (fun cs => (fst cs,
                         (fun s : Series =>
                            map (fun p => nth (fst p) s NaN) (join_rows lkeys rkeys))
                           (snd cs))) left ++
         map (fun cs => (fst cs,
                         (fun s : Series =>
                            map (fun p => match snd p with
                                          | Some j => nth j s NaN
                                          | None => NaN
                                          end) (join_rows lkeys rkeys)) (snd cs)))
             (List.filter (fun cs => negb (String.eqb (fst cs) key)) right))%list.
Proof.
  intros Hout Hl Hr Hnoclash. unfold merge_left, column in Hout.
  rewrite Hl, Hr in Hout. cbn [rbind] in Hout.
  destruct (_ || _) in Hout; [discriminate|].
  cbv zeta in Hout. injection Hout as <-.
  assert (Hclash : forall c, negb (String.eqb c key)
                             && existsb (String.eqb c) (columns left)
                             && existsb (String.eqb c) (columns right) = false).
  { intros c. destruct (String.eqb_spec c key) as [|Hne]; [done|]. simpl.
    destruct (existsb (String.eqb c) (columns left)) eqn:El; [|done].
    destruct (existsb (String.eqb c) (columns right)) eqn:Er; [|done].
    apply existsb_columns in El, Er. by destruct (Hnoclash c Hne Er). }
  f_equal.
  - apply map_ext. intros [d t]. simpl. by rewrite Hclash.
  - apply map_ext. intros [d t]. simpl. by rewrite Hclash.
Qed.

Lemma rectangular_check (f : Frame) :
  forallb (fun cs => Nat.eqb (length (snd cs)) (nrows f)) f = true -> rectangular f.
Proof.
  intros Hall c s Hs. rewrite forallb_forall in Hall.
  assert (Hin : In (c, s) f).
  { clear Hall. induction f as [|[d t] f IH]; simpl in Hs; [discriminate|].
    destruct (String.eqb_spec d c) as [->|Hne].
    - inversion Hs. by left.
    - right. by apply IH. }
  apply Hall in Hin. by apply Nat.eqb_eq in Hin.
Qed.

Lemma rectangular_column (f : Frame) (c c' : string) (s s' : Series) :
  rectangular f -> lookup_col c f = Some s -> lookup_col c' f = Some s' ->
  length s = length s'.
Proof. intros Hrect Hs Hs'. by rewrite (Hrect c s Hs), (Hrect c' s' Hs'). Qed.

Lemma merge_left_joined (left right out : Frame) (key : string) (lkeys rkeys : Series) :
  merge_left left right key = Ok out ->
  lookup_col key left = Some lkeys -> lookup_col key right = Some rkeys ->
  rectangular left ->
  (forall c, c <> key -> In c (columns right) -> ~ In c (columns left)) ->
  distinct_keys rkeys ->
  (forall c s, lookup_col c left = Some s -> lookup_col c out = Some s) /\
  (forall c s, c <> key -> lookup_col c right = Some s ->
     exists o,
       lookup_col c out = Some o /\ length o = length lkeys /\
       forall i k, lkeys !! i = Some k ->
         (forall j k', rkeys !! j = Some k' -> key_eqb k' k = true ->
                       o !! i = Some (nth j s NaN)) /\
         ((forall j k', rkeys !! j = Some k' -> key_eqb k' k = false) ->
          o !! i = Some NaN)).
Proof.
  intros Hout Hl Hr Hrect Hnoclash Hdistinct.
  rewrite (merge_left_disjoint _ _ _ _ _ _ Hout Hl Hr Hnoclash).
  rewrite (join_rows_distinct _ _ Hdistinct). split.
  - intros c s Hs. rewrite lookup_col_app.
    pose proof (lookup_col_map_cells
                  (fun s : Series =>
                     map (fun p : nat * option nat => nth (fst p) s NaN)
                       (map (fun i => (i, head (key_matches (nth i lkeys NaN) rkeys)))
                            (seq 0 (length lkeys))))
                  c left) as Hg.
    cbv beta in Hg. rewrite Hg, Hs. cbn [fmap option_fmap option_map].
    f_equal. rewrite map_map. cbn [fst].
    rewrite <- (rectangular_column left c key s lkeys Hrect Hs Hl).
    symmetry. apply list_as_nth_seq.
  - intros c s Hne Hs.
    assert (Hmiss : lookup_col c left = None).
    { apply lookup_col_columns, Hnoclash; [done|].
      destruct (existsb (String.eqb c) (columns right)) eqn:E.
      - by apply existsb_columns.
      - assert (Hnot : ~ In c (columns right)).
        { intros Hin. apply existsb_columns in Hin. congruence. }
        apply lookup_col_columns in Hnot. congruence. }
    pose proof (lookup_col_map_cells
                  (fun s : Series =>
                     map (fun p : nat * option nat =>
                            match snd p with
                            | Some j => nth j s NaN
                            | None => NaN
                            end)
                       (map (fun i => (i, head (key_matches (nth i lkeys NaN) rkeys)))
                            (seq 0 (length lkeys))))
                  c (List.filter (fun cs => negb (String.eqb (fst cs) key)) right)) as Hg.
    cbv beta in Hg. rewrite lookup_col_drop_key, Hs in Hg by done.
    pose proof (lookup_col_map_cells
                  (fun s : Series =>
                     map (fun p : nat * option nat => nth (fst p) s NaN)
                       (map (fun i => (i, head (key_matches (nth i lkeys NaN) rkeys)))
                            (seq 0 (length lkeys))))
                  c left) as Hleft.
    cbv beta in Hleft. rewrite Hmiss in Hleft.
    eexists. split; [|split].
    + rewrite lookup_col_app, Hleft. exact Hg.
    + by rewrite !length_map, length_seq.
    + intros i k Hk.
      assert (Hi : i < length lkeys) by (by eapply lookup_lt_Some).
      rewrite map_map, lookup_map, lookup_seq_lt by done.
      cbn [fmap option_fmap option_map snd Nat.add].
      rewrite (nth_lookup_Some _ _ NaN _ Hk). split.
      * intros j k' Hj Hkk. by rewrite (key_matches_one k k' rkeys j Hdistinct Hj Hkk).
      * intros Hnone. by rewrite key_matches_none.
Qed.

(** The left join of a table with a table whose keys are all different
    (two missing keys count as the same key), when the two share no
    column but the key: every column of the left table is kept as it is,
    and every other column of the right table arrives with one cell per
    left row, holding the cell of the right row with the same key, or a
    missing cell when no right row has it. *)
Theorem merge_left_cells (left right out : Frame) (key : string) (lkeys rkeys : Series) :
  merge_left left right key = Ok out ->
  lookup_col key left = Some lkeys -> lookup_col key right = Some rkeys ->
  rectangular left ->
  (forall c, c <> key -> In c (columns right) -> ~ In c (columns left)) ->
  distinct_keys rkeys ->
  (forall c s, lookup_col c left = Some s -> lookup_col c out = Some s) /\
  (forall c s, c <> key -> lookup_col c right = Some s ->
     exists o,
       lookup_col c out = Some o /\ length o = length lkeys /\
       forall i k, lkeys !! i = Some k ->
         (forall j k', rkeys !! j = Some k' -> key_eqb k' k = true ->
                       o !! i = Some (nth j s NaN)) /\
         ((forall j k', rkeys !! j = Some k' -> key_eqb k' k = false) ->
          o !! i = Some NaN)).
Proof. intros. eapply merge_left_joined; eassumption. Qed.

Lemma merge_left_cells_witness :
  (forall c s, lookup_col c segmented_table = Some s ->
               lookup_col c named_customers_table = Some s) /\
  (forall c s, c <> "segment" -> lookup_col c segment_names_table = Some s ->
     exists o,
       lookup_col c named_customers_table = Some o /\
       length o = length segment_labels /\
       forall i k, segment_labels !! i = Some k ->
         (forall j k', [Num 0; Num 1; Num 2] !! j = Some k' -> key_eqb k' k = true ->
                       o !! i = Some (nth j s NaN)) /\
         ((forall j k', [Num 0; Num 1; Num 2] !! j = Some k' -> key_eqb k' k = false) ->
          o !! i = Some NaN)).
Proof.
  apply (merge_left_cells segmented_table segment_names_table named_customers_table
           "segment" segment_labels [Num 0; Num 1; Num 2]).
  - vm_compute. reflexivity.
  - reflexivity.
  - reflexivity.
  - apply rectangular_check. vm_compute. reflexivity.
  - intros c Hne Hin. simpl in Hin. destruct Hin as [<-|[<-|[]]]; [done|].
    vm_compute. intuition discriminate.
  - intros i i' a b Hi Hi' Hab.
    destruct i as [|[|[|i]]]; [| | |discriminate Hi]; injection Hi as <-;
      (destruct i' as [|[|[|i']]]; [| | |discriminate Hi']); injection Hi' as <-;
      first [reflexivity | discriminate Hab].
Defined.

(** ** The loader of the raw tables *)

Section Loader_facts.
Context `{Loader.Files} `{Database}.

Lemma load_one_run (tf : string * string) (w : world) :
  Loader.load_one tf w =
    match Loader.read_csv (Loader.csv_path (snd tf)) with
    | Ok f =>
        if sink_accepts (db w) (Loader.raw_table (fst tf)) f
        then (Ok tt, World (heap w) (<[Loader.raw_table (fst tf) := f]> (db w))
                           (trace w ++ [Written (Loader.raw_table (fst tf))]))
        else (Raise (OperationalError (Loader.raw_table (fst tf))), w)
    | Raise e => (Raise e, w)
    end.
Proof.
  unfold Loader.load_one. rewrite lift_bind.
  destruct (Loader.read_csv _) as [f|e]; [|done]. unfold to_sql.
  by destruct (sink_accepts _ _ f).
Qed.

Lemma load_all_prefix (ds : list (string * string)) :
  forall w,
  exists (done : list ((string * string) * Frame)) (rest : list (string * string)),
    ds = (map fst done ++ rest)%list /\
    (forall tf f, In (tf, f) done -> Loader.read_csv (Loader.csv_path (snd tf)) = Ok f) /\
    db (snd (Loader.load_all ds w))
      = replace_tables (map (fun d => (Loader.raw_table (fst (fst d)), snd d)) done) (db w) /\
    trace (snd (Loader.load_all ds w))
      = (trace w ++ map (fun d => Written (Loader.raw_table (fst (fst d)))) done)%list /\
    heap (snd (Loader.load_all ds w)) = heap w /\
    (fst (Loader.load_all ds w) = Ok tt <-> rest = []) /\
    (forall tf rest', rest = tf :: rest' ->
       match Loader.read_csv (Loader.csv_path (snd tf)) with
       | Ok f => sink_accepts (db (snd (Loader.load_all ds w)))
                              (Loader.raw_table (fst tf)) f = false
       | Raise e => fst (Loader.load_all ds w) = Raise e
       end).
Proof.
  induction ds as [|tf ds IH]; intros w.
  - exists [], []. simpl. rewrite app_nil_r. repeat split; done.
  - assert (Hstep : Loader.load_all (tf :: ds) w =
                    match Loader.load_one tf w with
                    | (Ok _, w1) => Loader.load_all ds w1
                    | (Raise e, w1) => (Raise e, w1)
                    end) by done.
    rewrite Hstep, load_one_run. clear Hstep.
    destruct (Loader.read_csv (Loader.csv_path (snd tf))) as [f|e] eqn:Eread.
    + destruct (sink_accepts (db w) (Loader.raw_table (fst tf)) f) eqn:Esink.
      * set (w1 := World (heap w) (<[Loader.raw_table (fst tf) := f]> (db w))
                         (trace w ++ [Written (Loader.raw_table (fst tf))])).
        destruct (IH w1) as (done & rest & Hds & Hread & Hdb & Htrace & Hheap & Hok & Hstop).
        exists ((tf, f) :: done), rest.
        split; [by rewrite Hds|]. split.
        { intros tf' f' [E|Hin]; [injection E as <- <-; done | by apply Hread]. }
        split; [by rewrite Hdb|]. split.
        { rewrite Htrace. unfold w1. cbn [trace map]. by rewrite <- app_assoc. }
        split; [by rewrite Hheap|]. split; done.
      * exists [], (tf :: ds). cbn [map app fst snd].
        split; [done|]. split; [intros ? ? []|]. split; [done|].
        split; [by rewrite app_nil_r|]. split; [done|]. split; [split; discriminate|].
        intros tf' rest' E. injection E as <- <-. by rewrite Eread.
    + exists [], (tf :: ds). cbn [map app fst snd].
      split; [done|]. split; [intros ? ? []|]. split; [done|].
      split; [by rewrite app_nil_r|]. split; [done|]. split; [split; discriminate|].
      intros tf' rest' E. injection E as <- <-. by rewrite Eread.
Qed.

(** A run of the loader replaces a leading part of the six raw tables, in
    the order the script lists them, each with the content of its CSV
    file, and changes nothing else in the database.  It returns normally
    exactly when all six have been replaced; otherwise it has stopped at
    the first table whose file could not be read or that the database
    refused, with the earlier tables already replaced. *)
Theorem loader_loads_leading_tables (w : world) :
  exists (done : list ((string * string) * Frame)) (rest : list (string * string)),
    Loader.datasets = (map fst done ++ rest)%list /\
    (forall tf f, In (tf, f) done -> Loader.read_csv (Loader.csv_path (snd tf)) = Ok f) /\
    db (snd (Loader.main w))
      = replace_tables (map (fun d => (Loader.raw_table (fst (fst d)), snd d)) done) (db w) /\
    trace (snd (Loader.main w))
      = (trace w ++ map (fun d => Written (Loader.raw_table (fst (fst d)))) done)%list /\
    heap (snd (Loader.main w)) = heap w /\
    (fst (Loader.main w) = Ok tt <-> rest = []) /\
    (forall tf rest', rest = tf :: rest' ->
       match Loader.read_csv (Loader.csv_path (snd tf)) with
       | Ok f => sink_accepts (db (snd (Loader.main w))) (Loader.raw_table (fst tf)) f = false
       | Raise e => fst (Loader.main w) = Raise e
       end).
Proof. exact (load_all_prefix Loader.datasets w). Qed.

End Loader_facts.

Lemma replace_tables_other (l : list (string * Frame)) :
  forall (d : gmap string Frame) (t : string),
  ~ In t (map fst l) -> replace_tables l d !! t = d !! t.
Proof.
  unfold replace_tables. induction l as [|[t0 f0] l IH]; intros d t Hnot; [done|].
  simpl in *. rewrite IH by tauto. apply lookup_insert_ne. tauto.
Qed.

Lemma replace_tables_lookup (l : list (string * Frame)) :
  forall (d : gmap string Frame) (t : string) (f : Frame),
  List.NoDup (map fst l) -> In (t, f) l -> replace_tables l d !! t = Some f.
Proof.
  induction l as [|[t0 f0] l IH]; intros d t f Hnodup Hin; [destruct Hin|].
  apply NoDup_cons_iff in Hnodup as [Hfirst Hnodup].
  change (replace_tables ((t0, f0) :: l) d) with (replace_tables l (<[t0 := f0]> d)).
  destruct Hin as [E|Hin].
  - injection E as -> ->. rewrite replace_tables_other by done. apply lookup_insert_eq.
  - by apply IH.
Qed.

Section Loader_success.
Context `{Loader.Files} `{Database}.

(** When every one of the six files can be read and the database accepts
    every write, the loader returns normally; afterwards each raw table
    holds the content of its own file, and every other table of the
    database is as it was. *)
Theorem loader_loads_every_file (w : world) :
  (forall tf, In tf Loader.datasets ->
     exists f, Loader.read_csv (Loader.csv_path (snd tf)) = Ok f) ->
  (forall d t f, sink_accepts d t f = true) ->
  fst (Loader.main w) = Ok tt /\
  (forall table file f,
     In (table, file) Loader.datasets ->
     Loader.read_csv (Loader.csv_path file) = Ok f ->
     db (snd (Loader.main w)) !! Loader.raw_table table = Some f) /\
  (forall t, ~ In t (map (fun tf => Loader.raw_table (fst tf)) Loader.datasets) ->
             db (snd (Loader.main w)) !! t = db w !! t).
Proof.
  intros Hreadable Haccepts.
  destruct (load_all_prefix Loader.datasets w)
    as (done & rest & Hds & Hread & Hdb & _ & _ & Hok & Hstop).
  fold Loader.main in Hdb, Hok, Hstop.
  assert (Hrest : rest = []).
  { destruct rest as [|tf rest']; [done|]. exfalso.
    specialize (Hstop tf rest' eq_refl).
    destruct (Hreadable tf) as [f Hf]; [rewrite Hds; apply in_or_app; right; by left|].
    rewrite Hf, Haccepts in Hstop. discriminate. }
  subst rest. rewrite app_nil_r in Hds.
  assert (Hnames : map fst (map (fun d : (string * string) * Frame =>
                                   (Loader.raw_table (fst (fst d)), snd d)) done)
                   = map (fun tf => Loader.raw_table (fst tf)) Loader.datasets).
  { by rewrite Hds, !map_map. }
  split; [by apply Hok|]. rewrite Hdb. split.
  - intros table file f Hin Hf. apply replace_tables_lookup.
    + rewrite Hnames. vm_compute.
      repeat (constructor; [simpl; intuition discriminate|]). constructor.
    + rewrite Hds in Hin. apply in_map_iff in Hin as ([tf f'] & Etf & Hin).
      simpl in Etf. subst tf. apply in_map_iff. exists ((table, file), f').
      split; [|done]. simpl. f_equal.
      specialize (Hread _ _ Hin). simpl in Hread. congruence.
  - intros t Ht. apply replace_tables_other. by rewrite Hnames.
Qed.

End Loader_success.

Lemma loader_loads_every_file_witness :
  fst (@Loader.main toy_files toy_database (start ∅)) = Ok tt /\
  (forall table file f,
     In (table, file) Loader.datasets ->
     @Loader.read_csv toy_files (Loader.csv_path file) = Ok f ->
     db (snd (@Loader.main toy_files toy_database (start ∅))) !! Loader.raw_table table
     = Some f) /\
  (forall t, ~ In t (map (fun tf => Loader.raw_table (fst tf)) Loader.datasets) ->
             db (snd (@Loader.main toy_files toy_database (start ∅))) !! t
             = db (start ∅) !! t).
Proof.
  apply (@loader_loads_every_file toy_files toy_database (start ∅)).
  - intros tf _. by eexists.
  - reflexivity.
Defined.

(** ** The feature matrix of the segmentation *)

Lemma select_columns_total (cols : list string) (f : Frame) :
  (forall c, In c cols -> lookup_col c f <> None) ->
  exists X, select_columns cols f = Ok X.
Proof.
  intros Hhas. unfold select_columns. apply rmap_total. intros c Hc.
  specialize (Hhas c Hc). destruct (lookup_col c f); [by eexists | done].
Qed.

Section Clean_features_matrix.
Context `{Numerics}.

Lemma clean_features_logs (df df' : Frame) (r : list string) :
  Segmentation.clean_features df = (Ok r, df') ->
  r = Segmentation.clustering_features /\
  exists mo ml a al,
    lookup_col "monetary" df' = Some mo /\ np_log1p mo = Ok ml /\
    lookup_col "monetary_log" df' = Some ml /\
    lookup_col "avg_order_value" df' = Some a /\ np_log1p a = Ok al /\
    lookup_col "avg_order_value_log" df' = Some al.
Proof.
  intros Hrun. unfold Segmentation.clean_features in Hrun.
  apply bind_ok in Hrun as ([] & df1 & Hcoerce & Hrun).
  apply bind_ok in Hrun as (s1 & df1' & Hget & Hrun).
  apply bind_ok in Hrun as ([] & df2 & Hset & Hrun).
  apply bind_ok in Hrun as ([] & df3 & Hfill & Hrun).
  apply bind_ok in Hrun as (mo & df4 & Hm & Hrun).
  apply bind_ok in Hrun as (ml & df5 & Hml & Hrun).
  apply bind_ok in Hrun as ([] & df6 & Hsetm & Hrun).
  apply bind_ok in Hrun as (a & df7 & Ha & Hrun).
  apply bind_ok in Hrun as (al & df8 & Hal & Hrun).
  apply bind_ok in Hrun as ([] & df9 & Hseta & Hrun).
  injection Hrun as <- <-. split; [done|].
  unfold getitem in Hm, Ha.
  destruct (lookup_col "monetary" df3) as [mo'|] eqn:Emo; [|discriminate].
  injection Hm as -> <-. unfold lift in Hml. injection Hml as Eml <-.
  unfold setitem in Hsetm. injection Hsetm as <-.
  destruct (lookup_col "avg_order_value" (assign_col "monetary_log" ml df3))
    as [a'|] eqn:Ea; [|discriminate].
  injection Ha as -> <-. unfold lift in Hal. injection Hal as Eal <-.
  unfold setitem in Hseta. injection Hseta as <-.
  exists mo, ml, a, al.
  split; [by rewrite !lookup_assign_other|]. split; [done|].
  split; [rewrite lookup_assign_other by done; apply lookup_assign_same|].
  split; [by rewrite lookup_assign_other|]. split; [done|].
  apply lookup_assign_same.
Qed.

Lemma touches_clean_features :
  touches (Segmentation.FEATURES ++ ["monetary_log"; "avg_order_value_log"])
          Segmentation.clean_features.
Proof.
  set (cs := (Segmentation.FEATURES ++ ["monetary_log"; "avg_order_value_log"])%list).
  assert (Hfeature : forall x, In x Segmentation.FEATURES -> In x cs)
    by (intros x Hx; apply in_or_app; by left).
  assert (Hlog : forall x, In x ["monetary_log"; "avg_order_value_log"] -> In x cs)
    by (intros x Hx; apply in_or_app; by right).
  unfold Segmentation.clean_features.
  apply touches_bind; [|intros _].
  { apply touches_for_each. intros x Hx.
    apply touches_bind; [apply touches_getitem|]. intros s. apply touches_setitem. auto. }
  apply touches_bind; [apply touches_getitem|intros s].
  apply touches_bind; [|intros _].
  { apply touches_setitem, Hfeature. unfold Segmentation.FEATURES. simpl. tauto. }
  apply touches_bind; [|intros _].
  { apply touches_for_each. intros x Hx. apply touches_fill_missing. auto. }
  apply touches_bind; [apply touches_getitem|intros m].
  apply touches_bind; [apply touches_lift|intros ml].
  apply touches_bind; [|intros _].
  { apply touches_setitem, Hlog. simpl. tauto. }
  apply touches_bind; [apply touches_getitem|intros a].
  apply touches_bind; [apply touches_lift|intros al].
  apply touches_bind; [|intros _].
  { apply touches_setitem, Hlog. simpl. tauto. }
  apply touches_ret.
Qed.

(** Whenever [clean_features] returns, the feature list it returns can
    be selected from the cleaned table: the selection [df[features]] does
    not fail, its columns are the eight clustering features in order, in
    which [monetary_log] and [avg_order_value_log] are [log1p] of the
    cleaned [monetary] and [avg_order_value], which themselves stay in
    the table; and every column that is neither a feature nor one of the
    two log columns is as it was read. *)
Theorem clean_features_feature_matrix (df df' : Frame) (r : list string) :
  Segmentation.clean_features df = (Ok r, df') ->
  (exists X mo ml a al,
     select_columns r df' = Ok X /\
     columns X = Segmentation.clustering_features /\
     (forall c, In c Segmentation.clustering_features -> lookup_col c X = lookup_col c df') /\
     lookup_col "monetary" df' = Some mo /\ np_log1p mo = Ok ml /\
     lookup_col "monetary_log" X = Some ml /\
     lookup_col "avg_order_value" df' = Some a /\ np_log1p a = Ok al /\
     lookup_col "avg_order_value_log" X = Some al) /\
  (forall c, ~ In c (Segmentation.FEATURES ++ ["monetary_log"; "avg_order_value_log"]) ->
             lookup_col c df' = lookup_col c df).
Proof.
  intros Hrun. split; [|by apply (touches_clean_features df (Ok r) df')].
  destruct (clean_features_logs _ _ _ Hrun)
    as (-> & mo & ml & a & al & Hmo & Eml & Hml & Ha & Eal & Hal).
  destruct (select_columns_total Segmentation.clustering_features df') as [X HX].
  { intros c Hc. unfold Segmentation.clustering_features in Hc. simpl in Hc.
    destruct Hc as [<-|[<-|[<-|[<-|[<-|[<-|[<-|[<-|[]]]]]]]]];
      try (rewrite Hml; discriminate); try (rewrite Hal; discriminate);
      match goal with
      | |- lookup_col ?c df' <> None =>
          destruct (clean_features_settles df df' _ c Hrun) as (t & -> & _);
          [unfold Segmentation.FEATURES; simpl; tauto | discriminate]
      end. }
  destruct (select_columns_ok _ _ _ HX) as [Hcols Hcells].
  exists X, mo, ml, a, al. repeat (split; [done|]).
  split; [intros c Hc; by apply Hcells|].
  split; [done|]. split; [done|]. split.
  { rewrite (proj2 (Hcells "monetary_log" ltac:(simpl; tauto))). done. }
  split; [done|]. split; [done|].
  rewrite (proj2 (Hcells "avg_order_value_log" ltac:(simpl; tauto))). done.
Qed.

End Clean_features_matrix.

Lemma clean_features_feature_matrix_witness :
  (exists X mo ml a al,
     select_columns Segmentation.clustering_features
       (snd (@Segmentation.clean_features toy_numerics gappy_table)) = Ok X /\
     columns X = Segmentation.clustering_features /\
     (forall c, In c Segmentation.clustering_features ->
        lookup_col c X
        = lookup_col c (snd (@Segmentation.clean_features toy_numerics gappy_table))) /\
     lookup_col "monetary" (snd (@Segmentation.clean_features toy_numerics gappy_table))
       = Some mo /\
     @np_log1p toy_numerics mo = Ok ml /\
     lookup_col "monetary_log" X = Some ml /\
     lookup_col "avg_order_value" (snd (@Segmentation.clean_features toy_numerics gappy_table))
       = Some a /\
     @np_log1p toy_numerics a = Ok al /\
     lookup_col "avg_order_value_log" X = Some al) /\
  (forall c, ~ In c (Segmentation.FEATURES ++ ["monetary_log"; "avg_order_value_log"]) ->
             lookup_col c (snd (@Segmentation.clean_features toy_numerics gappy_table))
             = lookup_col c gappy_table).
Proof.
  apply (@clean_features_feature_matrix toy_numerics gappy_table).
  vm_compute. reflexivity.
Defined.

(** ** C3: what stops a run before it writes, and what does not *)




